(** * H3 grid traversal and indexing core: a shallow embedding

    The development follows the C sources file by file:
    - [coordijk.c]: the single-digit rotations;
    - [h3Index.c]: the bit-packed index, digit zeroing, whole-index rotations;
    - [algos.c]: the neighbour walk [h3NeighborRotations] and the loop tracer
      [_getEdgeHexagons];
    - [linkedGeo.c]: the chain counters.

    An [H3Index] is a [uint64_t]; it is modelled as an integer of [Z] kept in
    the range of 64 bits, with every bit operation written out. C [int]
    values are integers of [Z]; the remainder operator [%] is [Z.rem]
    (truncation towards zero). *)

From Stdlib Require Import ZArith Lia Bool List.
From stdpp Require Import base numbers list gmap.
Import ListNotations.

Local Open Scope Z_scope.

(** Side conditions of the rewriting lemmas: a hypothesis or arithmetic. *)
Ltac side := first [assumption | lia].

(** ** coordijk: direction digits *)

(** Modelled from the spec: the [Direction] enumeration of coordijk.h is not
    among the sources; the spec gives it as CENTER, K, J, JK, I, IK, IJ plus
    an INVALID sentinel, and the step tables of algos.c fix the order (row and
    column 0 are the identity on CENTER .. IJ). A [Direction] is a C [int]. *)
Abbreviation Direction := Z (only parsing).
Abbreviation CENTER_DIGIT := 0 (only parsing).
Abbreviation K_AXES_DIGIT := 1 (only parsing).
Abbreviation J_AXES_DIGIT := 2 (only parsing).
Abbreviation JK_AXES_DIGIT := 3 (only parsing).
Abbreviation I_AXES_DIGIT := 4 (only parsing).
Abbreviation IK_AXES_DIGIT := 5 (only parsing).
Abbreviation IJ_AXES_DIGIT := 6 (only parsing).
Abbreviation INVALID_DIGIT := 7 (only parsing).

(** coordijk.c, [_rotate60ccw]. *)
Definition _rotate60ccw (digit : Direction) : Direction :=
  match digit with
  | K_AXES_DIGIT => IK_AXES_DIGIT
  | IK_AXES_DIGIT => I_AXES_DIGIT
  | I_AXES_DIGIT => IJ_AXES_DIGIT
  | IJ_AXES_DIGIT => J_AXES_DIGIT
  | J_AXES_DIGIT => JK_AXES_DIGIT
  | JK_AXES_DIGIT => K_AXES_DIGIT
  | _ => digit
  end.

(** coordijk.c, [_rotate60cw]. *)
Definition _rotate60cw (digit : Direction) : Direction :=
  match digit with
  | K_AXES_DIGIT => JK_AXES_DIGIT
  | JK_AXES_DIGIT => J_AXES_DIGIT
  | J_AXES_DIGIT => IJ_AXES_DIGIT
  | IJ_AXES_DIGIT => I_AXES_DIGIT
  | I_AXES_DIGIT => IK_AXES_DIGIT
  | IK_AXES_DIGIT => K_AXES_DIGIT
  | _ => digit
  end.

(** ** h3Index: the bit-packed cell identifier *)

Abbreviation H3Index := Z (only parsing).

(** The values of [uint64_t]. *)
Definition U64 (h : Z) : Prop := 0 <= h < 2 ^ 64.

(** Reduction to 64 bits, [~] and [<<] on [uint64_t]. *)
Definition wrap64 (x : Z) : Z := Z.land x (Z.ones 64).
Definition not64 (x : Z) : Z := wrap64 (Z.lnot x).
Definition shl64 (x k : Z) : Z := wrap64 (Z.shiftl x k).

(** Modelled from the spec: the layout macros of h3Index.h are not among the
    sources. The spec gives the fields (mode, resolution 0..15, base cell
    0..121, fifteen 3-bit digits, one per level 1..15); the offsets are those
    [_zeroIndexDigits] computes with ([H3_PER_DIGIT_OFFSET] bits per digit,
    level [MAX_H3_RES] lowest) and those of the cell 0x89283080ddbffff of
    benchmarkDirectedEdge.c (mode 1, resolution 9). *)
Definition MAX_H3_RES : Z := 15.
Definition H3_PER_DIGIT_OFFSET : Z := 3.
Definition H3_BC_OFFSET : Z := 45.
Definition H3_RES_OFFSET : Z := 52.
Definition H3_MODE_OFFSET : Z := 59.
Definition H3_DIGIT_MASK : Z := 7.
Definition H3_BC_MASK : Z := Z.shiftl 127 H3_BC_OFFSET.
Definition H3_RES_MASK : Z := Z.shiftl 15 H3_RES_OFFSET.
Definition H3_MODE_MASK : Z := Z.shiftl 15 H3_MODE_OFFSET.
Abbreviation NUM_BASE_CELLS := 122 (only parsing).
Abbreviation INVALID_BASE_CELL := 127 (only parsing).

Definition H3_GET_MODE (h3 : H3Index) : Z :=
  Z.shiftr (Z.land h3 H3_MODE_MASK) H3_MODE_OFFSET.

Definition H3_GET_RESOLUTION (h3 : H3Index) : Z :=
  Z.shiftr (Z.land h3 H3_RES_MASK) H3_RES_OFFSET.

Definition H3_GET_BASE_CELL (h3 : H3Index) : Z :=
  Z.shiftr (Z.land h3 H3_BC_MASK) H3_BC_OFFSET.

Definition H3_SET_BASE_CELL (h3 : H3Index) (bc : Z) : H3Index :=
  Z.lor (Z.land h3 (not64 H3_BC_MASK)) (shl64 (wrap64 bc) H3_BC_OFFSET).

Definition digitOffset (res : Z) : Z := (MAX_H3_RES - res) * H3_PER_DIGIT_OFFSET.

Definition H3_GET_INDEX_DIGIT (h3 : H3Index) (res : Z) : Direction :=
  Z.land (Z.shiftr h3 (digitOffset res)) H3_DIGIT_MASK.

Definition H3_SET_INDEX_DIGIT (h3 : H3Index) (res : Z) (digit : Direction) : H3Index :=
  Z.lor (Z.land h3 (not64 (shl64 H3_DIGIT_MASK (digitOffset res))))
        (shl64 (wrap64 digit) (digitOffset res)).

(** The levels [1 .. res] in the order the [for] loops of h3Index.c visit them. *)
Definition levels (res : Z) : list Z := map Z.of_nat (seq 1 (Z.to_nat res)).

(** h3Index.c, [_zeroIndexDigits]. *)
Definition _zeroIndexDigits (h : H3Index) (start end_ : Z) : H3Index :=
  if start >? end_ then h
  else
    let m := 0 in
    let m := not64 m in
    let m := shl64 m (H3_PER_DIGIT_OFFSET * (end_ - start + 1)) in
    let m := not64 m in
    let m := shl64 m (H3_PER_DIGIT_OFFSET * (MAX_H3_RES - end_)) in
    let m := not64 m in
    Z.land h m.

(** h3Index.c, [_h3LeadingNonZeroDigit]. *)
Fixpoint leadingNonZeroFrom (h : H3Index) (rs : list Z) : Direction :=
  match rs with
  | [] => CENTER_DIGIT
  | r :: rs' =>
      if H3_GET_INDEX_DIGIT h r =? 0 then leadingNonZeroFrom h rs'
      else H3_GET_INDEX_DIGIT h r
  end.

Definition _h3LeadingNonZeroDigit (h : H3Index) : Direction :=
  leadingNonZeroFrom h (levels (H3_GET_RESOLUTION h)).

(** One iteration of the loops of [_h3Rotate60ccw] and [_h3Rotate60cw]. *)
Definition rotateDigitAt (rot : Direction -> Direction) (h : H3Index) (r : Z) : H3Index :=
  H3_SET_INDEX_DIGIT h r (rot (H3_GET_INDEX_DIGIT h r)).

(** h3Index.c, [_h3Rotate60ccw]. *)
Definition _h3Rotate60ccw (h : H3Index) : H3Index :=
  fold_left (rotateDigitAt _rotate60ccw) (levels (H3_GET_RESOLUTION h)) h.

(** h3Index.c, [_h3Rotate60cw]. *)
Definition _h3Rotate60cw (h : H3Index) : H3Index :=
  fold_left (rotateDigitAt _rotate60cw) (levels (H3_GET_RESOLUTION h)) h.

(** One iteration of the loops of [_h3RotatePent60ccw] and [_h3RotatePent60cw]:
    the state is the index and the flag [foundFirstNonZeroDigit]. *)
Definition rotatePentStep (rot : Direction -> Direction) (whole : H3Index -> H3Index)
    (st : H3Index * bool) (r : Z) : H3Index * bool :=
  let '(h, foundFirstNonZeroDigit) := st in
  let h := H3_SET_INDEX_DIGIT h r (rot (H3_GET_INDEX_DIGIT h r)) in
  if negb foundFirstNonZeroDigit && negb (H3_GET_INDEX_DIGIT h r =? 0) then
    if _h3LeadingNonZeroDigit h =? K_AXES_DIGIT then (whole h, true) else (h, true)
  else (h, foundFirstNonZeroDigit).

(** h3Index.c, [_h3RotatePent60ccw]. *)
Definition _h3RotatePent60ccw (h : H3Index) : H3Index :=
  fst (fold_left (rotatePentStep _rotate60ccw _h3Rotate60ccw)
                 (levels (H3_GET_RESOLUTION h)) (h, false)).

(** h3Index.c, [_h3RotatePent60cw]. *)
Definition _h3RotatePent60cw (h : H3Index) : H3Index :=
  fst (fold_left (rotatePentStep _rotate60cw _h3Rotate60cw)
                 (levels (H3_GET_RESOLUTION h)) (h, false)).

(** h3Index.c, [isResolutionClassIII]. *)
Definition isResolutionClassIII (res : Z) : Z := Z.rem res 2.

(** Modelled from the spec: [H3_INIT], [H3_CELL_MODE] and the setters of the
    mode and resolution fields (h3Index.h) are not among the sources. The
    initial value has every digit at 7, as the unused digits of the cell
    0x89283080ddbffff of benchmarkDirectedEdge.c. *)
Definition H3_INIT : Z := 35184372088831.
Definition H3_CELL_MODE : Z := 1.

Definition H3_SET_MODE (h3 v : Z) : Z :=
  Z.lor (Z.land h3 (not64 H3_MODE_MASK)) (shl64 (wrap64 v) H3_MODE_OFFSET).

Definition H3_SET_RESOLUTION (h3 res : Z) : Z :=
  Z.lor (Z.land h3 (not64 H3_RES_MASK)) (shl64 (wrap64 res) H3_RES_OFFSET).

(** h3Index.c, [setH3Index]. *)
Definition setH3Index (res baseCell : Z) (initDigit : Direction) : H3Index :=
  let h := H3_INIT in
  let h := H3_SET_MODE h H3_CELL_MODE in
  let h := H3_SET_RESOLUTION h res in
  let h := H3_SET_BASE_CELL h baseCell in
  fold_left (fun h r => H3_SET_INDEX_DIGIT h r initDigit) (levels res) h.

(** ** algos: the step tables *)

Definition NEW_DIGIT_II : list (list Direction) :=
  [ [CENTER_DIGIT; K_AXES_DIGIT; J_AXES_DIGIT; JK_AXES_DIGIT; I_AXES_DIGIT;
     IK_AXES_DIGIT; IJ_AXES_DIGIT];
    [K_AXES_DIGIT; I_AXES_DIGIT; JK_AXES_DIGIT; IJ_AXES_DIGIT; IK_AXES_DIGIT;
     J_AXES_DIGIT; CENTER_DIGIT];
    [J_AXES_DIGIT; JK_AXES_DIGIT; K_AXES_DIGIT; I_AXES_DIGIT; IJ_AXES_DIGIT;
     CENTER_DIGIT; IK_AXES_DIGIT];
    [JK_AXES_DIGIT; IJ_AXES_DIGIT; I_AXES_DIGIT; IK_AXES_DIGIT; CENTER_DIGIT;
     K_AXES_DIGIT; J_AXES_DIGIT];
    [I_AXES_DIGIT; IK_AXES_DIGIT; IJ_AXES_DIGIT; CENTER_DIGIT; J_AXES_DIGIT;
     JK_AXES_DIGIT; K_AXES_DIGIT];
    [IK_AXES_DIGIT; J_AXES_DIGIT; CENTER_DIGIT; K_AXES_DIGIT; JK_AXES_DIGIT;
     IJ_AXES_DIGIT; I_AXES_DIGIT];
    [IJ_AXES_DIGIT; CENTER_DIGIT; IK_AXES_DIGIT; J_AXES_DIGIT; K_AXES_DIGIT;
     I_AXES_DIGIT; JK_AXES_DIGIT] ].

Definition NEW_ADJUSTMENT_II : list (list Direction) :=
  [ [CENTER_DIGIT; CENTER_DIGIT; CENTER_DIGIT; CENTER_DIGIT; CENTER_DIGIT;
     CENTER_DIGIT; CENTER_DIGIT];
    [CENTER_DIGIT; K_AXES_DIGIT; CENTER_DIGIT; K_AXES_DIGIT; CENTER_DIGIT;
     IK_AXES_DIGIT; CENTER_DIGIT];
    [CENTER_DIGIT; CENTER_DIGIT; J_AXES_DIGIT; JK_AXES_DIGIT; CENTER_DIGIT;
     CENTER_DIGIT; J_AXES_DIGIT];
    [CENTER_DIGIT; K_AXES_DIGIT; JK_AXES_DIGIT; JK_AXES_DIGIT; CENTER_DIGIT;
     CENTER_DIGIT; CENTER_DIGIT];
    [CENTER_DIGIT; CENTER_DIGIT; CENTER_DIGIT; CENTER_DIGIT; I_AXES_DIGIT;
     I_AXES_DIGIT; IJ_AXES_DIGIT];
    [CENTER_DIGIT; IK_AXES_DIGIT; CENTER_DIGIT; CENTER_DIGIT; I_AXES_DIGIT;
     IK_AXES_DIGIT; CENTER_DIGIT];
    [CENTER_DIGIT; CENTER_DIGIT; J_AXES_DIGIT; CENTER_DIGIT; IJ_AXES_DIGIT;
     CENTER_DIGIT; IJ_AXES_DIGIT] ].

Definition NEW_DIGIT_III : list (list Direction) :=
  [ [CENTER_DIGIT; K_AXES_DIGIT; J_AXES_DIGIT; JK_AXES_DIGIT; I_AXES_DIGIT;
     IK_AXES_DIGIT; IJ_AXES_DIGIT];
    [K_AXES_DIGIT; J_AXES_DIGIT; JK_AXES_DIGIT; I_AXES_DIGIT; IK_AXES_DIGIT;
     IJ_AXES_DIGIT; CENTER_DIGIT];
    [J_AXES_DIGIT; JK_AXES_DIGIT; I_AXES_DIGIT; IK_AXES_DIGIT; IJ_AXES_DIGIT;
     CENTER_DIGIT; K_AXES_DIGIT];
    [JK_AXES_DIGIT; I_AXES_DIGIT; IK_AXES_DIGIT; IJ_AXES_DIGIT; CENTER_DIGIT;
     K_AXES_DIGIT; J_AXES_DIGIT];
    [I_AXES_DIGIT; IK_AXES_DIGIT; IJ_AXES_DIGIT; CENTER_DIGIT; K_AXES_DIGIT;
     J_AXES_DIGIT; JK_AXES_DIGIT];
    [IK_AXES_DIGIT; IJ_AXES_DIGIT; CENTER_DIGIT; K_AXES_DIGIT; J_AXES_DIGIT;
     JK_AXES_DIGIT; I_AXES_DIGIT];
    [IJ_AXES_DIGIT; CENTER_DIGIT; K_AXES_DIGIT; J_AXES_DIGIT; JK_AXES_DIGIT;
     I_AXES_DIGIT; IK_AXES_DIGIT] ].

Definition NEW_ADJUSTMENT_III : list (list Direction) :=
  [ [CENTER_DIGIT; CENTER_DIGIT; CENTER_DIGIT; CENTER_DIGIT; CENTER_DIGIT;
     CENTER_DIGIT; CENTER_DIGIT];
    [CENTER_DIGIT; K_AXES_DIGIT; CENTER_DIGIT; JK_AXES_DIGIT; CENTER_DIGIT;
     K_AXES_DIGIT; CENTER_DIGIT];
    [CENTER_DIGIT; CENTER_DIGIT; J_AXES_DIGIT; J_AXES_DIGIT; CENTER_DIGIT;
     CENTER_DIGIT; IJ_AXES_DIGIT];
    [CENTER_DIGIT; JK_AXES_DIGIT; J_AXES_DIGIT; JK_AXES_DIGIT; CENTER_DIGIT;
     CENTER_DIGIT; CENTER_DIGIT];
    [CENTER_DIGIT; CENTER_DIGIT; CENTER_DIGIT; CENTER_DIGIT; I_AXES_DIGIT;
     IK_AXES_DIGIT; I_AXES_DIGIT];
    [CENTER_DIGIT; K_AXES_DIGIT; CENTER_DIGIT; CENTER_DIGIT; IK_AXES_DIGIT;
     IK_AXES_DIGIT; CENTER_DIGIT];
    [CENTER_DIGIT; CENTER_DIGIT; IJ_AXES_DIGIT; CENTER_DIGIT; I_AXES_DIGIT;
     CENTER_DIGIT; IJ_AXES_DIGIT] ].

(** [t[i][j]] for a 7x7 table; an index outside the table (undefined in C,
    never reached by the walk) reads as [INVALID_DIGIT]. *)
Definition tableAt (t : list (list Direction)) (i j : Z) : Direction :=
  nth (Z.to_nat j) (nth (Z.to_nat i) t []) INVALID_DIGIT.

(** Modelled from the spec: the result codes of h3api.h are not among the
    sources; these are the codes the sources return. *)
Inductive H3Error : Type :=
  | E_SUCCESS | E_FAILED | E_CELL_INVALID | E_PENTAGON.

(** Modelled from the spec: the base-cell tables and predicates of baseCells.h
    are not among the sources (the spec lists them as external lookup
    services); the walk takes them as a parameter. *)
Record BaseCells : Type := {
  baseCellNeighbors : Z -> Direction -> Z;
  baseCellNeighbor60CCWRots : Z -> Direction -> Z;
  _isBaseCellPentagon : Z -> bool;
  _isBaseCellPolarPentagon : Z -> bool;
  _baseCellIsCwOffset : Z -> Z -> bool;
  (** [baseCellData[bc].homeFijk.face] *)
  homeFace : Z -> Z
}.

(** What the [while (true)] loop of [h3NeighborRotations] leaves behind. *)
Inductive WalkOutcome : Type :=
  | WalkErr (e : H3Error)
  | WalkDone (current : H3Index) (newRotations rotations : Z).

(** What [h3NeighborRotations] leaves behind: the returned code, the value
    stored in [*rotations], and [*out] when it was written. *)
Record NeighborResult : Type := {
  nr_err : H3Error;
  nr_rotations : Z;
  nr_out : option H3Index
}.

(** [for (int i = 0; i < n; i++) x = f(x);] *)
Definition repeatZ {A : Type} (n : Z) (f : A -> A) (x : A) : A :=
  Nat.iter (Z.to_nat n) f x.

Section NeighborWalk.
Variable T : BaseCells.

(** The [while (true)] loop of [h3NeighborRotations], by recursion on
    [r + 1]: [level] is [r + 1], and [O] is the iteration with [r == -1]. *)
Fixpoint neighborWalk (oldBaseCell : Z) (level : nat) (current : H3Index)
    (dir : Direction) (rotations : Z) : WalkOutcome :=
  match level with
  | O =>
      let current :=
        H3_SET_BASE_CELL current (baseCellNeighbors T oldBaseCell dir) in
      let newRotations := baseCellNeighbor60CCWRots T oldBaseCell dir in
      if H3_GET_BASE_CELL current =? INVALID_BASE_CELL then
        let current :=
          H3_SET_BASE_CELL current (baseCellNeighbors T oldBaseCell IK_AXES_DIGIT) in
        let newRotations := baseCellNeighbor60CCWRots T oldBaseCell IK_AXES_DIGIT in
        let current := _h3Rotate60ccw current in
        WalkDone current newRotations (rotations + 1)
      else WalkDone current newRotations rotations
  | S r =>
      let oldDigit := H3_GET_INDEX_DIGIT current (Z.of_nat r + 1) in
      if oldDigit =? INVALID_DIGIT then WalkErr E_CELL_INVALID
      else
        let '(current, nextDir) :=
          if negb (isResolutionClassIII (Z.of_nat r + 1) =? 0) then
            (H3_SET_INDEX_DIGIT current (Z.of_nat r + 1)
                                (tableAt NEW_DIGIT_II oldDigit dir),
             tableAt NEW_ADJUSTMENT_II oldDigit dir)
          else
            (H3_SET_INDEX_DIGIT current (Z.of_nat r + 1)
                                (tableAt NEW_DIGIT_III oldDigit dir),
             tableAt NEW_ADJUSTMENT_III oldDigit dir) in
        if negb (nextDir =? CENTER_DIGIT) then
          neighborWalk oldBaseCell r current nextDir rotations
        else WalkDone current 0 rotations
  end.

(** The block [if (_h3LeadingNonZeroDigit(current) == K_AXES_DIGIT)] of the
    pentagon branch: an error, or the index, [*rotations] and
    [alreadyAdjustedKSubsequence]. *)
Definition forceOutOfKSubsequence (oldBaseCell newBaseCell : Z)
    (oldLeadingDigit : Direction) (current : H3Index) (rotations : Z)
    : H3Error + (H3Index * Z * bool) :=
  if _h3LeadingNonZeroDigit current =? K_AXES_DIGIT then
    if negb (oldBaseCell =? newBaseCell) then
      if _baseCellIsCwOffset T newBaseCell (homeFace T oldBaseCell) then
        inr (_h3Rotate60cw current, rotations, true)
      else inr (_h3Rotate60ccw current, rotations, true)
    else if oldLeadingDigit =? CENTER_DIGIT then inl E_PENTAGON
    else if oldLeadingDigit =? JK_AXES_DIGIT then
      inr (_h3Rotate60ccw current, rotations + 1, false)
    else if oldLeadingDigit =? IK_AXES_DIGIT then
      inr (_h3Rotate60cw current, rotations + 5, false)
    else inl E_FAILED
  else inr (current, rotations, false).

(** The block [if (oldBaseCell != newBaseCell)] that closes the pentagon
    branch: the new value of [*rotations]. *)
Definition orientationAdjust (oldBaseCell newBaseCell : Z) (current : H3Index)
    (rotations : Z) (alreadyAdjustedKSubsequence : bool) : Z :=
  if negb (oldBaseCell =? newBaseCell) then
    if _isBaseCellPolarPentagon T newBaseCell then
      if negb (oldBaseCell =? 118) && negb (oldBaseCell =? 8)
         && negb (_h3LeadingNonZeroDigit current =? JK_AXES_DIGIT)
      then rotations + 1 else rotations
    else if (_h3LeadingNonZeroDigit current =? IK_AXES_DIGIT)
            && negb alreadyAdjustedKSubsequence
    then rotations + 1 else rotations
  else rotations.

(** Everything after the walk, up to the final reduction of [*rotations]:
    an error with the value of [*rotations] at that point, or the final
    index and the value of [*rotations] before the reduction. *)
Definition rotateIntoBaseCell (oldBaseCell : Z) (oldLeadingDigit : Direction)
    (current : H3Index) (newRotations rotations : Z)
    : (H3Error * Z) + (H3Index * Z) :=
  let newBaseCell := H3_GET_BASE_CELL current in
  if _isBaseCellPentagon T newBaseCell then
    match forceOutOfKSubsequence oldBaseCell newBaseCell oldLeadingDigit
                                 current rotations with
    | inl e => inl (e, rotations)
    | inr (current, rotations, alreadyAdjustedKSubsequence) =>
        let current := repeatZ newRotations _h3RotatePent60ccw current in
        inr (current,
             orientationAdjust oldBaseCell newBaseCell current rotations
                               alreadyAdjustedKSubsequence)
    end
  else inr (repeatZ newRotations _h3Rotate60ccw current, rotations).

(** algos.c, [h3NeighborRotations]. *)
Definition h3NeighborRotations (origin : H3Index) (dir : Direction)
    (rotations : Z) : NeighborResult :=
  let current := origin in
  if (dir <? CENTER_DIGIT) || (dir >=? INVALID_DIGIT) then
    {| nr_err := E_FAILED; nr_rotations := rotations; nr_out := None |}
  else
    let rotations := Z.rem rotations 6 in
    let dir := repeatZ rotations _rotate60ccw dir in
    let oldBaseCell := H3_GET_BASE_CELL current in
    if (oldBaseCell <? 0) || (oldBaseCell >=? NUM_BASE_CELLS) then
      {| nr_err := E_CELL_INVALID; nr_rotations := rotations; nr_out := None |}
    else
      let oldLeadingDigit := _h3LeadingNonZeroDigit current in
      match neighborWalk oldBaseCell (Z.to_nat (H3_GET_RESOLUTION current))
                              current dir rotations with
      | WalkErr e => {| nr_err := e; nr_rotations := rotations; nr_out := None |}
      | WalkDone current newRotations rotations =>
          match rotateIntoBaseCell oldBaseCell oldLeadingDigit current
                                   newRotations rotations with
          | inl (e, rotations) =>
              {| nr_err := e; nr_rotations := rotations; nr_out := None |}
          | inr (current, rotations) =>
              {| nr_err := E_SUCCESS;
                 nr_rotations := Z.rem (rotations + newRotations) 6;
                 nr_out := Some current |}
          end
      end.
End NeighborWalk.

(** ** algos: tracing a loop into the found set *)

(** [a[i]] for a C array held as a list; [None] is an access outside the
    array (undefined behaviour). *)
Definition arrayGet {A : Type} (a : list A) (i : Z) : option A :=
  if i <? 0 then None else a !! Z.to_nat i.

(** The conversion [(int64_t)] of a [uint64_t]. *)
Definition toInt64 (x : Z) : Z := if x <? 2 ^ 63 then x else x - 2 ^ 64.

(** The memory [_getEdgeHexagons] updates: [*numSearchHexes] and the blocks
    [search] and [found]. *)
Record TraceState : Type := {
  numSearchHexes : Z;
  search : list H3Index;
  found : list H3Index
}.

(** How a stretch of [_getEdgeHexagons] ends: it falls through to the next
    statement, it returns a code, or its behaviour is undefined (an access
    outside a block, a division by zero). *)
Inductive TraceOutcome : Type :=
  | Continue (st : TraceState)
  | Return (e : H3Error) (st : TraceState)
  | Undefined.

(** How the probing [while] loop ends: at a slot, by [return E_FAILED], or
    undefined. *)
Inductive ProbeOutcome : Type :=
  | ProbeAt (loc : Z)
  | ProbeFailed
  | ProbeUndefined.

(** The loop [while (found[loc] != 0)]; [None] when the fuel runs out. The
    remainder [(loc + 1) % numHexagons] is undefined for [numHexagons] zero. *)
Fixpoint probeLoop (fuel : nat) (found : list H3Index) (numHexagons : Z)
    (pointHex : H3Index) (loc loopCount : Z) : option ProbeOutcome :=
  match fuel with
  | O => None
  | S fuel =>
      match arrayGet found loc with
      | None => Some ProbeUndefined
      | Some v =>
          if v =? 0 then Some (ProbeAt loc)
          else if loopCount >? numHexagons then Some ProbeFailed
          else if v =? pointHex then Some (ProbeAt loc)
          else if numHexagons =? 0 then Some ProbeUndefined
          else probeLoop fuel found numHexagons pointHex
                         (Z.rem (loc + 1) numHexagons) (loopCount + 1)
      end
  end.

(** The body of the inner loop from the hashing of [pointHex] on. The probing
    loop runs at most [numHexagons + 2] times. *)
Definition insertFound (numHexagons : Z) (pointHex : H3Index) (st : TraceState)
    : TraceOutcome :=
  if wrap64 numHexagons =? 0 then Undefined
  else
    let loc := toInt64 (Z.rem pointHex (wrap64 numHexagons)) in
    match probeLoop (Z.to_nat numHexagons + 2) (found st) numHexagons pointHex loc 0 with
    | None | Some ProbeUndefined => Undefined
    | Some ProbeFailed => Return E_FAILED st
    | Some (ProbeAt loc) =>
        match arrayGet (found st) loc with
        | None => Undefined
        | Some v =>
            if v =? pointHex then Continue st
            else
              match arrayGet (search st) (numSearchHexes st) with
              | None => Undefined
              | Some _ =>
                  Continue
                    {| numSearchHexes := numSearchHexes st + 1;
                       search := <[Z.to_nat (numSearchHexes st) := pointHex]> (search st);
                       found := <[Z.to_nat loc := pointHex]> (found st) |}
              end
        end
    end.

Section LineTrace.
(** The C type [double] and the operations the tracer applies to it; what
    is proved of the tracer does not depend on their values. *)
Variable double : Type.
Variables dmul ddiv dadd : double -> double -> double.
Variable doubleOfInt64 : Z -> double.

Record LatLng : Type := { lat : double; lng : double }.
Record GeoLoop : Type := { numVerts : Z; verts : list LatLng }.

(** bbox.c, [lineHexEstimate], computed in floating point: the returned
    code and the value left in [*out]. *)
Variable lineHexEstimate : LatLng -> LatLng -> Z -> H3Error * Z.
(** The point-indexing primitive: the returned code and the value left in
    [*out]. *)
Variable latLngToCell : LatLng -> Z -> H3Error * H3Index.

(** The point [interpolate] of step [j]. *)
Definition interpolatePoint (origin destination : LatLng)
    (numHexesEstimate j : Z) : LatLng :=
  {| lat := dadd (ddiv (dmul (lat origin) (doubleOfInt64 (numHexesEstimate - j)))
                       (doubleOfInt64 numHexesEstimate))
                 (ddiv (dmul (lat destination) (doubleOfInt64 j))
                       (doubleOfInt64 numHexesEstimate));
     lng := dadd (ddiv (dmul (lng origin) (doubleOfInt64 (numHexesEstimate - j)))
                       (doubleOfInt64 numHexesEstimate))
                 (ddiv (dmul (lng destination) (doubleOfInt64 j))
                       (doubleOfInt64 numHexesEstimate)) |}.

(** The loop [for (int64_t j = 0; j < numHexesEstimate; j++)], over the
    values of [j] still to come. *)
Fixpoint traceEdge (numHexagons res : Z) (origin destination : LatLng)
    (numHexesEstimate : Z) (js : list Z) (st : TraceState) : TraceOutcome :=
  match js with
  | [] => Continue st
  | j :: js =>
      match latLngToCell (interpolatePoint origin destination numHexesEstimate j) res with
      | (E_SUCCESS, pointHex) =>
          match insertFound numHexagons pointHex st with
          | Continue st =>
              traceEdge numHexagons res origin destination numHexesEstimate js st
          | stop => stop
          end
      | (e, _) => Return e st
      end
  end.

(** The loop [for (int i = 0; i < geoloop->numVerts; i++)], over the values
    of [i] still to come. *)
Fixpoint traceLoop (geoloop : GeoLoop) (numHexagons res : Z) (is_ : list Z)
    (st : TraceState) : TraceOutcome :=
  match is_ with
  | [] => Continue st
  | i :: is_ =>
      match arrayGet (verts geoloop) i,
            arrayGet (verts geoloop) (if i =? numVerts geoloop - 1 then 0 else i + 1) with
      | Some origin, Some destination =>
          match lineHexEstimate origin destination res with
          | (E_SUCCESS, numHexesEstimate) =>
              match traceEdge numHexagons res origin destination numHexesEstimate
                              (seqZ 0 numHexesEstimate) st with
              | Continue st => traceLoop geoloop numHexagons res is_ st
              | stop => stop
              end
          | (estimateErr, _) => Return estimateErr st
          end
      | _, _ => Undefined
      end
  end.

(** algos.c, [_getEdgeHexagons]. *)
Definition _getEdgeHexagons (geoloop : GeoLoop) (numHexagons res : Z)
    (st : TraceState) : TraceOutcome :=
  match traceLoop geoloop numHexagons res (seqZ 0 (numVerts geoloop)) st with
  | Continue st => Return E_SUCCESS st
  | stop => stop
  end.
End LineTrace.

(** ** linkedGeo: chain counters *)

(** A pointer is an address; [NULL] is address 0. *)
Abbreviation ptr := Z (only parsing).
Abbreviation NULL := 0 (only parsing).

Definition INT_MAX : Z := 2 ^ 31 - 1.

(** Modelled from the spec: the structs of h3api.h are not among the sources;
    linkedGeo.c reads their fields [first] and [next], and the spec gives the
    nesting polygon, loop, coordinate. *)
Record LinkedLatLng : Type := { coord_next : ptr }.
Record LinkedGeoLoop : Type := { loop_first : ptr; loop_last : ptr; loop_next : ptr }.
Record LinkedGeoPolygon : Type :=
  { polygon_first : ptr; polygon_last : ptr; polygon_next : ptr }.

(** The loop [while (p != NULL) { count++; p = p->next; }] shared by the three
    counters, over a heap of nodes. [None] is undefined behaviour (a pointer
    to no node, [count] past [INT_MAX]) or fuel run out. *)
Fixpoint countChain {A : Type} (next : A -> ptr) (heap : gmap Z A) (fuel : nat)
    (p : ptr) (count : Z) : option Z :=
  if p =? NULL then Some count
  else
    match fuel with
    | O => None
    | S fuel =>
        match heap !! p with
        | None => None
        | Some node =>
            if count >=? INT_MAX then None
            else countChain next heap fuel (next node) (count + 1)
        end
    end.

(** linkedGeo.c, [countLinkedPolygons]. *)
Definition countLinkedPolygons (heap : gmap Z LinkedGeoPolygon) (fuel : nat)
    (polygon : ptr) : option Z :=
  countChain polygon_next heap fuel polygon 0.

(** linkedGeo.c, [countLinkedLoops]; [polygon] is the struct the argument
    points to. *)
Definition countLinkedLoops (heap : gmap Z LinkedGeoLoop) (fuel : nat)
    (polygon : LinkedGeoPolygon) : option Z :=
  countChain loop_next heap fuel (polygon_first polygon) 0.

(** linkedGeo.c, [countLinkedCoords]; [loop] is the struct the argument
    points to. *)
Definition countLinkedCoords (heap : gmap Z LinkedLatLng) (fuel : nat)
    (loop : LinkedGeoLoop) : option Z :=
  countChain coord_next heap fuel (loop_first loop) 0.

(** The nodes of the chain that starts at [p], in order: each is mapped by the
    heap and the last one's [next] is [NULL]. *)
Inductive chainFrom {A : Type} (next : A -> ptr) (heap : gmap Z A)
    : ptr -> list A -> Prop :=
  | chain_null : chainFrom next heap NULL []
  | chain_node p node rest :
      p <> NULL -> heap !! p = Some node ->
      chainFrom next heap (next node) rest ->
      chainFrom next heap p (node :: rest).

(** * Specification-level definitions and example data *)

(** The two pairs of step tables, named as one, for the lemmas about the
    tables. *)
Inductive TablePair : Type := PairII | PairIII.

Definition NEW_DIGIT (p : TablePair) : list (list Direction) :=
  match p with PairII => NEW_DIGIT_II | PairIII => NEW_DIGIT_III end.

Definition NEW_ADJUSTMENT (p : TablePair) : list (list Direction) :=
  match p with PairII => NEW_ADJUSTMENT_II | PairIII => NEW_ADJUSTMENT_III end.

(** The pair the walk reads when it rewrites the digit of [level]
    (lemma [neighborWalk_S]): the II pair when [isResolutionClassIII level]
    is non-zero, the III pair when it is zero. *)
Definition tablePairAt (level : Z) : TablePair :=
  if isResolutionClassIII level =? 0 then PairIII else PairII.

(** A map on digits: it sends 3-bit values to 3-bit values. *)
Definition digitMap (rot : Direction -> Direction) : Prop :=
  forall d, 0 <= d < 8 -> 0 <= rot d < 8.

(** Every neighbour entry of the base-cell table fits the 7-bit base-cell
    field: it is a base cell or the invalid sentinel. *)
Definition neighborsFitField (T : BaseCells) : Prop :=
  forall b d, 0 <= b < NUM_BASE_CELLS -> 0 <= d < 7 ->
    0 <= baseCellNeighbors T b d <= 127.

(** The base-cell tables are well formed: the neighbour entries fit the
    base-cell field, the rotation entry of a real neighbour is a count in
    0..5, and the IK neighbour is never the sentinel. *)
Record BaseCellsWF (T : BaseCells) : Prop := {
  wf_neighbor_field : neighborsFitField T;
  wf_rotation_count :
    forall b d, 0 <= b < NUM_BASE_CELLS -> 0 <= d < 7 ->
      baseCellNeighbors T b d <> INVALID_BASE_CELL ->
      0 <= baseCellNeighbor60CCWRots T b d <= 5;
  wf_ik_neighbor :
    forall b, 0 <= b < NUM_BASE_CELLS ->
      baseCellNeighbors T b IK_AXES_DIGIT <> INVALID_BASE_CELL
}.

(** Modelled from the spec: the twelve pentagons among the 122 base cells
    (the spec's glossary); their numbers are those of the grid's base-cell
    table, which is not among the sources. *)
Definition pentagonBaseCells : list Z :=
  [4; 14; 24; 38; 49; 58; 63; 72; 83; 97; 107; 117].

Definition isPentagonBaseCell (b : Z) : bool := existsb (Z.eqb b) pentagonBaseCells.

(** Modelled from the spec: the data of baseCells.c is not among the sources.
    This instance serves the closed examples: its pentagons have the invalid
    sentinel as K neighbour with rotation entry -1 (the spec's missing k-axis
    neighbour), every other entry is a well-formed placeholder. The general
    lemmas behind the examples hold for every instance. *)
Definition exampleBaseCells : BaseCells :=
  {| baseCellNeighbors := fun b d =>
       if d =? CENTER_DIGIT then b
       else if (d =? K_AXES_DIGIT) && isPentagonBaseCell b then INVALID_BASE_CELL
       else (b + d) mod NUM_BASE_CELLS;
     baseCellNeighbor60CCWRots := fun b d =>
       if (d =? K_AXES_DIGIT) && isPentagonBaseCell b then -1 else 0;
     _isBaseCellPentagon := isPentagonBaseCell;
     _isBaseCellPolarPentagon := fun b => (b =? 4) || (b =? 117);
     _baseCellIsCwOffset := fun _ _ => false;
     homeFace := fun _ => 0 |}.

(** Resolution-2 cell of base cell 20 with digits J, J; resolution-1 cells of
    base cell 20 with digit J and with digit CENTER; the pentagon base cell 4
    at resolution 0 and its centre child at resolution 1. *)
Definition cellJJ : H3Index := setH3Index 2 20 J_AXES_DIGIT.
Definition cellJ : H3Index := setH3Index 1 20 J_AXES_DIGIT.
Definition cellCenter : H3Index := setH3Index 1 20 CENTER_DIGIT.
Definition pentagon4 : H3Index := setH3Index 0 4 CENTER_DIGIT.
Definition pentagon4Center : H3Index := setH3Index 1 4 CENTER_DIGIT.

(** The direction facing a direction: K and IJ, J and IK, JK and I;
    [CENTER_DIGIT] faces itself. *)
Definition oppositeDirection (d : Direction) : Direction :=
  if d =? CENTER_DIGIT then CENTER_DIGIT else 7 - d.

(** The digit part of the walk, without the base-cell level: the index after
    the levels [level], [level - 1], ... have been rewritten, and the carry
    left for the base-cell level ([CENTER_DIGIT] when the step was absorbed
    on the way); [None] at an invalid digit. *)
Fixpoint digitWalk (level : nat) (current : H3Index) (dir : Direction)
    : option (H3Index * Direction) :=
  match level with
  | O => Some (current, dir)
  | S r =>
      let oldDigit := H3_GET_INDEX_DIGIT current (Z.of_nat r + 1) in
      if oldDigit =? INVALID_DIGIT then None
      else
        let pair := tablePairAt (Z.of_nat r + 1) in
        let current :=
          H3_SET_INDEX_DIGIT current (Z.of_nat r + 1)
                             (tableAt (NEW_DIGIT pair) oldDigit dir) in
        let nextDir := tableAt (NEW_ADJUSTMENT pair) oldDigit dir in
        if negb (nextDir =? CENTER_DIGIT) then digitWalk r current nextDir
        else Some (current, CENTER_DIGIT)
  end.

(** The slot at which the probing for [c] starts. *)
Definition startLoc (numHexagons c : Z) : Z :=
  toInt64 (Z.rem c (wrap64 numHexagons)).

(** From slot [loc] the probing for [c] meets [c] before any empty slot. *)
Inductive probesTo (found : list Z) (numHexagons c : Z) : Z -> Prop :=
  | probes_here loc :
      arrayGet found loc = Some c -> probesTo found numHexagons c loc
  | probes_next loc v :
      arrayGet found loc = Some v -> v <> 0 ->
      probesTo found numHexagons c (Z.rem (loc + 1) numHexagons) ->
      probesTo found numHexagons c loc.

(** The found block is a well-formed open-addressed set: every cell in it is
    met by the probing that starts at its own slot. *)
Definition foundSetOK (numHexagons : Z) (found : list Z) : Prop :=
  forall c, c <> 0 -> c ∈ found -> probesTo found numHexagons c (startLoc numHexagons c).

(** The number of empty slots. *)
Fixpoint emptySlots (found : list Z) : nat :=
  match found with
  | [] => O
  | v :: found => if v =? 0 then S (emptySlots found) else emptySlots found
  end.

(** What a run of the tracer has done so far, from the state [st0] to the
    state [st], having appended the cells [app]. *)
Record traced (n : Z) (st0 st : TraceState) (app : list Z) : Prop := {
  tr_count : numSearchHexes st = numSearchHexes st0 + Z.of_nat (length app);
  tr_start : app <> [] -> 0 <= numSearchHexes st0;
  tr_search : forall k c, app !! k = Some c ->
      search st !! (Z.to_nat (numSearchHexes st0) + k)%nat = Some c;
  tr_nodup : NoDup app;
  tr_reach : forall c, c ∈ app -> c <> 0 /\ probesTo (found st) n c (startLoc n c);
  tr_fresh : forall c, c ∈ app -> ~ probesTo (found st0) n c (startLoc n c);
  tr_from : forall c, c ∈ found st -> c ∈ found st0 \/ c ∈ app;
  tr_keep : forall c, c <> 0 -> probesTo (found st0) n c (startLoc n c) ->
      probesTo (found st) n c (startLoc n c);
  tr_empty : (emptySlots (found st) + length app = emptySlots (found st0))%nat
}.

(** The memory a stretch of the tracer leaves, unless it is undefined. *)
Definition stateOf (o : TraceOutcome) : option TraceState :=
  match o with
  | Continue st | Return _ st => Some st
  | Undefined => None
  end.

(** A triangle traced with integer stand-ins for the floating-point
    collaborators: two points per edge, each point indexed to its latitude.
    The vertices have latitudes 10, 20 and 30, so the six points are 10, 15,
    20, 25, 30 and 20 again. *)
Definition triangle : GeoLoop Z :=
  {| numVerts := 3;
     verts := [ {| lat := 10; lng := 0 |}; {| lat := 20; lng := 0 |};
                {| lat := 30; lng := 0 |} ] |}.

Definition emptyTrace : TraceState :=
  {| numSearchHexes := 0; search := replicate 5 0; found := replicate 5 0 |}.

Definition triangleTrace : TraceOutcome :=
  _getEdgeHexagons Z Z.mul Z.div Z.add (fun x => x)
    (fun _ _ _ => (E_SUCCESS, 2)) (fun p _ => (E_SUCCESS, lat Z p))
    triangle 5 9 emptyTrace.

(** A polygon whose three loops sit at the addresses 16, 32 and 48. *)
Definition threeLoopHeap : gmap Z LinkedGeoLoop :=
  <[16 := {| loop_first := NULL; loop_last := NULL; loop_next := 32 |}]>
  (<[32 := {| loop_first := NULL; loop_last := NULL; loop_next := 48 |}]>
  (<[48 := {| loop_first := NULL; loop_last := NULL; loop_next := NULL |}]> ∅)).

Definition threeLoopPolygon : LinkedGeoPolygon :=
  {| polygon_first := 16; polygon_last := 48; polygon_next := NULL |}.

Definition emptyPolygon : LinkedGeoPolygon :=
  {| polygon_first := NULL; polygon_last := NULL; polygon_next := NULL |}.

(** The number of whole-index rotations one pentagon rotation amounts to:
    two when the leading digit is [pre], the digit the rotation sends to
    [K_AXES_DIGIT], one otherwise. *)
Definition pentRotations (pre leading : Direction) : nat :=
  if leading =? pre then 2%nat else 1%nat.

(** What a stretch of the tracer may do to the memory it is handed: the two
    blocks keep their sizes, [*numSearchHexes] does not go down, a filled
    slot of the found block keeps its cell, and the search block is left
    alone below the old [*numSearchHexes]. *)
Definition extends (st0 st : TraceState) : Prop :=
  length (search st) = length (search st0) /\
  length (found st) = length (found st0) /\
  numSearchHexes st0 <= numSearchHexes st /\
  (forall i v, found st0 !! i = Some v -> v <> 0 -> found st !! i = Some v) /\
  (forall i, (i < Z.to_nat (numSearchHexes st0))%nat -> search st !! i = search st0 !! i).

(** A found block of three slots, all taken, and the memory around it. *)
Definition fullTrace : TraceState :=
  {| numSearchHexes := 3; search := [10; 15; 20]; found := [15; 10; 20] |}.

(** Two polygons at the addresses 8 and 24, the first leading to the
    second. *)
Definition twoPolygonHeap : gmap Z LinkedGeoPolygon :=
  <[8 := {| polygon_first := 16; polygon_last := 48; polygon_next := 24 |}]>
  (<[24 := {| polygon_first := NULL; polygon_last := NULL; polygon_next := NULL |}]> ∅).

(** A loop whose four coordinates sit at the addresses 64, 80, 96 and 112. *)
Definition fourCoordHeap : gmap Z LinkedLatLng :=
  <[64 := {| coord_next := 80 |}]>
  (<[80 := {| coord_next := 96 |}]>
  (<[96 := {| coord_next := 112 |}]>
  (<[112 := {| coord_next := NULL |}]> ∅))).

Definition fourCoordLoop : LinkedGeoLoop :=
  {| loop_first := 64; loop_last := 112; loop_next := NULL |}.

(** The memory the triangle's trace leaves, and a memory with one cell. *)
Definition triangleTraced : TraceState :=
  {| numSearchHexes := 5; search := [10; 15; 20; 25; 30];
     found := [10; 15; 20; 25; 30] |}.

Definition oneCellTrace : TraceState :=
  {| numSearchHexes := 1; search := [10; 0; 0; 0; 0]; found := [10; 0; 0; 0; 0] |}.

(** * Properties *)

(** ** Bits of 64-bit values *)

Lemma testbit_small (x k n : Z) :
  0 <= x < 2 ^ k -> 0 <= k <= n -> Z.testbit x n = false.
Proof.
  intros Hx Hk.
  destruct (Z.eq_dec x 0) as [->|Hne]; [apply Z.testbit_0_l|].
  assert (Z.log2 x < k) by (apply Z.log2_lt_pow2; lia).
  apply Z.bits_above_log2; lia.
Qed.

Lemma bits_bound (x k : Z) :
  0 <= k -> 0 <= x ->
  (forall n, k <= n -> Z.testbit x n = false) -> x < 2 ^ k.
Proof.
  intros Hk Hx Hbits.
  destruct (Z.eq_dec x 0) as [->|Hne]; [apply Z.pow_pos_nonneg; lia|].
  apply Z.log2_lt_pow2; [lia|].
  destruct (Z.lt_ge_cases (Z.log2 x) k) as [|Hge]; [assumption|].
  specialize (Hbits (Z.log2 x) Hge).
  rewrite Z.bit_log2 in Hbits by lia. discriminate.
Qed.

Lemma U64_high (h n : Z) : U64 h -> 64 <= n -> Z.testbit h n = false.
Proof. intros Hh Hn. apply (testbit_small h 64); [exact Hh | lia]. Qed.

Lemma U64_of_bits (h : Z) :
  0 <= h -> (forall n, 64 <= n -> Z.testbit h n = false) -> U64 h.
Proof. intros H0 Hb. split; [assumption | apply bits_bound; [lia | assumption | assumption]]. Qed.

Lemma wrap64_bits (x n : Z) :
  0 <= n -> Z.testbit (wrap64 x) n = Z.testbit x n && (n <? 64).
Proof.
  intros Hn. unfold wrap64. rewrite Z.land_spec, Z.testbit_ones by lia.
  destruct (Z.leb_spec 0 n); [reflexivity | lia].
Qed.

Lemma wrap64_U64 (x : Z) : U64 (wrap64 x).
Proof.
  unfold wrap64, U64. rewrite Z.land_ones by lia.
  apply Z.mod_pos_bound. lia.
Qed.

Lemma wrap64_id (x : Z) : U64 x -> wrap64 x = x.
Proof.
  intros Hx. unfold wrap64. rewrite Z.land_ones by lia.
  apply Z.mod_small. exact Hx.
Qed.

Lemma not64_bits (x n : Z) :
  0 <= n -> Z.testbit (not64 x) n = negb (Z.testbit x n) && (n <? 64).
Proof.
  intros Hn. unfold not64. rewrite wrap64_bits, Z.lnot_spec by lia. reflexivity.
Qed.

Lemma shl64_bits (x k n : Z) :
  0 <= n -> Z.testbit (shl64 x k) n = Z.testbit x (n - k) && (n <? 64).
Proof.
  intros Hn. unfold shl64. rewrite wrap64_bits, Z.shiftl_spec by lia. reflexivity.
Qed.

Lemma land_U64_l (a b : Z) : U64 a -> U64 (Z.land a b).
Proof.
  intros Ha. apply U64_of_bits.
  - apply Z.land_nonneg. left. apply Ha.
  - intros n Hn. rewrite Z.land_spec, (U64_high a n Ha Hn). reflexivity.
Qed.

Lemma lor_U64 (a b : Z) : U64 a -> U64 b -> U64 (Z.lor a b).
Proof.
  intros Ha Hb. apply U64_of_bits.
  - apply Z.lor_nonneg. split; [apply Ha | apply Hb].
  - intros n Hn. rewrite Z.lor_spec, (U64_high a n Ha Hn), (U64_high b n Hb Hn).
    reflexivity.
Qed.

(** The bits of a digit: a value below 8 has none from bit 3 on. *)
Lemma digit_bits_high (d n : Z) : 0 <= d < 8 -> 3 <= n -> Z.testbit d n = false.
Proof. intros Hd Hn. apply (testbit_small d 3); [exact Hd | lia]. Qed.

Lemma mask7_bits (n : Z) : Z.testbit H3_DIGIT_MASK n = (0 <=? n) && (n <? 3).
Proof. change H3_DIGIT_MASK with (Z.ones 3). apply Z.testbit_ones. lia. Qed.

Lemma digitOffset_range (r : Z) :
  1 <= r <= 15 -> 0 <= digitOffset r <= 42 /\ digitOffset r = 45 - 3 * r.
Proof. unfold digitOffset, MAX_H3_RES, H3_PER_DIGIT_OFFSET. lia. Qed.

(** ** The index fields *)

Lemma get_digit_bits (h r n : Z) :
  1 <= r <= 15 -> 0 <= n ->
  Z.testbit (H3_GET_INDEX_DIGIT h r) n = Z.testbit h (n + digitOffset r) && (n <? 3).
Proof.
  intros Hr Hn. unfold H3_GET_INDEX_DIGIT.
  rewrite Z.land_spec, mask7_bits, Z.shiftr_spec by lia.
  destruct (Z.leb_spec 0 n); [reflexivity | lia].
Qed.

Lemma get_digit_range (h r : Z) : 0 <= H3_GET_INDEX_DIGIT h r < 8.
Proof.
  unfold H3_GET_INDEX_DIGIT. change H3_DIGIT_MASK with (Z.ones 3).
  rewrite Z.land_ones by lia. apply Z.mod_pos_bound. lia.
Qed.

Lemma set_digit_bits (h r d n : Z) :
  1 <= r <= 15 -> 0 <= d < 8 -> U64 h -> 0 <= n ->
  Z.testbit (H3_SET_INDEX_DIGIT h r d) n =
    if (digitOffset r <=? n) && (n <? digitOffset r + 3)
    then Z.testbit d (n - digitOffset r) else Z.testbit h n.
Proof.
  intros Hr Hd Hh Hn. destruct (digitOffset_range r Hr) as [Ho _].
  unfold H3_SET_INDEX_DIGIT.
  rewrite Z.lor_spec, Z.land_spec, not64_bits, !shl64_bits, mask7_bits by lia.
  rewrite (wrap64_id d) by (unfold U64; lia).
  destruct (Z.ltb_spec n 64) as [Hlt|Hge].
  - destruct (Z.leb_spec (digitOffset r) n), (Z.ltb_spec n (digitOffset r + 3)); simpl.
    + destruct (Z.leb_spec 0 (n - digitOffset r)), (Z.ltb_spec (n - digitOffset r) 3);
        try lia. simpl. rewrite andb_false_r, andb_true_r. reflexivity.
    + destruct (Z.ltb_spec (n - digitOffset r) 3); try lia.
      rewrite andb_false_r; simpl.
      rewrite (digit_bits_high d (n - digitOffset r)) by lia.
      rewrite !andb_true_r, orb_false_r. reflexivity.
    + rewrite (Z.testbit_neg_r d) by lia.
      destruct (Z.leb_spec 0 (n - digitOffset r)); try lia. simpl.
      rewrite !andb_true_r, orb_false_r. reflexivity.
    + lia.
  - rewrite (U64_high h n Hh) by lia.
    destruct (Z.leb_spec (digitOffset r) n), (Z.ltb_spec n (digitOffset r + 3));
      simpl; try lia; rewrite ?andb_false_r; reflexivity.
Qed.

Lemma set_digit_U64 (h r d : Z) :
  1 <= r <= 15 -> 0 <= d < 8 -> U64 h -> U64 (H3_SET_INDEX_DIGIT h r d).
Proof.
  intros Hr Hd Hh. unfold H3_SET_INDEX_DIGIT.
  apply lor_U64; [apply land_U64_l; exact Hh | apply wrap64_U64].
Qed.

Lemma get_set_digit_same (h r d : Z) :
  1 <= r <= 15 -> 0 <= d < 8 -> U64 h ->
  H3_GET_INDEX_DIGIT (H3_SET_INDEX_DIGIT h r d) r = d.
Proof.
  intros Hr Hd Hh. destruct (digitOffset_range r Hr) as [Ho _].
  apply Z.bits_inj'. intros n Hn.
  rewrite get_digit_bits, set_digit_bits by first [assumption | lia].
  destruct (Z.ltb_spec n 3).
  - destruct (Z.leb_spec (digitOffset r) (n + digitOffset r)),
             (Z.ltb_spec (n + digitOffset r) (digitOffset r + 3)); try lia.
    simpl. rewrite andb_true_r. f_equal. lia.
  - rewrite andb_false_r. symmetry. apply digit_bits_high; lia.
Qed.

Lemma get_set_digit_other (h r r' d : Z) :
  1 <= r <= 15 -> 1 <= r' <= 15 -> r <> r' -> 0 <= d < 8 -> U64 h ->
  H3_GET_INDEX_DIGIT (H3_SET_INDEX_DIGIT h r d) r' = H3_GET_INDEX_DIGIT h r'.
Proof.
  intros Hr Hr' Hne Hd Hh.
  destruct (digitOffset_range r Hr) as [Ho Hor].
  destruct (digitOffset_range r' Hr') as [Ho' Hor'].
  apply Z.bits_inj'. intros n Hn.
  rewrite !get_digit_bits, set_digit_bits by first [assumption | lia].
  destruct (Z.ltb_spec n 3); [|rewrite !andb_false_r; reflexivity].
  destruct (Z.leb_spec (digitOffset r) (n + digitOffset r')),
           (Z.ltb_spec (n + digitOffset r') (digitOffset r + 3)); simpl;
    try reflexivity.
  lia.
Qed.

(** Everything from the base-cell field up is left alone by a digit write. *)
Lemma set_digit_header (h r d : Z) :
  1 <= r <= 15 -> 0 <= d < 8 -> U64 h ->
  Z.shiftr (H3_SET_INDEX_DIGIT h r d) 45 = Z.shiftr h 45.
Proof.
  intros Hr Hd Hh. destruct (digitOffset_range r Hr) as [Ho Hor].
  apply Z.bits_inj'. intros n Hn.
  rewrite !Z.shiftr_spec, set_digit_bits by first [assumption | lia].
  destruct (Z.leb_spec (digitOffset r) (n + 45)),
           (Z.ltb_spec (n + 45) (digitOffset r + 3)); simpl; try reflexivity.
  lia.
Qed.

Lemma get_resolution_bits (h n : Z) :
  0 <= n -> Z.testbit (H3_GET_RESOLUTION h) n = Z.testbit h (n + 52) && (n <? 4).
Proof.
  intros Hn. unfold H3_GET_RESOLUTION, H3_RES_MASK, H3_RES_OFFSET.
  rewrite Z.shiftr_spec, Z.land_spec, Z.shiftl_spec by lia.
  change 15 with (Z.ones 4). rewrite Z.testbit_ones by lia.
  replace (n + 52 - 52) with n by lia.
  destruct (Z.leb_spec 0 n); [reflexivity | lia].
Qed.

Lemma get_mode_bits (h n : Z) :
  0 <= n -> Z.testbit (H3_GET_MODE h) n = Z.testbit h (n + 59) && (n <? 4).
Proof.
  intros Hn. unfold H3_GET_MODE, H3_MODE_MASK, H3_MODE_OFFSET.
  rewrite Z.shiftr_spec, Z.land_spec, Z.shiftl_spec by lia.
  change 15 with (Z.ones 4). rewrite Z.testbit_ones by lia.
  replace (n + 59 - 59) with n by lia.
  destruct (Z.leb_spec 0 n); [reflexivity | lia].
Qed.

Lemma get_base_cell_bits (h n : Z) :
  0 <= n -> Z.testbit (H3_GET_BASE_CELL h) n = Z.testbit h (n + 45) && (n <? 7).
Proof.
  intros Hn. unfold H3_GET_BASE_CELL, H3_BC_MASK, H3_BC_OFFSET.
  rewrite Z.shiftr_spec, Z.land_spec, Z.shiftl_spec by lia.
  change 127 with (Z.ones 7). rewrite Z.testbit_ones by lia.
  replace (n + 45 - 45) with n by lia.
  destruct (Z.leb_spec 0 n); [reflexivity | lia].
Qed.

Lemma get_resolution_range (h : Z) : 0 <= H3_GET_RESOLUTION h <= 15.
Proof.
  assert (0 <= H3_GET_RESOLUTION h < 2 ^ 4); [|lia].
  assert (H0 : 0 <= H3_GET_RESOLUTION h).
  { unfold H3_GET_RESOLUTION. apply Z.shiftr_nonneg, Z.land_nonneg.
    right. unfold H3_RES_MASK. apply Z.shiftl_nonneg. lia. }
  split; [exact H0|]. apply bits_bound; [lia | exact H0 |].
  intros n Hn. rewrite get_resolution_bits by lia.
  destruct (Z.ltb_spec n 4); [lia | apply andb_false_r].
Qed.

Lemma get_base_cell_range (h : Z) : 0 <= H3_GET_BASE_CELL h <= 127.
Proof.
  assert (0 <= H3_GET_BASE_CELL h < 2 ^ 7); [|lia].
  assert (H0 : 0 <= H3_GET_BASE_CELL h).
  { unfold H3_GET_BASE_CELL. apply Z.shiftr_nonneg, Z.land_nonneg.
    right. unfold H3_BC_MASK. apply Z.shiftl_nonneg. lia. }
  split; [exact H0|]. apply bits_bound; [lia | exact H0 |].
  intros n Hn. rewrite get_base_cell_bits by lia.
  destruct (Z.ltb_spec n 7); [lia | apply andb_false_r].
Qed.

(** The mode and the resolution are read from the bits above the base cell. *)
Lemma resolution_of_header (a b : Z) :
  Z.shiftr a 52 = Z.shiftr b 52 -> H3_GET_RESOLUTION a = H3_GET_RESOLUTION b.
Proof.
  intros Hab. apply Z.bits_inj'. intros n Hn.
  rewrite !get_resolution_bits by lia.
  rewrite <- !(Z.shiftr_spec _ 52) by lia. rewrite Hab. reflexivity.
Qed.

Lemma mode_of_header (a b : Z) :
  Z.shiftr a 52 = Z.shiftr b 52 -> H3_GET_MODE a = H3_GET_MODE b.
Proof.
  intros Hab. apply Z.bits_inj'. intros n Hn.
  rewrite !get_mode_bits by lia.
  replace (n + 59) with (n + 7 + 52) by lia.
  rewrite <- !(Z.shiftr_spec _ 52) by lia. rewrite Hab. reflexivity.
Qed.

Lemma base_cell_of_header (a b : Z) :
  Z.shiftr a 45 = Z.shiftr b 45 -> H3_GET_BASE_CELL a = H3_GET_BASE_CELL b.
Proof.
  intros Hab. apply Z.bits_inj'. intros n Hn.
  rewrite !get_base_cell_bits by lia.
  rewrite <- !(Z.shiftr_spec _ 45) by lia. rewrite Hab. reflexivity.
Qed.

Lemma header52_of_header45 (a b : Z) :
  Z.shiftr a 45 = Z.shiftr b 45 -> Z.shiftr a 52 = Z.shiftr b 52.
Proof.
  intros Hab. replace 52 with (45 + 7) by lia.
  rewrite <- !Z.shiftr_shiftr by lia. rewrite Hab. reflexivity.
Qed.

Lemma set_base_cell_bits (h bc n : Z) :
  0 <= bc < 128 -> U64 h -> 0 <= n ->
  Z.testbit (H3_SET_BASE_CELL h bc) n =
    if (45 <=? n) && (n <? 52) then Z.testbit bc (n - 45) else Z.testbit h n.
Proof.
  intros Hbc Hh Hn. unfold H3_SET_BASE_CELL, H3_BC_MASK, H3_BC_OFFSET.
  rewrite Z.lor_spec, Z.land_spec, not64_bits, shl64_bits, Z.shiftl_spec by lia.
  rewrite (wrap64_id bc) by (unfold U64; lia).
  change 127 with (Z.ones 7). rewrite Z.testbit_ones by lia.
  destruct (Z.ltb_spec n 64) as [Hlt|Hge].
  - destruct (Z.leb_spec 45 n), (Z.ltb_spec n 52); simpl.
    + destruct (Z.leb_spec 0 (n - 45)), (Z.ltb_spec (n - 45) 7); try lia.
      simpl. rewrite andb_false_r, andb_true_r. reflexivity.
    + destruct (Z.ltb_spec (n - 45) 7); try lia.
      rewrite andb_false_r; simpl.
      rewrite (testbit_small bc 7 (n - 45)) by lia.
      rewrite !andb_true_r, orb_false_r. reflexivity.
    + rewrite (Z.testbit_neg_r bc) by lia.
      destruct (Z.leb_spec 0 (n - 45)); try lia. simpl.
      rewrite !andb_true_r, orb_false_r. reflexivity.
    + lia.
  - rewrite (U64_high h n Hh) by lia.
    destruct (Z.leb_spec 45 n), (Z.ltb_spec n 52);
      simpl; try lia; rewrite ?andb_false_r; reflexivity.
Qed.

Lemma set_base_cell_U64 (h bc : Z) : U64 h -> U64 (H3_SET_BASE_CELL h bc).
Proof.
  intros Hh. unfold H3_SET_BASE_CELL.
  apply lor_U64; [apply land_U64_l; exact Hh | apply wrap64_U64].
Qed.

Lemma get_set_base_cell (h bc : Z) :
  0 <= bc < 128 -> U64 h -> H3_GET_BASE_CELL (H3_SET_BASE_CELL h bc) = bc.
Proof.
  intros Hbc Hh. apply Z.bits_inj'. intros n Hn.
  rewrite get_base_cell_bits, set_base_cell_bits by side.
  destruct (Z.ltb_spec n 7).
  - destruct (Z.leb_spec 45 (n + 45)), (Z.ltb_spec (n + 45) 52); try lia.
    simpl. rewrite andb_true_r. f_equal. lia.
  - rewrite andb_false_r. symmetry. apply (testbit_small bc 7); lia.
Qed.

Lemma set_base_cell_header (h bc : Z) :
  0 <= bc < 128 -> U64 h -> Z.shiftr (H3_SET_BASE_CELL h bc) 52 = Z.shiftr h 52.
Proof.
  intros Hbc Hh. apply Z.bits_inj'. intros n Hn.
  rewrite !Z.shiftr_spec, set_base_cell_bits by side.
  destruct (Z.leb_spec 45 (n + 52)), (Z.ltb_spec (n + 52) 52); simpl;
    try reflexivity. lia.
Qed.

Lemma set_base_cell_digit (h bc r : Z) :
  0 <= bc < 128 -> U64 h -> 1 <= r <= 15 ->
  H3_GET_INDEX_DIGIT (H3_SET_BASE_CELL h bc) r = H3_GET_INDEX_DIGIT h r.
Proof.
  intros Hbc Hh Hr. destruct (digitOffset_range r Hr) as [Ho Hor].
  apply Z.bits_inj'. intros n Hn.
  rewrite !get_digit_bits, set_base_cell_bits by side.
  destruct (Z.ltb_spec n 3); [|rewrite !andb_false_r; reflexivity].
  destruct (Z.leb_spec 45 (n + digitOffset r)),
           (Z.ltb_spec (n + digitOffset r) 52); simpl; try reflexivity. lia.
Qed.

(** Two indices with the same bits from the base cell up and the same fifteen
    digits are equal. *)
Lemma index_ext (a b : Z) :
  U64 a -> U64 b -> Z.shiftr a 45 = Z.shiftr b 45 ->
  (forall r, 1 <= r <= 15 -> H3_GET_INDEX_DIGIT a r = H3_GET_INDEX_DIGIT b r) ->
  a = b.
Proof.
  intros Ha Hb Hhd Hdig. apply Z.bits_inj'. intros n Hn.
  destruct (Z.lt_ge_cases n 45) as [Hlt|Hge].
  - pose (r := 15 - n / 3). pose (k := n mod 3).
    assert (Hr : 1 <= r <= 15) by (subst r; Z.div_mod_to_equations; lia).
    assert (Hk : 0 <= k < 3) by (subst k; Z.div_mod_to_equations; lia).
    assert (Hnk : n = k + digitOffset r).
    { destruct (digitOffset_range r Hr) as [_ ->]. subst r k.
      Z.div_mod_to_equations. lia. }
    specialize (Hdig r Hr).
    apply (f_equal (fun x => Z.testbit x k)) in Hdig.
    rewrite !get_digit_bits in Hdig by lia.
    destruct (Z.ltb_spec k 3); [|lia].
    rewrite !andb_true_r in Hdig. rewrite Hnk. exact Hdig.
  - replace n with (n - 45 + 45) by lia.
    rewrite <- !(Z.shiftr_spec _ 45) by lia. rewrite Hhd. reflexivity.
Qed.

(** ** The levels of an index *)

Lemma elem_of_levels (res r : Z) : r ∈ levels res <-> 1 <= r <= res.
Proof.
  unfold levels. rewrite list_elem_of_fmap. split.
  - intros (k & -> & Hk). apply elem_of_seq in Hk. lia.
  - intros Hr. exists (Z.to_nat r). split; [lia|]. apply elem_of_seq. lia.
Qed.

Lemma NoDup_levels (res : Z) : NoDup (levels res).
Proof.
  unfold levels. apply NoDup_fmap_2; [|apply NoDup_seq].
  intros x y Hxy. lia.
Qed.

Lemma levels_succ (n : nat) :
  levels (Z.of_nat (S n)) = levels (Z.of_nat n) ++ [Z.of_nat n + 1].
Proof.
  unfold levels. rewrite !Nat2Z.id, seq_S, map_app. simpl.
  repeat f_equal. lia.
Qed.

(** ** Whole-index rotations *)

Lemma rotate60ccw_digitMap : digitMap _rotate60ccw.
Proof.
  intros d Hd.
  assert (Hc : d = 0 \/ d = 1 \/ d = 2 \/ d = 3 \/ d = 4 \/ d = 5 \/ d = 6 \/ d = 7) by lia.
  destruct Hc as [->|[->|[->|[->|[->|[->|[->| ->]]]]]]]; simpl; lia.
Qed.

Lemma rotate60cw_digitMap : digitMap _rotate60cw.
Proof.
  intros d Hd.
  assert (Hc : d = 0 \/ d = 1 \/ d = 2 \/ d = 3 \/ d = 4 \/ d = 5 \/ d = 6 \/ d = 7) by lia.
  destruct Hc as [->|[->|[->|[->|[->|[->|[->| ->]]]]]]]; simpl; lia.
Qed.

Lemma rotate60ccw_six (d : Z) :
  0 <= d < 8 -> Nat.iter 6 _rotate60ccw d = d.
Proof.
  intros Hd.
  assert (Hc : d = 0 \/ d = 1 \/ d = 2 \/ d = 3 \/ d = 4 \/ d = 5 \/ d = 6 \/ d = 7) by lia.
  destruct Hc as [->|[->|[->|[->|[->|[->|[->| ->]]]]]]]; reflexivity.
Qed.

Lemma iter_digitMap (rot : Direction -> Direction) (k : nat) :
  digitMap rot -> digitMap (Nat.iter k rot).
Proof.
  intros Hrot. induction k as [|k IH]; intros d Hd; simpl; [exact Hd|].
  apply Hrot, IH, Hd.
Qed.

(** The loop that rewrites the digits of the levels [rs] one after the other:
    the index stays in 64 bits, keeps its bits from the base cell up, and has
    its digits at [rs] mapped through [rot], the others untouched. *)
Lemma rotate_fold_spec (rot : Direction -> Direction) (rs : list Z) :
  digitMap rot -> NoDup rs -> Forall (fun r => 1 <= r <= 15) rs ->
  forall h, U64 h ->
    U64 (fold_left (rotateDigitAt rot) rs h) /\
    Z.shiftr (fold_left (rotateDigitAt rot) rs h) 45 = Z.shiftr h 45 /\
    forall r, 1 <= r <= 15 ->
      H3_GET_INDEX_DIGIT (fold_left (rotateDigitAt rot) rs h) r =
        if decide (r ∈ rs) then rot (H3_GET_INDEX_DIGIT h r)
        else H3_GET_INDEX_DIGIT h r.
Proof.
  intros Hrot. induction rs as [|r0 rs IH]; intros Hnd Hall h Hh.
  - simpl. split; [exact Hh | split; [reflexivity|]]. intros r Hr.
    destruct (decide (r ∈ [])) as [Hin|_]; [inversion Hin | reflexivity].
  - apply NoDup_cons in Hnd as [Hnotin Hnd].
    apply Forall_cons in Hall as [Hr0 Hall].
    pose proof (get_digit_range h r0) as Hd0.
    pose proof (Hrot _ Hd0) as Hrd0.
    assert (Hh1 : U64 (rotateDigitAt rot h r0)) by (apply set_digit_U64; assumption).
    destruct (IH Hnd Hall _ Hh1) as (HU & Hhd & Hdig).
    simpl. split; [exact HU | split].
    + rewrite Hhd. apply set_digit_header; assumption.
    + intros r Hr. rewrite (Hdig r Hr).
      destruct (decide (r = r0)) as [->|Hne].
      * destruct (decide (r0 ∈ rs)) as [Hin|_]; [contradiction|].
        destruct (decide (r0 ∈ r0 :: rs)) as [_|Hn]; [|exfalso; apply Hn; left].
        apply get_set_digit_same; assumption.
      * unfold rotateDigitAt.
        rewrite (get_set_digit_other h r0 r) by (assumption || (intros ->; congruence)).
        destruct (decide (r ∈ rs)) as [Hin|Hnin];
          destruct (decide (r ∈ r0 :: rs)) as [Hin'|Hnin']; try reflexivity.
        -- exfalso. apply Hnin'. right. exact Hin.
        -- exfalso. apply elem_of_cons in Hin' as [?|?]; contradiction.
Qed.

Lemma Forall_levels (res : Z) : res <= 15 -> Forall (fun r => 1 <= r <= 15) (levels res).
Proof.
  intros Hres. apply Forall_forall. intros r Hr.
  apply elem_of_levels in Hr. lia.
Qed.

(** [_h3Rotate60ccw], [_h3Rotate60cw] and their iterates: the digits of the
    levels [1 .. res] go through the digit rotation, nothing else changes. *)
Lemma rotate_whole_spec (rot : Direction -> Direction) (h : Z) :
  digitMap rot -> U64 h ->
  let h' := fold_left (rotateDigitAt rot) (levels (H3_GET_RESOLUTION h)) h in
  U64 h' /\ Z.shiftr h' 45 = Z.shiftr h 45 /\
  forall r, 1 <= r <= 15 ->
    H3_GET_INDEX_DIGIT h' r =
      if r <=? H3_GET_RESOLUTION h then rot (H3_GET_INDEX_DIGIT h r)
      else H3_GET_INDEX_DIGIT h r.
Proof.
  intros Hrot Hh h'. pose proof (get_resolution_range h) as Hres.
  destruct (rotate_fold_spec rot (levels (H3_GET_RESOLUTION h)) Hrot
              (NoDup_levels _) (Forall_levels _ (proj2 Hres)) h Hh) as (HU & Hhd & Hdig).
  split; [exact HU | split; [exact Hhd|]].
  intros r Hr. subst h'. rewrite (Hdig r Hr).
  destruct (decide (r ∈ levels (H3_GET_RESOLUTION h))) as [Hin|Hnin];
    destruct (Z.leb_spec r (H3_GET_RESOLUTION h)); try reflexivity.
  - apply elem_of_levels in Hin. lia.
  - exfalso. apply Hnin, elem_of_levels. lia.
Qed.

Lemma rotate_iter_spec (rot : Direction -> Direction) (k : nat) (h : Z) :
  digitMap rot -> U64 h ->
  let whole := fun h => fold_left (rotateDigitAt rot) (levels (H3_GET_RESOLUTION h)) h in
  U64 (Nat.iter k whole h) /\
  Z.shiftr (Nat.iter k whole h) 45 = Z.shiftr h 45 /\
  forall r, 1 <= r <= 15 ->
    H3_GET_INDEX_DIGIT (Nat.iter k whole h) r =
      if r <=? H3_GET_RESOLUTION h then Nat.iter k rot (H3_GET_INDEX_DIGIT h r)
      else H3_GET_INDEX_DIGIT h r.
Proof.
  intros Hrot Hh whole. induction k as [|k (HU & Hhd & Hdig)].
  - simpl. split; [exact Hh | split; [reflexivity|]]. intros r Hr.
    destruct (r <=? H3_GET_RESOLUTION h); reflexivity.
  - destruct (rotate_whole_spec rot (Nat.iter k whole h) Hrot HU) as (HU' & Hhd' & Hdig').
    simpl. split; [exact HU' | split; [exact (eq_trans Hhd' Hhd)|]].
    intros r Hr. etransitivity; [exact (Hdig' r Hr)|]. rewrite (Hdig r Hr).
    rewrite (resolution_of_header _ h) by (apply header52_of_header45; exact Hhd).
    destruct (r <=? H3_GET_RESOLUTION h); reflexivity.
Qed.

(** C6. For every 64-bit index (so for every valid cell), six successive
    applications of [_h3Rotate60ccw] give the index back. *)
Theorem h3Rotate60ccw_six_times (h : H3Index) :
  U64 h ->
  _h3Rotate60ccw (_h3Rotate60ccw (_h3Rotate60ccw
    (_h3Rotate60ccw (_h3Rotate60ccw (_h3Rotate60ccw h))))) = h.
Proof.
  intros Hh.
  destruct (rotate_iter_spec _rotate60ccw 6 h rotate60ccw_digitMap Hh)
    as (HU & Hhd & Hdig).
  change (Nat.iter 6 _h3Rotate60ccw h = h).
  apply index_ext; [exact HU | exact Hh | exact Hhd |].
  intros r Hr. unfold _h3Rotate60ccw. rewrite (Hdig r Hr).
  destruct (r <=? H3_GET_RESOLUTION h); [|reflexivity].
  apply rotate60ccw_six, get_digit_range.
Qed.

(** C6, at the resolution-9 cell of benchmarkDirectedEdge.c. *)
Lemma h3Rotate60ccw_six_times_witness :
  U64 0x89283080ddbffff /\
  _h3Rotate60ccw (_h3Rotate60ccw (_h3Rotate60ccw
    (_h3Rotate60ccw (_h3Rotate60ccw (_h3Rotate60ccw 0x89283080ddbffff))))) =
  0x89283080ddbffff.
Proof.
  split; [unfold U64; lia|].
  apply (h3Rotate60ccw_six_times 0x89283080ddbffff). unfold U64. lia.
Defined.

(** ** Zeroing a range of digits *)

Lemma not64_zero_bits (n : Z) : Z.testbit (not64 0) n = (0 <=? n) && (n <? 64).
Proof.
  destruct (Z.leb_spec 0 n).
  - rewrite not64_bits, Z.testbit_0_l by lia. reflexivity.
  - apply Z.testbit_neg_r. lia.
Qed.

(** The bits of the mask [m] that [_zeroIndexDigits] builds: within 64 bits,
    everything but the window of the digits [start .. end_]. *)
Lemma zero_mask_bits (start end_ n : Z) :
  1 <= start <= end_ -> end_ <= 15 -> 0 <= n ->
  Z.testbit
    (not64 (shl64 (not64 (shl64 (not64 0) (H3_PER_DIGIT_OFFSET * (end_ - start + 1))))
                  (H3_PER_DIGIT_OFFSET * (MAX_H3_RES - end_)))) n =
  negb ((digitOffset end_ <=? n) && (n <? digitOffset start + 3)) && (n <? 64).
Proof.
  intros Hse He Hn. unfold digitOffset, H3_PER_DIGIT_OFFSET, MAX_H3_RES.
  rewrite not64_bits, shl64_bits by lia.
  destruct (Z.ltb_spec n 64) as [Hlt|Hge]; [|rewrite !andb_false_r; reflexivity].
  rewrite !andb_true_r. f_equal.
  destruct (Z.leb_spec ((15 - end_) * 3) n) as [Hlo|Hlo].
  - rewrite not64_bits, shl64_bits, not64_zero_bits by lia.
    destruct (Z.ltb_spec (n - 3 * (15 - end_)) 64); [|lia].
    rewrite !andb_true_r.
    destruct (Z.leb_spec 0 (n - 3 * (15 - end_) - 3 * (end_ - start + 1))),
             (Z.ltb_spec (n - 3 * (15 - end_) - 3 * (end_ - start + 1)) 64),
             (Z.ltb_spec n ((15 - start) * 3 + 3)); simpl; try reflexivity; lia.
  - rewrite Z.testbit_neg_r by lia. reflexivity.
Qed.

Lemma zeroIndexDigits_bits (h start end_ n : Z) :
  1 <= start <= end_ -> end_ <= 15 -> U64 h -> 0 <= n ->
  Z.testbit (_zeroIndexDigits h start end_) n =
    Z.testbit h n && negb ((digitOffset end_ <=? n) && (n <? digitOffset start + 3)).
Proof.
  intros Hse He Hh Hn. unfold _zeroIndexDigits.
  destruct (Z.gtb_spec start end_) as [Hgt|_]; [lia|].
  cbv zeta. rewrite Z.land_spec, zero_mask_bits by lia.
  destruct (Z.ltb_spec n 64); [rewrite andb_true_r; reflexivity|].
  rewrite (U64_high h n Hh) by lia. reflexivity.
Qed.

(** C7. [_zeroIndexDigits h start end_] is [h] when [start > end_]; when
    [1 <= start <= end_ <= 15] its digits at the levels [start .. end_] are
    zero and every bit outside those digits is the bit of [h], so the mode,
    the resolution, the base cell and the other digits are those of [h]. *)
Theorem zeroIndexDigits_frame (h : H3Index) (start end_ : Z) :
  U64 h ->
  (start > end_ -> _zeroIndexDigits h start end_ = h) /\
  (1 <= start <= end_ -> end_ <= 15 ->
   (forall r, start <= r <= end_ ->
      H3_GET_INDEX_DIGIT (_zeroIndexDigits h start end_) r = CENTER_DIGIT) /\
   (forall n, 0 <= n -> ~ (digitOffset end_ <= n < digitOffset start + 3) ->
      Z.testbit (_zeroIndexDigits h start end_) n = Z.testbit h n) /\
   (forall r, 1 <= r <= 15 -> ~ (start <= r <= end_) ->
      H3_GET_INDEX_DIGIT (_zeroIndexDigits h start end_) r = H3_GET_INDEX_DIGIT h r) /\
   H3_GET_MODE (_zeroIndexDigits h start end_) = H3_GET_MODE h /\
   H3_GET_RESOLUTION (_zeroIndexDigits h start end_) = H3_GET_RESOLUTION h /\
   H3_GET_BASE_CELL (_zeroIndexDigits h start end_) = H3_GET_BASE_CELL h).
Proof.
  intros Hh. split.
  - intros Hgt. unfold _zeroIndexDigits.
    destruct (Z.gtb_spec start end_); [reflexivity | lia].
  - intros Hse He.
    assert (Hout : forall n, 0 <= n -> ~ (digitOffset end_ <= n < digitOffset start + 3) ->
              Z.testbit (_zeroIndexDigits h start end_) n = Z.testbit h n).
    { intros n Hn Hw. rewrite zeroIndexDigits_bits by side.
      destruct (Z.leb_spec (digitOffset end_) n), (Z.ltb_spec n (digitOffset start + 3));
        simpl; try apply andb_true_r. lia. }
    assert (Hhd : Z.shiftr (_zeroIndexDigits h start end_) 45 = Z.shiftr h 45).
    { apply Z.bits_inj'. intros n Hn. rewrite !Z.shiftr_spec by lia.
      apply Hout; [lia|].
      destruct (digitOffset_range start) as [_ ->]; [lia|]. lia. }
    split; [|split; [exact Hout | split; [|split; [|split]]]].
    + intros r Hr.
      destruct (digitOffset_range r) as [Ho Hor]; [lia|].
      destruct (digitOffset_range start) as [_ Hos]; [lia|].
      destruct (digitOffset_range end_) as [_ Hoe]; [lia|].
      apply Z.bits_inj'. intros n Hn.
      rewrite get_digit_bits, zeroIndexDigits_bits, Z.testbit_0_l by side.
      destruct (Z.ltb_spec n 3); [|apply andb_false_r].
      destruct (Z.leb_spec (digitOffset end_) (n + digitOffset r)),
               (Z.ltb_spec (n + digitOffset r) (digitOffset start + 3));
        simpl; try lia; rewrite ?andb_false_r; reflexivity.
    + intros r Hr Hnot.
      destruct (digitOffset_range r Hr) as [Ho Hor].
      destruct (digitOffset_range start) as [_ Hos]; [lia|].
      destruct (digitOffset_range end_) as [_ Hoe]; [lia|].
      apply Z.bits_inj'. intros n Hn. rewrite !get_digit_bits by side.
      destruct (Z.ltb_spec n 3); [|rewrite !andb_false_r; reflexivity].
      rewrite Hout by lia. reflexivity.
    + apply mode_of_header, header52_of_header45, Hhd.
    + apply resolution_of_header, header52_of_header45, Hhd.
    + apply base_cell_of_header, Hhd.
Qed.

(** C7, at the resolution-9 cell of benchmarkDirectedEdge.c, zeroing the
    levels 4 .. 9. *)
Lemma zeroIndexDigits_frame_witness :
  H3_GET_INDEX_DIGIT (_zeroIndexDigits 0x89283080ddbffff 4 9) 6 = CENTER_DIGIT /\
  H3_GET_INDEX_DIGIT (_zeroIndexDigits 0x89283080ddbffff 4 9) 3 =
    H3_GET_INDEX_DIGIT 0x89283080ddbffff 3 /\
  H3_GET_RESOLUTION (_zeroIndexDigits 0x89283080ddbffff 4 9) = 9.
Proof.
  assert (HU : U64 0x89283080ddbffff) by (unfold U64; lia).
  destruct (zeroIndexDigits_frame 0x89283080ddbffff 4 9 HU) as [_ Hz].
  destruct Hz as (Hzero & _ & Hkeep & _ & Hres & _); [lia | lia |].
  split; [apply Hzero; lia | split; [apply Hkeep; lia | rewrite Hres; reflexivity]].
Defined.

(** ** Counting a linked chain *)

Lemma countChain_spec {A : Type} (next : A -> Z) (heap : gmap Z A)
    (p : Z) (nodes : list A) :
  chainFrom next heap p nodes ->
  forall (fuel : nat) (count : Z),
    count + Z.of_nat (length nodes) <= INT_MAX -> (length nodes <= fuel)%nat ->
    countChain next heap fuel p count = Some (count + Z.of_nat (length nodes)).
Proof.
  induction 1 as [|p node rest Hp Hnode _ IH]; intros fuel count Hmax Hfuel.
  - destruct fuel; simpl; f_equal; lia.
  - simpl in Hmax, Hfuel. destruct fuel as [|fuel]; [lia|]. simpl.
    destruct (Z.eqb_spec p 0) as [|_]; [contradiction|].
    rewrite Hnode.
    destruct (Z.geb_spec count INT_MAX) as [Hge|_]; [lia|].
    rewrite IH by lia. f_equal. lia.
Qed.

(** The chain that starts at a pointer is unique. *)
Lemma chainFrom_unique {A : Type} (next : A -> Z) (heap : gmap Z A)
    (p : Z) (nodes nodes' : list A) :
  chainFrom next heap p nodes -> chainFrom next heap p nodes' -> nodes = nodes'.
Proof.
  intros H. revert nodes'.
  induction H as [|p node rest Hp Hnode _ IH]; intros nodes' H'.
  - inversion H'; [reflexivity | contradiction].
  - inversion H' as [|p' node' rest' Hp' Hnode' Hrest']; subst; [contradiction|].
    rewrite Hnode in Hnode'. injection Hnode' as <-.
    f_equal. apply IH, Hrest'.
Qed.

(** C9. [countLinkedLoops] returns the number of loop nodes on the chain
    that starts at [polygon->first]: whenever that chain ends in [NULL] after
    the nodes [nodes] (fewer than [INT_MAX], so that [count] does not
    overflow), the count is their number; in particular it is 3 for a chain of
    three nodes and 0 when [polygon->first] is [NULL]. *)
Theorem countLinkedLoops_counts (heap : gmap Z LinkedGeoLoop)
    (polygon : LinkedGeoPolygon) (nodes : list LinkedGeoLoop) (fuel : nat) :
  chainFrom loop_next heap (polygon_first polygon) nodes ->
  Z.of_nat (length nodes) <= INT_MAX -> (length nodes <= fuel)%nat ->
  countLinkedLoops heap fuel polygon = Some (Z.of_nat (length nodes)) /\
  (length nodes = 3%nat -> countLinkedLoops heap fuel polygon = Some 3) /\
  (polygon_first polygon = NULL -> countLinkedLoops heap fuel polygon = Some 0).
Proof.
  intros Hchain Hmax Hfuel.
  assert (Hcount : countLinkedLoops heap fuel polygon = Some (Z.of_nat (length nodes))).
  { unfold countLinkedLoops.
    rewrite (countChain_spec _ _ _ _ Hchain fuel 0) by lia. f_equal. }
  split; [exact Hcount | split].
  - intros Hlen. rewrite Hcount, Hlen. reflexivity.
  - intros Hnull. rewrite Hnull in Hchain.
    inversion Hchain as [Hn|]; [|contradiction]. subst nodes. exact Hcount.
Qed.

Lemma threeLoopHeap_chain :
  chainFrom loop_next threeLoopHeap (polygon_first threeLoopPolygon)
    [ {| loop_first := NULL; loop_last := NULL; loop_next := 32 |};
      {| loop_first := NULL; loop_last := NULL; loop_next := 48 |};
      {| loop_first := NULL; loop_last := NULL; loop_next := NULL |} ].
Proof.
  unfold threeLoopHeap.
  apply chain_node; [discriminate | reflexivity |].
  apply chain_node; [discriminate | reflexivity |].
  apply chain_node; [discriminate | reflexivity |].
  apply chain_null.
Qed.

(** C9, on the three-loop polygon and on a polygon with no loop. *)
Lemma countLinkedLoops_counts_witness :
  countLinkedLoops threeLoopHeap 3 threeLoopPolygon = Some 3 /\
  countLinkedLoops threeLoopHeap 0 emptyPolygon = Some 0.
Proof.
  split.
  - refine (proj1 (proj2 (countLinkedLoops_counts threeLoopHeap threeLoopPolygon
                            _ 3 threeLoopHeap_chain _ _)) _);
      [unfold INT_MAX; simpl; lia | simpl; lia | reflexivity].
  - refine (proj2 (proj2 (countLinkedLoops_counts threeLoopHeap emptyPolygon
                            [] 0 (chain_null _ _) _ _)) _);
      [unfold INT_MAX; simpl; lia | simpl; lia | reflexivity].
Defined.

(** ** The neighbour walk *)

(** From here on the field accessors are reasoned about through the lemmas
    above, not by unfolding. *)
#[global] Arguments wrap64 : simpl never.
#[global] Arguments not64 : simpl never.
#[global] Arguments shl64 : simpl never.
#[global] Arguments H3_GET_MODE : simpl never.
#[global] Arguments H3_GET_RESOLUTION : simpl never.
#[global] Arguments H3_GET_BASE_CELL : simpl never.
#[global] Arguments H3_SET_BASE_CELL : simpl never.
#[global] Arguments H3_GET_INDEX_DIGIT : simpl never.
#[global] Arguments H3_SET_INDEX_DIGIT : simpl never.
#[global] Arguments _h3LeadingNonZeroDigit : simpl never.
#[global] Arguments _h3Rotate60ccw : simpl never.
#[global] Arguments _h3Rotate60cw : simpl never.
#[global] Arguments _h3RotatePent60ccw : simpl never.
#[global] Arguments _h3RotatePent60cw : simpl never.
#[global] Arguments rotatePentStep : simpl never.
#[global] Arguments tableAt : simpl never.
#[global] Arguments tablePairAt : simpl never.
#[global] Arguments levels : simpl never.

Lemma digit_cases (d : Z) :
  0 <= d < 7 -> d = 0 \/ d = 1 \/ d = 2 \/ d = 3 \/ d = 4 \/ d = 5 \/ d = 6.
Proof. lia. Qed.

Ltac each_digit H :=
  apply digit_cases in H;
  destruct H as [->|[->|[->|[->|[->|[->| ->]]]]]].

Lemma tableAt_range (pair : TablePair) (d dir : Z) :
  0 <= d < 7 -> 0 <= dir < 7 ->
  0 <= tableAt (NEW_DIGIT pair) d dir < 7 /\
  0 <= tableAt (NEW_ADJUSTMENT pair) d dir < 7.
Proof.
  intros Hd Hdir. each_digit Hd; each_digit Hdir; destruct pair;
    vm_compute; repeat split; discriminate || reflexivity.
Qed.

Lemma rotate60ccw_dir (d : Z) : 0 <= d < 7 -> 0 <= _rotate60ccw d < 7.
Proof. intros Hd. each_digit Hd; simpl; lia. Qed.

Lemma repeat_rotate60ccw_dir (k : Z) (d : Z) :
  0 <= d < 7 -> 0 <= repeatZ k _rotate60ccw d < 7.
Proof.
  intros Hd. unfold repeatZ. induction (Z.to_nat k) as [|n IH]; simpl;
    [exact Hd | apply rotate60ccw_dir, IH].
Qed.

Lemma rotate60ccw_U64 (h : Z) :
  U64 h -> U64 (_h3Rotate60ccw h) /\ Z.shiftr (_h3Rotate60ccw h) 45 = Z.shiftr h 45.
Proof.
  intros Hh. destruct (rotate_whole_spec _ h rotate60ccw_digitMap Hh) as (HU & Hhd & _).
  split; assumption.
Qed.

Lemma rotate60cw_U64 (h : Z) :
  U64 h -> U64 (_h3Rotate60cw h) /\ Z.shiftr (_h3Rotate60cw h) 45 = Z.shiftr h 45.
Proof.
  intros Hh. destruct (rotate_whole_spec _ h rotate60cw_digitMap Hh) as (HU & Hhd & _).
  split; assumption.
Qed.

(** One step of a pentagon rotation keeps the index in 64 bits and its bits
    from the base cell up. *)
Lemma rotatePentStep_frame (rot : Direction -> Direction) (whole : Z -> Z)
    (h : Z) (b : bool) (r : Z) :
  digitMap rot ->
  (forall x, U64 x -> U64 (whole x) /\ Z.shiftr (whole x) 45 = Z.shiftr x 45) ->
  1 <= r <= 15 -> U64 h ->
  U64 (fst (rotatePentStep rot whole (h, b) r)) /\
  Z.shiftr (fst (rotatePentStep rot whole (h, b) r)) 45 = Z.shiftr h 45.
Proof.
  intros Hrot Hwhole Hr Hh. unfold rotatePentStep.
  pose proof (Hrot _ (get_digit_range h r)) as Hd.
  pose proof (set_digit_U64 h r _ Hr Hd Hh) as HU.
  pose proof (set_digit_header h r _ Hr Hd Hh) as Hhd.
  destruct (negb b && negb (_ =? 0)); [|split; assumption].
  destruct (_ =? 1); [|split; assumption].
  destruct (Hwhole _ HU) as [HU' Hhd']. simpl. split; [exact HU' | congruence].
Qed.

Lemma rotatePent_fold_frame (rot : Direction -> Direction) (whole : Z -> Z)
    (rs : list Z) :
  digitMap rot ->
  (forall x, U64 x -> U64 (whole x) /\ Z.shiftr (whole x) 45 = Z.shiftr x 45) ->
  Forall (fun r => 1 <= r <= 15) rs ->
  forall h b, U64 h ->
    U64 (fst (fold_left (rotatePentStep rot whole) rs (h, b))) /\
    Z.shiftr (fst (fold_left (rotatePentStep rot whole) rs (h, b))) 45 = Z.shiftr h 45.
Proof.
  intros Hrot Hwhole. induction rs as [|r rs IH]; intros Hall h b Hh.
  - simpl. split; [exact Hh | reflexivity].
  - apply Forall_cons in Hall as [Hr Hall]. simpl.
    destruct (rotatePentStep_frame rot whole h b r Hrot Hwhole Hr Hh) as [HU Hhd].
    destruct (rotatePentStep rot whole (h, b) r) as [h1 b1] eqn:E. simpl in HU, Hhd.
    destruct (IH Hall h1 b1 HU) as [HU' Hhd']. split; [exact HU' | congruence].
Qed.

Lemma rotatePent60ccw_U64 (h : Z) :
  U64 h ->
  U64 (_h3RotatePent60ccw h) /\ Z.shiftr (_h3RotatePent60ccw h) 45 = Z.shiftr h 45.
Proof.
  intros Hh. unfold _h3RotatePent60ccw.
  apply rotatePent_fold_frame;
    [exact rotate60ccw_digitMap | exact rotate60ccw_U64 | | exact Hh].
  apply Forall_levels. pose proof (get_resolution_range h). lia.
Qed.

Lemma repeatZ_frame (f : Z -> Z) (k : Z) (h : Z) :
  (forall x, U64 x -> U64 (f x) /\ Z.shiftr (f x) 45 = Z.shiftr x 45) ->
  U64 h -> U64 (repeatZ k f h) /\ Z.shiftr (repeatZ k f h) 45 = Z.shiftr h 45.
Proof.
  intros Hf Hh. unfold repeatZ. induction (Z.to_nat k) as [|n [HU Hhd]]; simpl.
  - split; [exact Hh | reflexivity].
  - destruct (Hf _ HU) as [HU' Hhd']. split; [exact HU' | congruence].
Qed.

Lemma neighborWalk_O (T : BaseCells) (obc : Z) (current dir rot : Z) :
  neighborWalk T obc O current dir rot =
    if H3_GET_BASE_CELL (H3_SET_BASE_CELL current (baseCellNeighbors T obc dir))
         =? INVALID_BASE_CELL
    then WalkDone
           (_h3Rotate60ccw
              (H3_SET_BASE_CELL
                 (H3_SET_BASE_CELL current (baseCellNeighbors T obc dir))
                 (baseCellNeighbors T obc IK_AXES_DIGIT)))
           (baseCellNeighbor60CCWRots T obc IK_AXES_DIGIT) (rot + 1)
    else WalkDone (H3_SET_BASE_CELL current (baseCellNeighbors T obc dir))
                  (baseCellNeighbor60CCWRots T obc dir) rot.
Proof. reflexivity. Qed.

(** One iteration of the walk, with the tables it reads named as a pair. *)
Lemma neighborWalk_S (T : BaseCells) (obc : Z) (r : nat) (current dir rot : Z) :
  neighborWalk T obc (S r) current dir rot =
    let oldDigit := H3_GET_INDEX_DIGIT current (Z.of_nat r + 1) in
    if oldDigit =? INVALID_DIGIT then WalkErr E_CELL_INVALID
    else
      let pair := tablePairAt (Z.of_nat r + 1) in
      let current' :=
        H3_SET_INDEX_DIGIT current (Z.of_nat r + 1) (tableAt (NEW_DIGIT pair) oldDigit dir) in
      let nextDir := tableAt (NEW_ADJUSTMENT pair) oldDigit dir in
      if negb (nextDir =? CENTER_DIGIT) then neighborWalk T obc r current' nextDir rot
      else WalkDone current' 0 rot.
Proof.
  cbn [neighborWalk]. cbv zeta. unfold tablePairAt.
  destruct (_ =? 7); [reflexivity|].
  destruct (isResolutionClassIII (Z.of_nat r + 1) =? 0); reflexivity.
Qed.

(** What the walk leaves: an index in 64 bits with the bits above the base
    cell untouched, and [*rotations] bumped at most once. *)
Lemma neighborWalk_header (T : BaseCells) (obc : Z) :
  neighborsFitField T -> 0 <= obc < NUM_BASE_CELLS ->
  forall (n : nat) (current dir rot c' nr rot' : Z),
    (n <= 15)%nat -> U64 current -> 0 <= dir < 7 ->
    neighborWalk T obc n current dir rot = WalkDone c' nr rot' ->
    U64 c' /\ Z.shiftr c' 52 = Z.shiftr current 52 /\ rot <= rot' <= rot + 1.
Proof.
  intros WF Hobc. induction n as [|r IH]; intros current dir rot c' nr rot' Hn Hcur Hdir Hw.
  - rewrite neighborWalk_O in Hw.
    pose proof (WF obc dir Hobc Hdir) as Hnb.
    assert (Hnb5 : 0 <= baseCellNeighbors T obc 5 <= 127) by (apply WF; lia).
    pose proof (set_base_cell_U64 current (baseCellNeighbors T obc dir) Hcur) as HU1.
    rewrite get_set_base_cell in Hw by side.
    destruct (Z.eqb_spec (baseCellNeighbors T obc dir) 127) as [Heq|Hne];
      injection Hw as <- <- <-.
    + pose proof (set_base_cell_U64 _ (baseCellNeighbors T obc 5) HU1) as HU2.
      destruct (rotate60ccw_U64 _ HU2) as [HU3 Hhd3].
      split; [exact HU3|]. split; [|lia].
      rewrite (header52_of_header45 _ _ Hhd3).
      rewrite !set_base_cell_header by side. reflexivity.
    + split; [exact HU1|]. split; [apply set_base_cell_header; side | lia].
  - rewrite neighborWalk_S in Hw. cbv zeta in Hw.
    pose proof (get_digit_range current (Z.of_nat r + 1)) as Hd.
    destruct (Z.eqb_spec (H3_GET_INDEX_DIGIT current (Z.of_nat r + 1)) 7) as [|Hne7];
      [discriminate|].
    destruct (tableAt_range (tablePairAt (Z.of_nat r + 1))
                (H3_GET_INDEX_DIGIT current (Z.of_nat r + 1)) dir) as [Hnd Hadj]; [lia | lia |].
    assert (Hlvl : 1 <= Z.of_nat r + 1 <= 15) by lia.
    assert (Hnd8 : 0 <= tableAt (NEW_DIGIT (tablePairAt (Z.of_nat r + 1)))
                          (H3_GET_INDEX_DIGIT current (Z.of_nat r + 1)) dir < 8) by lia.
    pose proof (set_digit_U64 current _ _ Hlvl Hnd8 Hcur) as HU1.
    pose proof (set_digit_header current _ _ Hlvl Hnd8 Hcur) as Hhd1.
    apply header52_of_header45 in Hhd1.
    assert (Hr15 : (r <= 15)%nat) by lia.
    destruct (negb _).
    + destruct (IH _ _ _ _ _ _ Hr15 HU1 Hadj Hw) as (HU & Hhd & Hrot).
      split; [exact HU|]. split; [congruence | exact Hrot].
    + injection Hw as <- <- <-. split; [exact HU1|]. split; [exact Hhd1 | lia].
Qed.

(** The rotation count the walk takes from a well-formed table. *)
Lemma neighborWalk_newRotations (T : BaseCells) (obc : Z) :
  BaseCellsWF T -> 0 <= obc < NUM_BASE_CELLS ->
  forall (n : nat) (current dir rot c' nr rot' : Z),
    (n <= 15)%nat -> U64 current -> 0 <= dir < 7 ->
    neighborWalk T obc n current dir rot = WalkDone c' nr rot' ->
    0 <= nr <= 5.
Proof.
  intros WF Hobc. induction n as [|r IH]; intros current dir rot c' nr rot' Hn Hcur Hdir Hw.
  - rewrite neighborWalk_O in Hw.
    pose proof (wf_neighbor_field T WF obc dir Hobc Hdir) as Hnb.
    rewrite get_set_base_cell in Hw by side.
    destruct (Z.eqb_spec (baseCellNeighbors T obc dir) 127) as [Heq|Hne];
      injection Hw as <- <- <-.
    + apply (wf_rotation_count T WF); [lia | lia |]. apply (wf_ik_neighbor T WF). lia.
    + apply (wf_rotation_count T WF); side.
  - rewrite neighborWalk_S in Hw. cbv zeta in Hw.
    pose proof (get_digit_range current (Z.of_nat r + 1)) as Hd.
    destruct (Z.eqb_spec (H3_GET_INDEX_DIGIT current (Z.of_nat r + 1)) 7) as [|Hne7];
      [discriminate|].
    destruct (tableAt_range (tablePairAt (Z.of_nat r + 1))
                (H3_GET_INDEX_DIGIT current (Z.of_nat r + 1)) dir) as [Hnd Hadj]; [lia | lia |].
    assert (Hlvl : 1 <= Z.of_nat r + 1 <= 15) by lia.
    assert (Hnd8 : 0 <= tableAt (NEW_DIGIT (tablePairAt (Z.of_nat r + 1)))
                          (H3_GET_INDEX_DIGIT current (Z.of_nat r + 1)) dir < 8) by lia.
    pose proof (set_digit_U64 current _ _ Hlvl Hnd8 Hcur) as HU1.
    assert (Hr15 : (r <= 15)%nat) by lia.
    destruct (negb _).
    + apply (IH _ _ _ _ _ _ Hr15 HU1 Hadj Hw).
    + injection Hw as <- <- <-. lia.
Qed.

Lemma neighborWalk_error (T : BaseCells) (obc : Z) (n : nat) (current dir rot : Z) (e : H3Error) :
  neighborWalk T obc n current dir rot = WalkErr e -> e = E_CELL_INVALID.
Proof.
  revert current dir. induction n as [|r IH]; intros current dir Hw.
  - rewrite neighborWalk_O in Hw. destruct (_ =? _); discriminate.
  - rewrite neighborWalk_S in Hw. cbv zeta in Hw.
    destruct (_ =? 7); [congruence|].
    destruct (negb _); [eapply IH, Hw | discriminate].
Qed.

Lemma forceOutOfKSubsequence_frame (T : BaseCells) (obc nbc old current rot : Z)
    (c1 rot1 : Z) (b : bool) :
  U64 current ->
  forceOutOfKSubsequence T obc nbc old current rot = inr (c1, rot1, b) ->
  U64 c1 /\ Z.shiftr c1 45 = Z.shiftr current 45 /\ rot <= rot1 <= rot + 5.
Proof.
  intros Hcur. unfold forceOutOfKSubsequence.
  destruct (rotate60ccw_U64 current Hcur) as [Hccw Hccwh].
  destruct (rotate60cw_U64 current Hcur) as [Hcw Hcwh].
  destruct (_ =? 1).
  - destruct (negb _).
    + destruct (_baseCellIsCwOffset _ _ _); intros [= <- <- <-];
        (split; [assumption | split; [assumption | lia]]).
    + destruct (old =? 0); [discriminate|].
      destruct (old =? 3); [intros [= <- <- <-]; split; [assumption | split; [assumption | lia]]|].
      destruct (old =? 5); [intros [= <- <- <-]; split; [assumption | split; [assumption | lia]]|].
      discriminate.
  - intros [= <- <- <-]. split; [assumption | split; [reflexivity | lia]].
Qed.

Lemma forceOutOfKSubsequence_error (T : BaseCells) (obc nbc old current rot : Z)
    (e : H3Error) :
  forceOutOfKSubsequence T obc nbc old current rot = inl e ->
  e = E_PENTAGON \/ e = E_FAILED.
Proof.
  unfold forceOutOfKSubsequence.
  destruct (_ =? 1); [|discriminate].
  destruct (negb _); [destruct (_baseCellIsCwOffset _ _ _); discriminate|].
  destruct (old =? 0); [intros [= <-]; left; reflexivity|].
  destruct (old =? 3); [discriminate|].
  destruct (old =? 5); [discriminate|].
  intros [= <-]. right. reflexivity.
Qed.

Lemma orientationAdjust_range (T : BaseCells) (obc nbc current rot : Z) (b : bool) :
  rot <= orientationAdjust T obc nbc current rot b <= rot + 1.
Proof.
  unfold orientationAdjust.
  destruct (negb _); [|lia].
  destruct (_isBaseCellPolarPentagon _ _).
  - destruct (_ && _); lia.
  - destruct (_ && _); lia.
Qed.

Lemma rotateIntoBaseCell_frame (T : BaseCells) (obc old current nr rot c2 rot2 : Z) :
  U64 current ->
  rotateIntoBaseCell T obc old current nr rot = inr (c2, rot2) ->
  U64 c2 /\ Z.shiftr c2 45 = Z.shiftr current 45 /\ rot <= rot2 <= rot + 6.
Proof.
  intros Hcur. unfold rotateIntoBaseCell.
  destruct (_isBaseCellPentagon _ _).
  - destruct (forceOutOfKSubsequence _ _ _ _ _ _) as [e|[[c1 rot1] b]] eqn:Hf;
      [discriminate|].
    destruct (forceOutOfKSubsequence_frame _ _ _ _ _ _ _ _ _ Hcur Hf) as (HU1 & Hhd1 & Hr1).
    destruct (repeatZ_frame _h3RotatePent60ccw nr c1 rotatePent60ccw_U64 HU1) as [HU2 Hhd2].
    intros [= <- <-]. split; [exact HU2|]. split; [congruence|].
    pose proof (orientationAdjust_range T obc (H3_GET_BASE_CELL current)
                  (repeatZ nr _h3RotatePent60ccw c1) rot1 b). lia.
  - destruct (repeatZ_frame _h3Rotate60ccw nr current rotate60ccw_U64 Hcur) as [HU2 Hhd2].
    intros [= <- <-]. split; [exact HU2|]. split; [exact Hhd2 | lia].
Qed.

Lemma rotateIntoBaseCell_error (T : BaseCells) (obc old current nr rot : Z)
    (e : H3Error) (rot2 : Z) :
  rotateIntoBaseCell T obc old current nr rot = inl (e, rot2) ->
  e = E_PENTAGON \/ e = E_FAILED.
Proof.
  unfold rotateIntoBaseCell.
  destruct (_isBaseCellPentagon _ _); [|discriminate].
  destruct (forceOutOfKSubsequence _ _ _ _ _ _) as [e'|[[c1 rot1] b]] eqn:Hf;
    [|discriminate].
  intros [= <- <-]. eapply forceOutOfKSubsequence_error, Hf.
Qed.

(** A call that returns [E_SUCCESS] went through the direction guard, the
    base-cell guard, the walk and the rotation into the new base cell; it
    stores the index that came out and the reduced rotation count. *)
Lemma h3NeighborRotations_success (T : BaseCells) (origin dir rotations : Z) :
  nr_err (h3NeighborRotations T origin dir rotations) = E_SUCCESS ->
  exists current newRotations rot1 out rot2,
    0 <= dir < 7 /\ 0 <= H3_GET_BASE_CELL origin < NUM_BASE_CELLS /\
    neighborWalk T (H3_GET_BASE_CELL origin)
           (Z.to_nat (H3_GET_RESOLUTION origin)) origin
           (repeatZ (Z.rem rotations 6) _rotate60ccw dir) (Z.rem rotations 6)
      = WalkDone current newRotations rot1 /\
    rotateIntoBaseCell T (H3_GET_BASE_CELL origin) (_h3LeadingNonZeroDigit origin)
                       current newRotations rot1 = inr (out, rot2) /\
    h3NeighborRotations T origin dir rotations =
      {| nr_err := E_SUCCESS;
         nr_rotations := Z.rem (rot2 + newRotations) 6;
         nr_out := Some out |}.
Proof.
  unfold h3NeighborRotations.
  destruct (Z.ltb_spec dir 0); [discriminate|].
  destruct (Z.geb_spec dir 7); [discriminate|]. cbn [orb].
  destruct (Z.ltb_spec (H3_GET_BASE_CELL origin) 0); [discriminate|].
  destruct (Z.geb_spec (H3_GET_BASE_CELL origin) 122); [discriminate|]. cbn [orb].
  destruct (neighborWalk _ _ _ _ _ _) as [e|current newRotations rot1] eqn:Hw.
  - apply neighborWalk_error in Hw. subst e. discriminate.
  - destruct (rotateIntoBaseCell _ _ _ _ _ _) as [[e rot2]|[out rot2]] eqn:Hr.
    + apply rotateIntoBaseCell_error in Hr. destruct Hr as [-> | ->]; discriminate.
    + intros _. exists current, newRotations, rot1, out, rot2.
      repeat split; try lia; assumption.
Qed.

(** C10. On every successful call of [h3NeighborRotations] the output cell
    has the mode and the resolution of the origin; indeed every bit above the
    base-cell field is unchanged, so only the base cell and the digits may
    differ. *)
Theorem h3NeighborRotations_keeps_mode_and_resolution
    (T : BaseCells) (origin : H3Index) (dir : Direction) (rotations : Z) (out : H3Index) :
  neighborsFitField T -> U64 origin ->
  nr_err (h3NeighborRotations T origin dir rotations) = E_SUCCESS ->
  nr_out (h3NeighborRotations T origin dir rotations) = Some out ->
  H3_GET_MODE out = H3_GET_MODE origin /\
  H3_GET_RESOLUTION out = H3_GET_RESOLUTION origin /\
  Z.shiftr out 52 = Z.shiftr origin 52.
Proof.
  intros WF Horigin Hok Hout.
  destruct (h3NeighborRotations_success T origin dir rotations Hok)
    as (current & newRotations & rot1 & out' & rot2 & Hdir & Hbc & Hw & Hr & Heq).
  rewrite Heq in Hout. injection Hout as ->.
  assert (Hres : (Z.to_nat (H3_GET_RESOLUTION origin) <= 15)%nat)
    by (pose proof (get_resolution_range origin); lia).
  destruct (neighborWalk_header T _ WF Hbc _ _ _ _ _ _ _ Hres Horigin
              (repeat_rotate60ccw_dir _ _ Hdir) Hw) as (HU & Hhd & _).
  destruct (rotateIntoBaseCell_frame _ _ _ _ _ _ _ _ HU Hr) as (_ & Hhd2 & _).
  apply header52_of_header45 in Hhd2.
  assert (Hh : Z.shiftr out 52 = Z.shiftr origin 52) by congruence.
  split; [apply mode_of_header, Hh | split; [apply resolution_of_header, Hh | exact Hh]].
Qed.

(** ** The example instance of the base-cell services *)

Lemma exampleBaseCells_WF : BaseCellsWF exampleBaseCells.
Proof.
  split; unfold neighborsFitField;
    cbn [baseCellNeighbors baseCellNeighbor60CCWRots exampleBaseCells].
  - intros b d Hb Hd. destruct (d =? 0); [lia|].
    destruct (_ && _); [lia|].
    pose proof (Z.mod_pos_bound (b + d) 122). lia.
  - intros b d Hb Hd.
    destruct (Z.eqb_spec d 0), (Z.eqb_spec d 1), (isPentagonBaseCell b);
      cbn [andb]; intros Hne; lia.
  - intros b Hb. change (5 =? 0) with false. change (5 =? 1) with false.
    cbn [andb]. pose proof (Z.mod_pos_bound (b + 5) 122). lia.
Qed.

Lemma example_cells_U64 :
  U64 cellJJ /\ U64 cellJ /\ U64 cellCenter /\ U64 pentagon4 /\ U64 pentagon4Center.
Proof. unfold U64. vm_compute. repeat split; discriminate || reflexivity. Qed.

(** C10, on stepping from [cellJJ] in direction K: the III pair, consulted
    at level 2, turns the last digit into JK inside base cell 20. *)
Lemma h3NeighborRotations_keeps_mode_and_resolution_witness :
  nr_out (h3NeighborRotations exampleBaseCells cellJJ K_AXES_DIGIT 0)
    = Some (H3_SET_INDEX_DIGIT cellJJ 2 JK_AXES_DIGIT) /\
  H3_GET_MODE (H3_SET_INDEX_DIGIT cellJJ 2 JK_AXES_DIGIT) = H3_GET_MODE cellJJ /\
  H3_GET_RESOLUTION (H3_SET_INDEX_DIGIT cellJJ 2 JK_AXES_DIGIT) = H3_GET_RESOLUTION cellJJ.
Proof.
  assert (Hout : nr_out (h3NeighborRotations exampleBaseCells cellJJ K_AXES_DIGIT 0)
                 = Some (H3_SET_INDEX_DIGIT cellJJ 2 JK_AXES_DIGIT))
    by (vm_compute; reflexivity).
  split; [exact Hout|].
  destruct (h3NeighborRotations_keeps_mode_and_resolution exampleBaseCells cellJJ
              K_AXES_DIGIT 0 _ (wf_neighbor_field _ exampleBaseCells_WF)
              (proj1 example_cells_U64)
              ltac:(vm_compute; reflexivity) Hout) as (Hm & Hr & _).
  split; assumption.
Defined.

(** ** The direction guard *)

(** C4, as the code has it. A direction below [CENTER_DIGIT] or from
    [INVALID_DIGIT] up makes [h3NeighborRotations] return [E_FAILED] at once:
    [*rotations] is left as it was and no output cell is written. *)
Theorem h3NeighborRotations_rejects_direction
    (T : BaseCells) (origin : H3Index) (dir : Direction) (rotations : Z) :
  dir < CENTER_DIGIT \/ INVALID_DIGIT <= dir ->
  h3NeighborRotations T origin dir rotations =
    {| nr_err := E_FAILED; nr_rotations := rotations; nr_out := None |}.
Proof.
  intros Hdir. unfold h3NeighborRotations.
  destruct (Z.ltb_spec dir 0); [reflexivity|].
  destruct (Z.geb_spec dir 7); [reflexivity | lia].
Qed.

(** C4, for the direction [INVALID_DIGIT] and for a negative one. *)
Lemma h3NeighborRotations_rejects_direction_witness :
  nr_err (h3NeighborRotations exampleBaseCells cellJ INVALID_DIGIT 3) = E_FAILED /\
  nr_out (h3NeighborRotations exampleBaseCells cellJ (-1) 3) = None.
Proof.
  split.
  - rewrite (h3NeighborRotations_rejects_direction exampleBaseCells cellJ 7 3);
      [reflexivity | right; lia].
  - rewrite (h3NeighborRotations_rejects_direction exampleBaseCells cellJ (-1) 3);
      [reflexivity | left; lia].
Defined.

(** The direction [CENTER_DIGIT] is not one of the six, and passes the guard:
    whatever the base-cell tables, the call from [cellJ] succeeds and hands
    the origin back. *)
Lemma center_direction_accepted (T : BaseCells) :
  h3NeighborRotations T cellJ CENTER_DIGIT 0 =
    {| nr_err := E_SUCCESS; nr_rotations := 0; nr_out := Some cellJ |}.
Proof.
  unfold h3NeighborRotations.
  change (H3_GET_BASE_CELL cellJ) with 20.
  replace (neighborWalk T 20 (Z.to_nat (H3_GET_RESOLUTION cellJ)) cellJ
                  (repeatZ (Z.rem 0 6) _rotate60ccw 0) (Z.rem 0 6))
    with (WalkDone cellJ 0 0) by (vm_compute; reflexivity).
  cbn [orb Z.ltb Z.geb Z.compare].
  unfold rotateIntoBaseCell.
  replace (H3_GET_BASE_CELL cellJ) with 20 by (vm_compute; reflexivity).
  destruct (_isBaseCellPentagon T 20); vm_compute; reflexivity.
Qed.

(** C4 as stated fails at [CENTER_DIGIT]: the call succeeds. *)
Lemma center_direction_not_rejected :
  nr_err (h3NeighborRotations exampleBaseCells cellJ CENTER_DIGIT 0) = E_SUCCESS /\
  nr_out (h3NeighborRotations exampleBaseCells cellJ CENTER_DIGIT 0) = Some cellJ.
Proof. rewrite center_direction_accepted. split; reflexivity. Qed.

(** ** The rotation count *)

Lemma rem6_range (x : Z) : -5 <= Z.rem x 6 <= 5.
Proof. pose proof (Z.rem_bound_abs x 6). lia. Qed.

Lemma rem6_nonneg (x : Z) : 0 <= x -> 0 <= Z.rem x 6 <= 5.
Proof. intros Hx. pose proof (Z.rem_bound_pos x 6). lia. Qed.

(** C5, as the code has it. A successful call stores
    [(rotations + newRotations) % 6], where [rotations] is the value of
    [*rotations] after the initial reduction and the adjustments made on the
    way and [newRotations] comes from the base-cell table; [%] truncates
    towards zero, so the stored count lies in -5..5, and in 0..5 when the
    count passed in is not negative. *)
Theorem h3NeighborRotations_rotation_count
    (T : BaseCells) (origin : H3Index) (dir : Direction) (rotations : Z) :
  BaseCellsWF T -> U64 origin ->
  nr_err (h3NeighborRotations T origin dir rotations) = E_SUCCESS ->
  (exists current newRotations rot1 out rot2,
     neighborWalk T (H3_GET_BASE_CELL origin)
            (Z.to_nat (H3_GET_RESOLUTION origin)) origin
            (repeatZ (Z.rem rotations 6) _rotate60ccw dir) (Z.rem rotations 6)
       = WalkDone current newRotations rot1 /\
     rotateIntoBaseCell T (H3_GET_BASE_CELL origin) (_h3LeadingNonZeroDigit origin)
                        current newRotations rot1 = inr (out, rot2) /\
     Z.rem rotations 6 <= rot1 <= rot2 /\ 0 <= newRotations <= 5 /\
     nr_rotations (h3NeighborRotations T origin dir rotations)
       = Z.rem (rot2 + newRotations) 6) /\
  -5 <= nr_rotations (h3NeighborRotations T origin dir rotations) <= 5 /\
  (0 <= rotations ->
   0 <= nr_rotations (h3NeighborRotations T origin dir rotations) <= 5).
Proof.
  intros WF Horigin Hok.
  destruct (h3NeighborRotations_success T origin dir rotations Hok)
    as (current & newRotations & rot1 & out & rot2 & Hdir & Hbc & Hw & Hr & Heq).
  assert (Hres : (Z.to_nat (H3_GET_RESOLUTION origin) <= 15)%nat)
    by (pose proof (get_resolution_range origin); lia).
  destruct (neighborWalk_header T _ (wf_neighbor_field T WF) Hbc _ _ _ _ _ _ _ Hres
              Horigin (repeat_rotate60ccw_dir _ _ Hdir) Hw) as (HU & _ & Hrot1).
  pose proof (neighborWalk_newRotations T _ WF Hbc _ _ _ _ _ _ _ Hres
                Horigin (repeat_rotate60ccw_dir _ _ Hdir) Hw) as Hnr.
  destruct (rotateIntoBaseCell_frame _ _ _ _ _ _ _ _ HU Hr) as (_ & _ & Hrot2).
  rewrite Heq. cbn [nr_rotations].
  split; [|split].
  - exists current, newRotations, rot1, out, rot2.
    repeat split; try assumption; lia.
  - apply rem6_range.
  - intros Hnonneg. apply rem6_nonneg.
    pose proof (rem6_nonneg rotations Hnonneg). lia.
Qed.

(** C5, on stepping from [cellJJ] in direction K with eight rotations passed
    in: the count that comes back is 2. *)
Lemma h3NeighborRotations_rotation_count_witness :
  nr_err (h3NeighborRotations exampleBaseCells cellJJ K_AXES_DIGIT 8) = E_SUCCESS /\
  0 <= nr_rotations (h3NeighborRotations exampleBaseCells cellJJ K_AXES_DIGIT 8) <= 5.
Proof.
  assert (Hok : nr_err (h3NeighborRotations exampleBaseCells cellJJ K_AXES_DIGIT 8)
                = E_SUCCESS) by (vm_compute; reflexivity).
  split; [exact Hok|].
  refine (proj2 (proj2 (h3NeighborRotations_rotation_count exampleBaseCells cellJJ
                          K_AXES_DIGIT 8 exampleBaseCells_WF
                          (proj1 example_cells_U64) Hok)) _).
  lia.
Defined.

(** A negative count passed in comes back negative: whatever the base-cell
    tables, stepping from [cellCenter] in direction J with [-1] rotations
    succeeds and stores [-1]. *)
Lemma negative_rotations_kept (T : BaseCells) :
  h3NeighborRotations T cellCenter J_AXES_DIGIT (-1) =
    {| nr_err := E_SUCCESS; nr_rotations := -1;
       nr_out := Some (H3_SET_INDEX_DIGIT cellCenter 1 J_AXES_DIGIT) |}.
Proof.
  unfold h3NeighborRotations.
  change (H3_GET_BASE_CELL cellCenter) with 20.
  replace (neighborWalk T 20 (Z.to_nat (H3_GET_RESOLUTION cellCenter)) cellCenter
                  (repeatZ (Z.rem (-1) 6) _rotate60ccw 2) (Z.rem (-1) 6))
    with (WalkDone (H3_SET_INDEX_DIGIT cellCenter 1 2) 0 (-1))
    by (vm_compute; reflexivity).
  cbn [orb Z.ltb Z.geb Z.compare].
  unfold rotateIntoBaseCell.
  replace (H3_GET_BASE_CELL (H3_SET_INDEX_DIGIT cellCenter 1 2)) with 20
    by (vm_compute; reflexivity).
  destruct (_isBaseCellPentagon T 20); vm_compute; reflexivity.
Qed.

(** C5 as stated fails for a negative count: the stored count is not in
    0..5. *)
Lemma negative_rotations_stored :
  nr_err (h3NeighborRotations exampleBaseCells cellCenter J_AXES_DIGIT (-1)) = E_SUCCESS /\
  nr_rotations (h3NeighborRotations exampleBaseCells cellCenter J_AXES_DIGIT (-1)) = -1.
Proof. rewrite negative_rotations_kept. split; reflexivity. Qed.

(** ** Which tables the walk reads *)




(** ** The pentagon error *)

Lemma leadingNonZeroFrom_zero (h : Z) (rs : list Z) :
  leadingNonZeroFrom h rs = 0 <-> forall r, r ∈ rs -> H3_GET_INDEX_DIGIT h r = 0.
Proof.
  induction rs as [|r0 rs IH]; cbn [leadingNonZeroFrom].
  - split; [intros _ r Hr; inversion Hr | reflexivity].
  - destruct (Z.eqb_spec (H3_GET_INDEX_DIGIT h r0) 0) as [E0|E0].
    + rewrite IH. split.
      * intros Hall r Hr. apply elem_of_cons in Hr as [->|Hr]; [exact E0 | apply Hall, Hr].
      * intros Hall r Hr. apply Hall. right. exact Hr.
    + split; [contradiction|]. intros Hall. exfalso. apply E0, Hall. left.
Qed.

Lemma leadingNonZeroFrom_app (h : Z) (l1 l2 : list Z) :
  leadingNonZeroFrom h (l1 ++ l2) =
    if leadingNonZeroFrom h l1 =? 0 then leadingNonZeroFrom h l2
    else leadingNonZeroFrom h l1.
Proof.
  induction l1 as [|r l1 IH]; cbn [leadingNonZeroFrom app]; [reflexivity|].
  destruct (Z.eqb_spec (H3_GET_INDEX_DIGIT h r) 0) as [E0|E0]; [exact IH|].
  destruct (Z.eqb_spec (H3_GET_INDEX_DIGIT h r) 0); [contradiction | reflexivity].
Qed.

Lemma leadingNonZero_zero (h : Z) :
  _h3LeadingNonZeroDigit h = 0 <->
  forall r, 1 <= r <= H3_GET_RESOLUTION h -> H3_GET_INDEX_DIGIT h r = 0.
Proof.
  unfold _h3LeadingNonZeroDigit. rewrite leadingNonZeroFrom_zero.
  split; intros Hall r Hr; apply Hall, elem_of_levels, Hr.
Qed.

Lemma table_row_center (pair : TablePair) (d : Z) :
  0 <= d < 7 ->
  tableAt (NEW_DIGIT pair) CENTER_DIGIT d = d /\
  tableAt (NEW_ADJUSTMENT pair) CENTER_DIGIT d = CENTER_DIGIT.
Proof.
  intros Hd. each_digit Hd; destruct pair; vm_compute; split; reflexivity.
Qed.

(** Stepping from the centre of a base cell, at resolution 1 or finer: the
    walk stops at once, having written the direction into the finest digit,
    which then is the only digit that may be non-zero. *)
Lemma neighborWalk_from_center (T : BaseCells) (obc : Z) (h d rot : Z) :
  U64 h -> 1 <= H3_GET_RESOLUTION h -> _h3LeadingNonZeroDigit h = CENTER_DIGIT ->
  0 <= d < 7 ->
  neighborWalk T obc (Z.to_nat (H3_GET_RESOLUTION h)) h d rot =
    WalkDone (H3_SET_INDEX_DIGIT h (H3_GET_RESOLUTION h) d) 0 rot /\
  _h3LeadingNonZeroDigit (H3_SET_INDEX_DIGIT h (H3_GET_RESOLUTION h) d) = d /\
  H3_GET_BASE_CELL (H3_SET_INDEX_DIGIT h (H3_GET_RESOLUTION h) d) = H3_GET_BASE_CELL h.
Proof.
  intros Hh Hres Hlead Hd.
  pose proof (get_resolution_range h) as Hrange.
  pose proof (proj1 (leadingNonZero_zero h) Hlead) as Hzero.
  assert (Hlvl : 1 <= H3_GET_RESOLUTION h <= 15) by lia.
  assert (Hd8 : 0 <= d < 8) by lia.
  pose proof (set_digit_header h _ d Hlvl Hd8 Hh) as Hhd.
  split; [|split].
  - destruct (Z.to_nat (H3_GET_RESOLUTION h)) as [|r] eqn:En; [lia|].
    assert (Er : Z.of_nat r + 1 = H3_GET_RESOLUTION h) by lia.
    rewrite neighborWalk_S. cbv zeta.
    rewrite Er, (Hzero (H3_GET_RESOLUTION h)) by lia.
    change (0 =? 7) with false. cbv iota.
    destruct (table_row_center (tablePairAt (H3_GET_RESOLUTION h)) d Hd) as [-> ->].
    reflexivity.
  - unfold _h3LeadingNonZeroDigit.
    rewrite (resolution_of_header (H3_SET_INDEX_DIGIT h (H3_GET_RESOLUTION h) d) h)
      by (apply header52_of_header45, Hhd).
    replace (H3_GET_RESOLUTION h) with (Z.of_nat (S (Z.to_nat (H3_GET_RESOLUTION h - 1))))
      at 2 by lia.
    rewrite levels_succ, leadingNonZeroFrom_app.
    replace (leadingNonZeroFrom _ (levels _)) with 0.
    + change (0 =? 0) with true. cbv iota. cbn [leadingNonZeroFrom].
      replace (Z.of_nat (Z.to_nat (H3_GET_RESOLUTION h - 1)) + 1)
        with (H3_GET_RESOLUTION h) by lia.
      rewrite get_set_digit_same by side.
      destruct (Z.eqb_spec d 0); congruence.
    + symmetry. apply leadingNonZeroFrom_zero. intros r Hr.
      apply elem_of_levels in Hr.
      rewrite get_set_digit_other by side. apply Hzero. lia.
  - apply base_cell_of_header, Hhd.
Qed.

(** How a call comes to return [E_PENTAGON]. *)
Lemma h3NeighborRotations_pentagon (T : BaseCells) (origin dir rotations : Z) :
  nr_err (h3NeighborRotations T origin dir rotations) = E_PENTAGON ->
  0 <= dir < 7 /\ 0 <= H3_GET_BASE_CELL origin < NUM_BASE_CELLS /\
  _h3LeadingNonZeroDigit origin = CENTER_DIGIT /\
  nr_out (h3NeighborRotations T origin dir rotations) = None /\
  exists current newRotations rot1,
    neighborWalk T (H3_GET_BASE_CELL origin)
           (Z.to_nat (H3_GET_RESOLUTION origin)) origin
           (repeatZ (Z.rem rotations 6) _rotate60ccw dir) (Z.rem rotations 6)
      = WalkDone current newRotations rot1 /\
    _isBaseCellPentagon T (H3_GET_BASE_CELL current) = true /\
    _h3LeadingNonZeroDigit current = K_AXES_DIGIT /\
    H3_GET_BASE_CELL origin = H3_GET_BASE_CELL current.
Proof.
  unfold h3NeighborRotations.
  destruct (Z.ltb_spec dir 0); [discriminate|].
  destruct (Z.geb_spec dir 7); [discriminate|]. cbn [orb].
  destruct (Z.ltb_spec (H3_GET_BASE_CELL origin) 0); [discriminate|].
  destruct (Z.geb_spec (H3_GET_BASE_CELL origin) 122); [discriminate|]. cbn [orb].
  destruct (neighborWalk _ _ _ _ _ _) as [e|current newRotations rot1] eqn:Hw.
  - apply neighborWalk_error in Hw. subst e. discriminate.
  - unfold rotateIntoBaseCell, forceOutOfKSubsequence.
    destruct (_isBaseCellPentagon T (H3_GET_BASE_CELL current)) eqn:Hpent;
      [|discriminate].
    destruct (Z.eqb_spec (_h3LeadingNonZeroDigit current) 1) as [Hk|_];
      [|discriminate].
    destruct (Z.eqb_spec (H3_GET_BASE_CELL origin) (H3_GET_BASE_CELL current))
      as [Hsame|_]; cbn [negb];
      [|destruct (_baseCellIsCwOffset _ _ _); discriminate].
    destruct (Z.eqb_spec (_h3LeadingNonZeroDigit origin) 0) as [Hlead|_].
    + intros _. split; [lia|]. split; [lia|]. split; [exact Hlead|].
      split; [reflexivity|]. exists current, newRotations, rot1.
      repeat split; assumption.
    + destruct (_ =? 3); [discriminate|]. destruct (_ =? 5); discriminate.
Qed.

(** At resolution 0 there is no digit: no call returns [E_PENTAGON]. *)
Lemma resolution_zero_no_pentagon_error (T : BaseCells) (origin dir rotations : Z) :
  neighborsFitField T -> U64 origin -> H3_GET_RESOLUTION origin = 0 ->
  nr_err (h3NeighborRotations T origin dir rotations) <> E_PENTAGON.
Proof.
  intros WF Horigin Hres Herr.
  destruct (h3NeighborRotations_pentagon T origin dir rotations Herr)
    as (Hdir & Hbc & _ & _ & current & nr & rot1 & Hw & _ & Hk & _).
  assert (Hn : (Z.to_nat (H3_GET_RESOLUTION origin) <= 15)%nat) by lia.
  destruct (neighborWalk_header T _ WF Hbc _ _ _ _ _ _ _ Hn Horigin
              (repeat_rotate60ccw_dir _ _ Hdir) Hw) as (_ & Hhd & _).
  apply resolution_of_header in Hhd.
  unfold _h3LeadingNonZeroDigit in Hk. rewrite Hhd, Hres in Hk.
  discriminate Hk.
Qed.

Lemma rotateIntoBaseCell_error_leading (T : BaseCells) (obc old current nr rot : Z)
    (e : H3Error) (rot2 : Z) :
  rotateIntoBaseCell T obc old current nr rot = inl (e, rot2) ->
  _h3LeadingNonZeroDigit current = K_AXES_DIGIT.
Proof.
  unfold rotateIntoBaseCell, forceOutOfKSubsequence.
  destruct (_isBaseCellPentagon _ _); [|discriminate].
  destruct (Z.eqb_spec (_h3LeadingNonZeroDigit current) 1) as [Hk|_];
    [intros _; exact Hk | discriminate].
Qed.

(** X2. At resolution 0 every call with a direction in range from a cell of a
    real base cell succeeds, pentagon or not: the K direction of a pentagon
    is served through the IK neighbour. *)
Lemma resolution_zero_succeeds (T : BaseCells) (origin dir rotations : Z) :
  neighborsFitField T -> U64 origin -> H3_GET_RESOLUTION origin = 0 ->
  0 <= dir < 7 -> H3_GET_BASE_CELL origin < NUM_BASE_CELLS ->
  nr_err (h3NeighborRotations T origin dir rotations) = E_SUCCESS.
Proof.
  intros WF Horigin Hres Hdir Hbc.
  pose proof (get_base_cell_range origin) as Hbcr.
  unfold h3NeighborRotations.
  destruct (Z.ltb_spec dir 0); [lia|]. destruct (Z.geb_spec dir 7); [lia|]. cbn [orb].
  destruct (Z.ltb_spec (H3_GET_BASE_CELL origin) 0); [lia|].
  destruct (Z.geb_spec (H3_GET_BASE_CELL origin) 122); [lia|]. cbn [orb].
  destruct (neighborWalk _ _ _ _ _ _) as [e|current newRotations rot1] eqn:Hw.
  - rewrite Hres, neighborWalk_O in Hw. destruct (_ =? _); discriminate.
  - destruct (rotateIntoBaseCell _ _ _ _ _ _) as [[e rot2]|[out rot2]] eqn:Hr;
      [|reflexivity].
    exfalso. apply rotateIntoBaseCell_error_leading in Hr.
    assert (Hn : (Z.to_nat (H3_GET_RESOLUTION origin) <= 15)%nat) by lia.
    assert (Hbc' : 0 <= H3_GET_BASE_CELL origin < 122) by lia.
    destruct (neighborWalk_header T _ WF Hbc' _ _ _ _ _ _ _ Hn Horigin
                (repeat_rotate60ccw_dir _ _ Hdir) Hw) as (_ & Hhd & _).
    apply resolution_of_header in Hhd.
    unfold _h3LeadingNonZeroDigit in Hr. rewrite Hhd, Hres in Hr. discriminate Hr.
Qed.

(** C2, as the code has it. [h3NeighborRotations] returns [E_PENTAGON]
    exactly when the origin is the centre (all digits zero) of a pentagon base
    cell at resolution 1 or finer and the direction, once turned by the
    rotation count passed in, is K; no output cell is written then. So it
    does for direction K with zero rotations at every resolution from 1 on. *)
Theorem h3NeighborRotations_pentagon_error
    (T : BaseCells) (origin : H3Index) (dir : Direction) (rotations : Z) :
  neighborsFitField T -> U64 origin ->
  (nr_err (h3NeighborRotations T origin dir rotations) = E_PENTAGON <->
     0 <= dir < 7 /\
     H3_GET_BASE_CELL origin < NUM_BASE_CELLS /\
     _isBaseCellPentagon T (H3_GET_BASE_CELL origin) = true /\
     1 <= H3_GET_RESOLUTION origin /\
     _h3LeadingNonZeroDigit origin = CENTER_DIGIT /\
     repeatZ (Z.rem rotations 6) _rotate60ccw dir = K_AXES_DIGIT) /\
  (nr_err (h3NeighborRotations T origin dir rotations) = E_PENTAGON ->
     nr_out (h3NeighborRotations T origin dir rotations) = None) /\
  (H3_GET_BASE_CELL origin < NUM_BASE_CELLS ->
   _isBaseCellPentagon T (H3_GET_BASE_CELL origin) = true ->
   1 <= H3_GET_RESOLUTION origin ->
   _h3LeadingNonZeroDigit origin = CENTER_DIGIT ->
   h3NeighborRotations T origin K_AXES_DIGIT 0 =
     {| nr_err := E_PENTAGON; nr_rotations := 0; nr_out := None |}).
Proof.
  intros WF Horigin.
  pose proof (get_base_cell_range origin) as Hbcr.
  assert (Hback : forall d rot,
    0 <= d < 7 -> H3_GET_BASE_CELL origin < 122 ->
    _isBaseCellPentagon T (H3_GET_BASE_CELL origin) = true ->
    1 <= H3_GET_RESOLUTION origin ->
    _h3LeadingNonZeroDigit origin = 0 ->
    repeatZ (Z.rem rot 6) _rotate60ccw d = 1 ->
    h3NeighborRotations T origin d rot =
      {| nr_err := E_PENTAGON; nr_rotations := Z.rem rot 6; nr_out := None |}).
  { intros d rot Hd Hbc Hpent Hres Hlead Hk.
    destruct (neighborWalk_from_center T (H3_GET_BASE_CELL origin) origin 1
                (Z.rem rot 6) Horigin Hres Hlead ltac:(lia)) as (Hw & Hl & Hb).
    unfold h3NeighborRotations.
    destruct (Z.ltb_spec d 0); [lia|]. destruct (Z.geb_spec d 7); [lia|]. cbn [orb].
    destruct (Z.ltb_spec (H3_GET_BASE_CELL origin) 0); [lia|].
    destruct (Z.geb_spec (H3_GET_BASE_CELL origin) 122); [lia|]. cbn [orb].
    rewrite Hk, Hw. unfold rotateIntoBaseCell, forceOutOfKSubsequence.
    rewrite Hb, Hpent, Hl, Hlead, !Z.eqb_refl. reflexivity. }
  split; [split|split].
  - intros Herr.
    destruct (h3NeighborRotations_pentagon T origin dir rotations Herr)
      as (Hdir & Hbc & Hlead & _ & current & nr & rot1 & Hw & Hpent & Hk & Hsame).
    destruct (Z.eq_dec (H3_GET_RESOLUTION origin) 0) as [Hres0|Hres0].
    { exfalso. exact (resolution_zero_no_pentagon_error T origin dir rotations
                        WF Horigin Hres0 Herr). }
    pose proof (get_resolution_range origin) as Hres.
    destruct (neighborWalk_from_center T (H3_GET_BASE_CELL origin) origin
                (repeatZ (Z.rem rotations 6) _rotate60ccw dir) (Z.rem rotations 6)
                Horigin ltac:(lia) Hlead (repeat_rotate60ccw_dir _ _ Hdir))
      as (Hw' & Hl & Hb).
    rewrite Hw' in Hw. injection Hw as <- _ _.
    rewrite Hsame. repeat split; try lia; try assumption; congruence.
  - intros (Hdir & Hbc & Hpent & Hres & Hlead & Hk).
    rewrite (Hback dir rotations Hdir Hbc Hpent Hres Hlead Hk). reflexivity.
  - intros Herr.
    apply (h3NeighborRotations_pentagon T origin dir rotations Herr).
  - intros Hbc Hpent Hres Hlead.
    apply (Hback 1 0); try assumption; [lia | reflexivity].
Qed.

(** C2, at the centre child of the pentagon base cell 4, resolution 1. *)
Lemma h3NeighborRotations_pentagon_error_witness :
  h3NeighborRotations exampleBaseCells pentagon4Center K_AXES_DIGIT 0 =
    {| nr_err := E_PENTAGON; nr_rotations := 0; nr_out := None |}.
Proof.
  refine (proj2 (proj2 (h3NeighborRotations_pentagon_error exampleBaseCells
                          pentagon4Center K_AXES_DIGIT 0
                          (wf_neighbor_field _ exampleBaseCells_WF)
                          (proj2 (proj2 (proj2 (proj2 example_cells_U64))))))
                _ _ _ _);
    vm_compute; discriminate || reflexivity.
Defined.

(** C2 as stated fails at resolution 0: from the pentagon base cell 4
    itself, direction K with zero rotations, the call succeeds (through the
    IK neighbour) and writes an output cell. It also fails in its last part:
    direction JK with one rotation passed in gives [E_PENTAGON] too. *)
Lemma pentagon_resolution_zero_succeeds :
  _isBaseCellPentagon exampleBaseCells (H3_GET_BASE_CELL pentagon4) = true /\
  _h3LeadingNonZeroDigit pentagon4 = CENTER_DIGIT /\
  nr_err (h3NeighborRotations exampleBaseCells pentagon4 K_AXES_DIGIT 0) = E_SUCCESS /\
  nr_out (h3NeighborRotations exampleBaseCells pentagon4 K_AXES_DIGIT 0) <> None /\
  nr_err (h3NeighborRotations exampleBaseCells pentagon4Center JK_AXES_DIGIT 1)
    = E_PENTAGON.
Proof. vm_compute. repeat split; discriminate || reflexivity. Qed.

(** ** Tracing into the found set *)

Lemma arrayGet_Some {A : Type} (a : list A) (i : Z) (x : A) :
  arrayGet a i = Some x <-> 0 <= i /\ a !! Z.to_nat i = Some x.
Proof.
  unfold arrayGet. destruct (Z.ltb_spec i 0); split.
  - discriminate.
  - intros [? _]. lia.
  - intros H'. split; [lia | exact H'].
  - intros [_ H']. exact H'.
Qed.

Lemma arrayGet_insert_ne {A : Type} (a : list A) (i j : Z) (x : A) :
  0 <= i -> i <> j -> arrayGet (<[Z.to_nat i := x]> a) j = arrayGet a j.
Proof.
  intros Hi Hne. unfold arrayGet. destruct (Z.ltb_spec j 0); [reflexivity|].
  apply list_lookup_insert_ne. lia.
Qed.

Lemma arrayGet_insert_eq {A : Type} (a : list A) (i : Z) (x y : A) :
  arrayGet a i = Some y -> arrayGet (<[Z.to_nat i := x]> a) i = Some x.
Proof.
  intros [Hi Hl]%arrayGet_Some. apply arrayGet_Some. split; [exact Hi|].
  apply list_lookup_insert_eq. eapply lookup_lt_Some, Hl.
Qed.

(** The probing loop stops only at an empty slot or at the cell. *)
Lemma probeLoop_at (fuel : nat) (found : list Z) (n c loc cnt loc' : Z) :
  probeLoop fuel found n c loc cnt = Some (ProbeAt loc') ->
  arrayGet found loc' = Some 0 \/ arrayGet found loc' = Some c.
Proof.
  revert loc cnt. induction fuel as [|fuel IH]; intros loc cnt; cbn [probeLoop];
    [discriminate|].
  destruct (arrayGet found loc) as [v|] eqn:Hv; [|discriminate].
  destruct (Z.eqb_spec v 0) as [->|_]; [intros [= <-]; left; exact Hv|].
  destruct (cnt >? n); [discriminate|].
  destruct (Z.eqb_spec v c) as [->|_]; [intros [= <-]; right; exact Hv|].
  destruct (n =? 0); [discriminate|]. apply IH.
Qed.

(** A cell the probing meets is found by the loop, unless the loop fails. *)
Lemma probeLoop_hits (found : list Z) (n c loc : Z) :
  c <> 0 -> probesTo found n c loc ->
  forall fuel cnt loc',
    probeLoop fuel found n c loc cnt = Some (ProbeAt loc') ->
    arrayGet found loc' = Some c.
Proof.
  intros Hc. induction 1 as [loc Hhere|loc v Hv Hv0 _ IH]; intros fuel cnt loc';
    (destruct fuel as [|fuel]; cbn [probeLoop]; [discriminate|]).
  - rewrite Hhere. destruct (Z.eqb_spec c 0); [contradiction|].
    destruct (cnt >? n); [discriminate|].
    rewrite Z.eqb_refl. intros [= <-]. exact Hhere.
  - rewrite Hv. destruct (Z.eqb_spec v 0); [contradiction|].
    destruct (cnt >? n); [discriminate|].
    destruct (Z.eqb_spec v c) as [->|_]; [intros [= <-]; exact Hv|].
    destruct (n =? 0); [discriminate|]. apply IH.
Qed.

(** After the cell is stored in the empty slot the loop stopped at, the
    probing meets it. *)
Lemma probeLoop_stored (fuel : nat) (found : list Z) (n c loc cnt loc' : Z) :
  probeLoop fuel found n c loc cnt = Some (ProbeAt loc') ->
  arrayGet found loc' = Some 0 ->
  probesTo (<[Z.to_nat loc' := c]> found) n c loc.
Proof.
  intros Hp Hempty. revert loc cnt Hp.
  induction fuel as [|fuel IH]; intros loc cnt; cbn [probeLoop]; [discriminate|].
  destruct (arrayGet found loc) as [v|] eqn:Hv; [|discriminate].
  destruct (Z.eqb_spec v 0) as [->|Hv0].
  - intros [= <-]. apply probes_here. eapply arrayGet_insert_eq, Hv.
  - destruct (cnt >? n); [discriminate|].
    assert (Hne : loc' <> loc) by (intros ->; congruence).
    assert (Hloc' : 0 <= loc') by (apply arrayGet_Some in Hempty; lia).
    destruct (Z.eqb_spec v c) as [->|_]; [intros [= <-]; congruence|].
    destruct (n =? 0); [discriminate|]. intros Hp.
    apply (probes_next _ _ _ loc v); [|exact Hv0|eapply IH, Hp].
    rewrite arrayGet_insert_ne by assumption. exact Hv.
Qed.

(** Storing a cell in an empty slot keeps what the probing meets. *)
Lemma probesTo_insert (found : list Z) (n c loc i x : Z) :
  c <> 0 -> arrayGet found i = Some 0 ->
  probesTo found n c loc -> probesTo (<[Z.to_nat i := x]> found) n c loc.
Proof.
  intros Hc Hempty. assert (Hi : 0 <= i) by (apply arrayGet_Some in Hempty; lia).
  induction 1 as [loc Hhere|loc v Hv Hv0 _ IH].
  - apply probes_here. rewrite arrayGet_insert_ne; [exact Hhere | exact Hi |].
    intros ->. congruence.
  - apply (probes_next _ _ _ loc v); [|exact Hv0|exact IH].
    rewrite arrayGet_insert_ne; [exact Hv | exact Hi |]. intros ->. congruence.
Qed.

Lemma probesTo_elem (found : list Z) (n c loc : Z) :
  probesTo found n c loc -> c ∈ found.
Proof.
  induction 1 as [loc Hhere|]; [|assumption].
  apply arrayGet_Some in Hhere as [_ Hl]. eapply list_elem_of_lookup_2, Hl.
Qed.

Lemma emptySlots_insert (found : list Z) (i : nat) (c : Z) :
  found !! i = Some 0 -> c <> 0 ->
  (emptySlots (<[i := c]> found) + 1 = emptySlots found)%nat.
Proof.
  revert i. induction found as [|v found IH]; intros i Hi Hc; [discriminate|].
  destruct i as [|i]; cbn in Hi |- *.
  - injection Hi as ->. destruct (Z.eqb_spec c 0); [contradiction|].
    cbn. lia.
  - specialize (IH i Hi Hc). destruct (v =? 0); [|exact IH].
    cbn [Nat.add]. f_equal. exact IH.
Qed.

Lemma elem_of_insert_inv (found : list Z) (i : nat) (c x : Z) :
  x ∈ <[i := c]> found -> x = c \/ x ∈ found.
Proof.
  intros (j & Hj)%list_elem_of_lookup_1.
  destruct (decide (i = j)) as [->|Hne].
  - destruct (decide (j < length found)%nat) as [Hlt|Hge].
    + rewrite list_lookup_insert_eq in Hj by exact Hlt. left. congruence.
    + rewrite list_insert_ge in Hj by lia. right. eapply list_elem_of_lookup_2, Hj.
  - rewrite list_lookup_insert_ne in Hj by exact Hne.
    right. eapply list_elem_of_lookup_2, Hj.
Qed.

(** The fuel [insertFound] gives the probing loop is enough: the loop stops
    by itself within [numHexagons + 2] rounds. *)
Lemma probeLoop_fuel (found : list Z) (n c : Z) (fuel : nat) (loc cnt : Z) :
  (1 <= fuel)%nat -> (cnt <= n -> n + 2 - cnt <= Z.of_nat fuel) ->
  probeLoop fuel found n c loc cnt <> None.
Proof.
  revert loc cnt. induction fuel as [|fuel IH]; intros loc cnt H1 Hfuel; [lia|].
  cbn [probeLoop].
  destruct (arrayGet found loc) as [v|]; [|discriminate].
  destruct (v =? 0); [discriminate|].
  destruct (Z.gtb_spec cnt n); [discriminate|].
  destruct (v =? c); [discriminate|].
  destruct (n =? 0); [discriminate|].
  apply IH; lia.
Qed.

Lemma traced_start (n : Z) (st : TraceState) : traced n st st [].
Proof.
  split.
  - cbn. lia.
  - intros H. exfalso. apply H. reflexivity.
  - intros k c Hk. rewrite lookup_nil in Hk. discriminate.
  - apply NoDup_nil_2.
  - intros c Hc. inversion Hc.
  - intros c Hc. inversion Hc.
  - intros c Hc. left. exact Hc.
  - intros c _ Hp. exact Hp.
  - cbn. lia.
Qed.

(** One point of the trace: either the state is unchanged (the cell was in
    the set, or the probing failed) or the cell is appended, and then it was
    not met before. *)
Lemma insertFound_traced (n c : Z) (st0 st st' : TraceState) (app : list Z) :
  traced n st0 st app -> stateOf (insertFound n c st) = Some st' ->
  exists app', traced n st0 st' app'.
Proof.
  intros Htr. unfold insertFound.
  destruct (wrap64 n =? 0); [discriminate|].
  fold (startLoc n c).
  destruct (probeLoop _ (found st) n c (startLoc n c) 0) as [[loc| |]|] eqn:Hp;
    try discriminate.
  2:{ intros [= <-]. exists app. exact Htr. }
  destruct (arrayGet (found st) loc) as [v|] eqn:Hv; [|discriminate].
  destruct (Z.eqb_spec v c) as [->|Hvc].
  { intros [= <-]. exists app. exact Htr. }
  destruct (arrayGet (search st) (numSearchHexes st)) as [old|] eqn:Hs; [|discriminate].
  intros [= <-]. exists (app ++ [c]).
  assert (Hv0 : arrayGet (found st) loc = Some 0).
  { destruct (probeLoop_at _ _ _ _ _ _ _ Hp) as [H0|Hc]; [exact H0 | congruence]. }
  assert (Hc0 : c <> 0) by congruence.
  assert (Hnot : ~ probesTo (found st) n c (startLoc n c)).
  { intros Hpr. pose proof (probeLoop_hits _ _ _ _ Hc0 Hpr _ _ _ Hp). congruence. }
  apply arrayGet_Some in Hs as [Hs0 Hsl].
  assert (Hloc : 0 <= loc /\ found st !! Z.to_nat loc = Some 0)
    by (apply arrayGet_Some, Hv0).
  destruct Htr as [Hcount Hstart Hsearch Hnodup Hreach Hfresh Hfrom Hkeep Hempty].
  assert (Hn0 : 0 <= numSearchHexes st0).
  { destruct app as [|a app]; [cbn in Hcount; lia | apply Hstart; discriminate]. }
  split; cbn [numSearchHexes search found].
  - rewrite length_app, Hcount. cbn. lia.
  - intros _. exact Hn0.
  - intros k x Hk.
    destruct (decide (k < length app)%nat) as [Hlt|Hge].
    + rewrite lookup_app_l in Hk by exact Hlt.
      rewrite list_lookup_insert_ne by lia. apply Hsearch, Hk.
    + rewrite lookup_app_r in Hk by lia.
      destruct (k - length app)%nat as [|m] eqn:Ek; [|discriminate].
      injection Hk as <-.
      replace (Z.to_nat (numSearchHexes st0) + k)%nat
        with (Z.to_nat (numSearchHexes st)) by lia.
      apply list_lookup_insert_eq. eapply lookup_lt_Some, Hsl.
  - apply NoDup_app. split; [exact Hnodup|]. split; [|apply NoDup_singleton].
    intros x Hx ->%list_elem_of_singleton. apply Hnot, (Hreach _ Hx).
  - intros x [Hx| ->%list_elem_of_singleton]%elem_of_app.
    + destruct (Hreach x Hx) as [Hx0 Hpr]. split; [exact Hx0|].
      apply probesTo_insert; assumption.
    + split; [exact Hc0|]. eapply probeLoop_stored; [exact Hp | exact Hv0].
  - intros x [Hx| ->%list_elem_of_singleton]%elem_of_app; [apply Hfresh, Hx|].
    intros Hpr. apply Hnot, Hkeep; assumption.
  - intros x [->|Hx]%elem_of_insert_inv.
    + right. apply elem_of_app. right. apply list_elem_of_here.
    + destruct (Hfrom x Hx) as [H0|Ha]; [left; exact H0|].
      right. apply elem_of_app. left. exact Ha.
  - intros x Hx0 Hpr. apply probesTo_insert; [exact Hx0 | exact Hv0 |].
    apply Hkeep; assumption.
  - rewrite length_app. cbn [length].
    pose proof (emptySlots_insert (found st) (Z.to_nat loc) c (proj2 Hloc) Hc0). lia.
Qed.

Section LineTraceProperties.
Context (double : Type) (dmul ddiv dadd : double -> double -> double)
        (doubleOfInt64 : Z -> double).
Context (lineHexEstimate : LatLng double -> LatLng double -> Z -> H3Error * Z)
        (latLngToCell : LatLng double -> Z -> H3Error * H3Index).

Lemma traceEdge_traced (n res : Z) (origin destination : LatLng double)
    (estimate : Z) (js : list Z) (st0 st st' : TraceState) (app : list Z) :
  traced n st0 st app ->
  stateOf (traceEdge double dmul ddiv dadd doubleOfInt64 latLngToCell n res origin
                     destination estimate js st) = Some st' ->
  exists app', traced n st0 st' app'.
Proof.
  revert st app. induction js as [|j js IH]; intros st app Htr; cbn [traceEdge].
  - intros [= <-]. exists app. exact Htr.
  - destruct (latLngToCell _ res) as [e pointHex].
    assert (Hstop : stateOf (Return e st) = Some st' -> exists app', traced n st0 st' app')
      by (intros [= <-]; exists app; exact Htr).
    destruct e; try exact Hstop.
    destruct (insertFound n pointHex st) as [st1|e1 st1|] eqn:Hins.
    + destruct (insertFound_traced n pointHex st0 st st1 app Htr) as [app1 Htr1];
        [rewrite Hins; reflexivity|].
      apply (IH _ _ Htr1).
    + intros [= <-]. apply (insertFound_traced n pointHex st0 st st1 app Htr).
      rewrite Hins. reflexivity.
    + discriminate.
Qed.

Lemma traceLoop_traced (geoloop : GeoLoop double) (n res : Z) (is_ : list Z)
    (st0 st st' : TraceState) (app : list Z) :
  traced n st0 st app ->
  stateOf (traceLoop double dmul ddiv dadd doubleOfInt64 lineHexEstimate latLngToCell
                     geoloop n res is_ st) = Some st' ->
  exists app', traced n st0 st' app'.
Proof.
  revert st app. induction is_ as [|i is_ IH]; intros st app Htr; cbn [traceLoop].
  - intros [= <-]. exists app. exact Htr.
  - destruct (arrayGet (verts double geoloop) i) as [origin|]; [|discriminate].
    destruct (arrayGet (verts double geoloop) _) as [destination|]; [|discriminate].
    destruct (lineHexEstimate origin destination res) as [e estimate].
    assert (Hstop : stateOf (Return e st) = Some st' -> exists app', traced n st0 st' app')
      by (intros [= <-]; exists app; exact Htr).
    destruct e; try exact Hstop.
    destruct (traceEdge _ _ _ _ _ _ _ _ _ _ _ _ st) as [st1|e1 st1|] eqn:He.
    + destruct (traceEdge_traced n res origin destination estimate
                  (seqZ 0 estimate) st0 st st1 app Htr) as [app1 Htr1];
        [rewrite He; reflexivity|].
      apply (IH _ _ Htr1).
    + intros [= <-]. apply (traceEdge_traced n res origin destination estimate
                              (seqZ 0 estimate) st0 st st1 app Htr).
      rewrite He. reflexivity.
    + discriminate.
Qed.

(** C8. On a successful call of [_getEdgeHexagons] the cells appended to
    the search block, in the slots from the old [*numSearchHexes] on, are
    pairwise distinct and non-zero; [*numSearchHexes] grew by their number,
    which is also the number of slots of the found block that were filled;
    the found block holds what it held before and the appended cells; and a
    cell that was in a well-formed found set before the call is not
    appended. *)
Theorem getEdgeHexagons_appends_distinct (geoloop : GeoLoop double)
    (numHexagons res : Z) (st st' : TraceState) :
  _getEdgeHexagons double dmul ddiv dadd doubleOfInt64 lineHexEstimate
                   latLngToCell geoloop numHexagons res st = Return E_SUCCESS st' ->
  exists appended : list H3Index,
    numSearchHexes st' = numSearchHexes st + Z.of_nat (length appended) /\
    (forall k c, appended !! k = Some c ->
       search st' !! (Z.to_nat (numSearchHexes st) + k)%nat = Some c) /\
    NoDup appended /\
    (forall c, c ∈ appended -> c <> 0 /\ c ∈ found st') /\
    (forall c, c ∈ found st' -> c ∈ found st \/ c ∈ appended) /\
    (emptySlots (found st') + length appended = emptySlots (found st))%nat /\
    (foundSetOK numHexagons (found st) -> forall c, c ∈ appended -> c ∉ found st).
Proof.
  intros Hcall.
  assert (Hst : stateOf (traceLoop double dmul ddiv dadd doubleOfInt64 lineHexEstimate
                           latLngToCell geoloop numHexagons res
                           (seqZ 0 (numVerts double geoloop)) st) = Some st').
  { unfold _getEdgeHexagons in Hcall.
    destruct (traceLoop _ _ _ _ _ _ _ _ _ _ _ st) as [st1|e st1|];
      [injection Hcall as <- | injection Hcall as -> <- | discriminate];
      reflexivity. }
  destruct (traceLoop_traced _ _ _ _ _ _ _ _ (traced_start numHexagons st) Hst)
    as [app [Hcount Hstart Hsearch Hnodup Hreach Hfresh Hfrom Hkeep Hempty]].
  exists app.
  split; [exact Hcount|]. split; [exact Hsearch|]. split; [exact Hnodup|].
  split; [|split; [exact Hfrom|split; [exact Hempty|]]].
  - intros c Hc. destruct (Hreach c Hc) as [Hc0 Hpr].
    split; [exact Hc0 | eapply probesTo_elem, Hpr].
  - intros Hok c Hc Hin. destruct (Hreach c Hc) as [Hc0 _].
    apply (Hfresh c Hc), Hok; assumption.
Qed.
End LineTraceProperties.

(** The probing loop of [insertFound] never runs out of fuel. *)
Lemma insertFound_fuel (found : list Z) (n c loc : Z) :
  probeLoop (Z.to_nat n + 2) found n c loc 0 <> None.
Proof. apply probeLoop_fuel; lia. Qed.

(** C8, on the triangle: five cells are appended, the sixth point is
    skipped. *)
Lemma getEdgeHexagons_appends_distinct_witness :
  triangleTrace =
    Return E_SUCCESS {| numSearchHexes := 5;
                        search := [10; 15; 20; 25; 30];
                        found := [10; 15; 20; 25; 30] |} /\
  exists appended : list H3Index,
    5 = numSearchHexes emptyTrace + Z.of_nat (length appended) /\
    NoDup appended.
Proof.
  assert (Hrun : triangleTrace =
    Return E_SUCCESS {| numSearchHexes := 5;
                        search := [10; 15; 20; 25; 30];
                        found := [10; 15; 20; 25; 30] |})
    by (vm_compute; reflexivity).
  split; [exact Hrun|].
  destruct (getEdgeHexagons_appends_distinct Z Z.mul Z.div Z.add (fun x => x)
              (fun _ _ _ => (E_SUCCESS, 2)) (fun p _ => (E_SUCCESS, lat Z p))
              triangle 5 9 emptyTrace _ Hrun)
    as (appended & Hcount & _ & Hnodup & _).
  exists appended. split; [exact Hcount | exact Hnodup].
Defined.

(** ** Stepping back inside a base cell *)

Lemma set_digit_set_digit (h r x y : Z) :
  1 <= r <= 15 -> 0 <= x < 8 -> 0 <= y < 8 -> U64 h ->
  H3_SET_INDEX_DIGIT (H3_SET_INDEX_DIGIT h r x) r y = H3_SET_INDEX_DIGIT h r y.
Proof.
  intros Hr Hx Hy Hh.
  pose proof (set_digit_U64 h r x Hr Hx Hh) as HU.
  apply index_ext.
  - apply set_digit_U64; assumption.
  - apply set_digit_U64; assumption.
  - rewrite !set_digit_header by assumption. reflexivity.
  - intros r' Hr'. destruct (Z.eq_dec r r') as [<-|Hne].
    + rewrite !get_set_digit_same by assumption. reflexivity.
    + rewrite !get_set_digit_other by assumption. reflexivity.
Qed.

Lemma set_digit_get_digit (h r : Z) :
  1 <= r <= 15 -> U64 h -> H3_SET_INDEX_DIGIT h r (H3_GET_INDEX_DIGIT h r) = h.
Proof.
  intros Hr Hh. pose proof (get_digit_range h r) as Hd.
  apply index_ext.
  - apply set_digit_U64; assumption.
  - exact Hh.
  - apply set_digit_header; assumption.
  - intros r' Hr'. destruct (Z.eq_dec r r') as [<-|Hne].
    + apply get_set_digit_same; assumption.
    + apply get_set_digit_other; assumption.
Qed.

Lemma set_digit_comm (h r r' x y : Z) :
  1 <= r <= 15 -> 1 <= r' <= 15 -> r <> r' -> 0 <= x < 8 -> 0 <= y < 8 -> U64 h ->
  H3_SET_INDEX_DIGIT (H3_SET_INDEX_DIGIT h r x) r' y =
  H3_SET_INDEX_DIGIT (H3_SET_INDEX_DIGIT h r' y) r x.
Proof.
  intros Hr Hr' Hne Hx Hy Hh.
  pose proof (set_digit_U64 h r x Hr Hx Hh) as HU.
  pose proof (set_digit_U64 h r' y Hr' Hy Hh) as HU'.
  apply index_ext.
  - apply set_digit_U64; assumption.
  - apply set_digit_U64; assumption.
  - rewrite !set_digit_header by assumption. reflexivity.
  - intros q Hq. destruct (Z.eq_dec q r) as [->|Hqr]; [|destruct (Z.eq_dec q r') as [->|Hqr']].
    + rewrite get_set_digit_same by assumption.
      rewrite get_set_digit_other by (assumption || congruence).
      rewrite get_set_digit_same by assumption. reflexivity.
    + rewrite get_set_digit_same by assumption.
      rewrite get_set_digit_other by (assumption || congruence).
      rewrite get_set_digit_same by assumption. reflexivity.
    + rewrite !get_set_digit_other by (assumption || congruence). reflexivity.
Qed.

Lemma oppositeDirection_range (d : Z) : 0 <= d < 7 -> 0 <= oppositeDirection d < 7.
Proof. intros Hd. unfold oppositeDirection. destruct (Z.eqb_spec d 0); lia. Qed.

(** One step of the tables is undone by the step in the facing direction,
    and the two carries face each other. *)
Lemma table_step_inverse (pair : TablePair) (d dir : Z) :
  0 <= d < 7 -> 0 <= dir < 7 ->
  tableAt (NEW_DIGIT pair) (tableAt (NEW_DIGIT pair) d dir) (oppositeDirection dir) = d /\
  tableAt (NEW_ADJUSTMENT pair) (tableAt (NEW_DIGIT pair) d dir) (oppositeDirection dir)
    = oppositeDirection (tableAt (NEW_ADJUSTMENT pair) d dir).
Proof.
  intros Hd Hdir. each_digit Hd; each_digit Hdir; destruct pair;
    vm_compute; split; reflexivity.
Qed.

Lemma digitWalk_frame (n : nat) (h dir h' c : Z) :
  (n <= 15)%nat -> U64 h -> 0 <= dir < 7 ->
  digitWalk n h dir = Some (h', c) ->
  U64 h' /\ Z.shiftr h' 45 = Z.shiftr h 45 /\ 0 <= c < 7 /\
  forall r, Z.of_nat n < r <= 15 -> H3_GET_INDEX_DIGIT h' r = H3_GET_INDEX_DIGIT h r.
Proof.
  revert h dir. induction n as [|m IH]; intros h dir Hn Hh Hdir; cbn [digitWalk].
  - intros [= <- <-]. split; [exact Hh|]. split; [reflexivity|]. split; [exact Hdir|].
    intros r _. reflexivity.
  - cbv zeta. pose proof (get_digit_range h (Z.of_nat m + 1)) as Hd.
    destruct (Z.eqb_spec (H3_GET_INDEX_DIGIT h (Z.of_nat m + 1)) 7) as [|Hne7];
      [discriminate|].
    destruct (tableAt_range (tablePairAt (Z.of_nat m + 1))
                (H3_GET_INDEX_DIGIT h (Z.of_nat m + 1)) dir) as [Hnd Hadj]; [lia | lia |].
    assert (Hlvl : 1 <= Z.of_nat m + 1 <= 15) by lia.
    assert (Hnd8 : 0 <= tableAt (NEW_DIGIT (tablePairAt (Z.of_nat m + 1)))
                          (H3_GET_INDEX_DIGIT h (Z.of_nat m + 1)) dir < 8) by lia.
    pose proof (set_digit_U64 h _ _ Hlvl Hnd8 Hh) as HU1.
    pose proof (set_digit_header h _ _ Hlvl Hnd8 Hh) as Hhd1.
    assert (Hm : (m <= 15)%nat) by lia.
    destruct (negb _).
    + intros Hw. destruct (IH _ _ Hm HU1 Hadj Hw) as (HU & Hhd & Hc & Habove).
      split; [exact HU|]. split; [congruence|]. split; [exact Hc|].
      intros r Hr. rewrite Habove by lia.
      apply get_set_digit_other; assumption || lia.
    + intros [= <- <-]. split; [exact HU1|]. split; [exact Hhd1|]. split; [lia|].
      intros r Hr. apply get_set_digit_other; assumption || lia.
Qed.

(** Writing a digit above the levels a walk visits commutes with the walk. *)
Lemma digitWalk_set_above (n : nat) (h dir r x : Z) :
  Z.of_nat n < r <= 15 -> 0 <= x < 8 -> U64 h -> 0 <= dir < 7 ->
  digitWalk n (H3_SET_INDEX_DIGIT h r x) dir =
    match digitWalk n h dir with
    | Some (h', c) => Some (H3_SET_INDEX_DIGIT h' r x, c)
    | None => None
    end.
Proof.
  revert h dir. induction n as [|m IH]; intros h dir Hr Hx Hh Hdir; cbn [digitWalk];
    [reflexivity|].
  cbv zeta. assert (Hlvl : 1 <= Z.of_nat m + 1 <= 15) by lia.
  assert (Hr15 : 1 <= r <= 15) by lia.
  rewrite (get_set_digit_other h r (Z.of_nat m + 1)) by (assumption || lia).
  pose proof (get_digit_range h (Z.of_nat m + 1)) as Hd.
  destruct (Z.eqb_spec (H3_GET_INDEX_DIGIT h (Z.of_nat m + 1)) 7) as [|Hne7];
    [reflexivity|].
  destruct (tableAt_range (tablePairAt (Z.of_nat m + 1))
              (H3_GET_INDEX_DIGIT h (Z.of_nat m + 1)) dir) as [Hnd Hadj];
    [lia | lia |].
  assert (Hnd8 : 0 <= tableAt (NEW_DIGIT (tablePairAt (Z.of_nat m + 1)))
                        (H3_GET_INDEX_DIGIT h (Z.of_nat m + 1)) dir < 8) by lia.
  rewrite (set_digit_comm h r (Z.of_nat m + 1)) by (assumption || lia).
  destruct (negb _); [|reflexivity].
  apply IH; [lia | exact Hx | apply set_digit_U64; assumption | exact Hadj].
Qed.

(** The digit walk in the facing direction undoes the digit walk, and
    leaves the facing carry. *)
Lemma digitWalk_inverse (n : nat) (h dir h' c : Z) :
  (n <= 15)%nat -> U64 h -> 0 <= dir < 7 ->
  digitWalk n h dir = Some (h', c) ->
  digitWalk n h' (oppositeDirection dir) = Some (h, oppositeDirection c).
Proof.
  revert h dir h' c. induction n as [|m IH]; intros h dir h' c Hn Hh Hdir.
  - cbn [digitWalk]. intros [= <- <-]. reflexivity.
  - intros Hw. pose proof Hw as Hw0. cbn [digitWalk] in Hw. cbv zeta in Hw.
    assert (Hlvl : 1 <= Z.of_nat m + 1 <= 15) by lia.
    pose proof (get_digit_range h (Z.of_nat m + 1)) as Hd.
    destruct (Z.eqb_spec (H3_GET_INDEX_DIGIT h (Z.of_nat m + 1)) 7) as [|Hne7];
      [discriminate|].
    assert (Hd7 : 0 <= H3_GET_INDEX_DIGIT h (Z.of_nat m + 1) < 7) by lia.
    destruct (tableAt_range (tablePairAt (Z.of_nat m + 1)) _ dir Hd7 Hdir) as [Hnd Hadj].
    destruct (table_step_inverse (tablePairAt (Z.of_nat m + 1)) _ dir Hd7 Hdir)
      as [Hback Hcarry].
    set (d := H3_GET_INDEX_DIGIT h (Z.of_nat m + 1)) in *.
    set (nd := tableAt (NEW_DIGIT (tablePairAt (Z.of_nat m + 1))) d dir) in *.
    set (a := tableAt (NEW_ADJUSTMENT (tablePairAt (Z.of_nat m + 1))) d dir) in *.
    assert (Hnd8 : 0 <= nd < 8) by lia.
    assert (Hd8 : 0 <= d < 8) by lia.
    pose proof (set_digit_U64 h _ _ Hlvl Hnd8 Hh) as HU1.
    assert (Hm : (m <= 15)%nat) by lia.
    assert (Hundo : H3_SET_INDEX_DIGIT (H3_SET_INDEX_DIGIT h (Z.of_nat m + 1) nd)
                      (Z.of_nat m + 1) d = h).
    { rewrite set_digit_set_digit by assumption. apply set_digit_get_digit; assumption. }
    destruct (Z.eqb_spec a 0) as [Ha|Ha]; cbn [negb] in Hw.
    + injection Hw as <- <-. cbn [digitWalk]. cbv zeta.
      rewrite get_set_digit_same by assumption.
      destruct (Z.eqb_spec nd 7) as [|_]; [lia|].
      rewrite Hback, Hcarry, Ha. cbn. rewrite Hundo. reflexivity.
    + destruct (digitWalk_frame m _ a h' c Hm HU1 Hadj Hw) as (HU & _ & Hc & Habove).
      pose proof (IH _ _ _ _ Hm HU1 Hadj Hw) as Hrec.
      cbn [digitWalk]. cbv zeta.
      rewrite (Habove (Z.of_nat m + 1)) by lia.
      rewrite get_set_digit_same by assumption.
      destruct (Z.eqb_spec nd 7) as [|_]; [lia|].
      rewrite Hback, Hcarry.
      assert (Hoa : oppositeDirection a <> 0)
        by (unfold oppositeDirection; destruct (Z.eqb_spec a 0); lia).
      destruct (Z.eqb_spec (oppositeDirection a) 0) as [|_]; [contradiction|].
      cbn [negb].
      rewrite digitWalk_set_above
        by (assumption || lia || apply oppositeDirection_range; assumption).
      rewrite Hrec, Hundo. reflexivity.
Qed.

(** When the digit walk absorbs the step, the walk of [h3NeighborRotations]
    ends there, with the base cell and [*rotations] untouched. *)
Lemma neighborWalk_absorbed (T : BaseCells) (obc : Z) (n : nat) (h dir rot h' : Z) :
  dir <> CENTER_DIGIT -> digitWalk n h dir = Some (h', CENTER_DIGIT) ->
  neighborWalk T obc n h dir rot = WalkDone h' 0 rot.
Proof.
  revert h dir. induction n as [|m IH]; intros h dir Hdir.
  - cbn [digitWalk]. intros [= _ Hc]. contradiction.
  - rewrite neighborWalk_S. cbn [digitWalk]. cbv zeta.
    destruct (_ =? 7); [discriminate|].
    destruct (Z.eqb_spec (tableAt (NEW_ADJUSTMENT (tablePairAt (Z.of_nat m + 1)))
                            (H3_GET_INDEX_DIGIT h (Z.of_nat m + 1)) dir) 0)
      as [Ha|Ha]; cbn [negb].
    + intros [= <-]. reflexivity.
    + apply IH. exact Ha.
Qed.

(** A step the digit walk absorbs succeeds, with rotation count 0 in and
    out; in a pentagon base cell this needs the result outside the deleted K
    subsequence. *)
Lemma h3NeighborRotations_absorbed (T : BaseCells) (h d h' : Z) :
  U64 h -> 1 <= d <= 6 -> H3_GET_BASE_CELL h < NUM_BASE_CELLS ->
  digitWalk (Z.to_nat (H3_GET_RESOLUTION h)) h d = Some (h', CENTER_DIGIT) ->
  (_isBaseCellPentagon T (H3_GET_BASE_CELL h) = true ->
   _h3LeadingNonZeroDigit h' <> K_AXES_DIGIT) ->
  h3NeighborRotations T h d 0 =
    {| nr_err := E_SUCCESS; nr_rotations := 0; nr_out := Some h' |}.
Proof.
  intros Hh Hd Hbc Hw Hpent.
  pose proof (get_base_cell_range h) as Hbcr.
  pose proof (get_resolution_range h) as Hres.
  assert (Hn : (Z.to_nat (H3_GET_RESOLUTION h) <= 15)%nat) by lia.
  assert (Hd7 : 0 <= d < 7) by lia.
  destruct (digitWalk_frame _ _ _ _ _ Hn Hh Hd7 Hw) as (_ & Hhd & _ & _).
  unfold h3NeighborRotations.
  destruct (Z.ltb_spec d 0); [lia|]. destruct (Z.geb_spec d 7); [lia|]. cbn [orb].
  destruct (Z.ltb_spec (H3_GET_BASE_CELL h) 0); [lia|].
  destruct (Z.geb_spec (H3_GET_BASE_CELL h) 122); [lia|]. cbn [orb].
  change (Z.rem 0 6) with 0. change (repeatZ 0 _rotate60ccw d) with d.
  rewrite (neighborWalk_absorbed T _ _ h d 0 h') by (assumption || lia).
  unfold rotateIntoBaseCell.
  rewrite (base_cell_of_header h' h Hhd).
  destruct (_isBaseCellPentagon T (H3_GET_BASE_CELL h)) eqn:Hp.
  - unfold forceOutOfKSubsequence, orientationAdjust.
    destruct (Z.eqb_spec (_h3LeadingNonZeroDigit h') 1) as [Hk|_];
      [exfalso; apply Hpent; [reflexivity | exact Hk]|].
    rewrite Z.eqb_refl. reflexivity.
  - reflexivity.
Qed.

(** X1. Inside a base cell a step is undone by the step in the facing direction:
    when the digit walk absorbs the step from [origin] in direction [d]
    (no carry reaches the base-cell level) and, in a pentagon base cell,
    neither end lies in the deleted K subsequence, the call succeeds with
    rotation count 0 and the call from its result in the facing direction,
    with that count, gives [origin] back. *)
Theorem step_back_within_base_cell (T : BaseCells) (origin : H3Index)
    (d : Direction) (h' : H3Index) :
  U64 origin -> 1 <= d <= 6 -> H3_GET_BASE_CELL origin < NUM_BASE_CELLS ->
  digitWalk (Z.to_nat (H3_GET_RESOLUTION origin)) origin d = Some (h', CENTER_DIGIT) ->
  (_isBaseCellPentagon T (H3_GET_BASE_CELL origin) = true ->
   _h3LeadingNonZeroDigit origin <> K_AXES_DIGIT /\
   _h3LeadingNonZeroDigit h' <> K_AXES_DIGIT) ->
  h3NeighborRotations T origin d 0 =
    {| nr_err := E_SUCCESS; nr_rotations := 0; nr_out := Some h' |} /\
  h3NeighborRotations T h' (oppositeDirection d) 0 =
    {| nr_err := E_SUCCESS; nr_rotations := 0; nr_out := Some origin |}.
Proof.
  intros Horigin Hd Hbc Hw Hpent.
  pose proof (get_resolution_range origin) as Hres.
  assert (Hn : (Z.to_nat (H3_GET_RESOLUTION origin) <= 15)%nat) by lia.
  assert (Hd7 : 0 <= d < 7) by lia.
  destruct (digitWalk_frame _ _ _ _ _ Hn Horigin Hd7 Hw) as (HU & Hhd & _ & _).
  pose proof (digitWalk_inverse _ _ _ _ _ Hn Horigin Hd7 Hw) as Hback.
  split.
  - apply h3NeighborRotations_absorbed; try assumption.
    intros Hp. apply (Hpent Hp).
  - assert (Hod : 1 <= oppositeDirection d <= 6)
      by (unfold oppositeDirection; destruct (Z.eqb_spec d 0); lia).
    apply h3NeighborRotations_absorbed; try assumption.
    + rewrite (base_cell_of_header h' origin Hhd). exact Hbc.
    + rewrite (resolution_of_header h' origin) by (apply header52_of_header45, Hhd).
      exact Hback.
    + rewrite (base_cell_of_header h' origin Hhd). intros Hp. apply (Hpent Hp).
Qed.

(** Stepping from the resolution-9 cell of benchmarkDirectedEdge.c in
    direction IJ, which carries through the levels 9, 8 and 7, and back in
    direction K. *)
Lemma step_back_within_base_cell_witness :
  exists h',
    h3NeighborRotations exampleBaseCells 0x89283080ddbffff IJ_AXES_DIGIT 0 =
      {| nr_err := E_SUCCESS; nr_rotations := 0; nr_out := Some h' |} /\
    h3NeighborRotations exampleBaseCells h' K_AXES_DIGIT 0 =
      {| nr_err := E_SUCCESS; nr_rotations := 0; nr_out := Some 0x89283080ddbffff |}.
Proof.
  eexists.
  refine (step_back_within_base_cell exampleBaseCells 0x89283080ddbffff
            IJ_AXES_DIGIT _ _ _ _ _ _).
  - unfold U64. lia.
  - lia.
  - vm_compute. reflexivity.
  - vm_compute. reflexivity.
  - vm_compute. discriminate.
Defined.

(** The K direction of the pentagon base cell 4 at resolution 0. *)
Lemma resolution_zero_succeeds_witness :
  nr_err (h3NeighborRotations exampleBaseCells pentagon4 K_AXES_DIGIT 0) = E_SUCCESS.
Proof.
  apply resolution_zero_succeeds.
  - apply (wf_neighbor_field _ exampleBaseCells_WF).
  - apply example_cells_U64.
  - vm_compute. reflexivity.
  - lia.
  - vm_compute. reflexivity.
Defined.

(** X3. The probing loop of [insertFound] stops by itself: with the fuel it is
    given it always ends at a slot, by [E_FAILED] or undefined. *)
Theorem insertFound_probe_terminates (found : list H3Index) (numHexagons : Z)
    (pointHex : H3Index) (loc : Z) :
  exists outcome,
    probeLoop (Z.to_nat numHexagons + 2) found numHexagons pointHex loc 0 = Some outcome.
Proof.
  destruct (probeLoop _ found numHexagons pointHex loc 0) as [outcome|] eqn:Hp.
  - exists outcome. reflexivity.
  - exfalso. exact (insertFound_fuel found numHexagons pointHex loc Hp).
Qed.

(** ** The digit rotations, one against the other *)

Lemma rotate60ccw_fixes (d : Z) : ~ 1 <= d <= 6 -> _rotate60ccw d = d.
Proof.
  intros Hd. destruct d as [|p|p]; try reflexivity.
  destruct p as [[[p|p|]|[p|p|]|]|[[p|p|]|[p|p|]|]|]; try reflexivity; lia.
Qed.

Lemma rotate60cw_fixes (d : Z) : ~ 1 <= d <= 6 -> _rotate60cw d = d.
Proof.
  intros Hd. destruct d as [|p|p]; try reflexivity.
  destruct p as [[[p|p|]|[p|p|]|]|[[p|p|]|[p|p|]|]|]; try reflexivity; lia.
Qed.

Lemma axis_cases (d : Z) :
  1 <= d <= 6 -> d = 1 \/ d = 2 \/ d = 3 \/ d = 4 \/ d = 5 \/ d = 6.
Proof. lia. Qed.

Ltac each_axis H :=
  apply axis_cases in H;
  destruct H as [->|[->|[->|[->|[->| ->]]]]].

Lemma rotate60_cancel (d : Z) :
  _rotate60cw (_rotate60ccw d) = d /\ _rotate60ccw (_rotate60cw d) = d.
Proof.
  destruct (decide (1 <= d <= 6)) as [Hd|Hd].
  - each_axis Hd; split; reflexivity.
  - rewrite (rotate60ccw_fixes d Hd), (rotate60cw_fixes d Hd), (rotate60ccw_fixes d Hd).
    split; reflexivity.
Qed.

(** X4. The two digit rotations are inverse to each other on every value
    of the digit type, and each permutes the six axes digits K .. IJ among
    themselves: [CENTER_DIGIT], [INVALID_DIGIT] and any value out of range
    are left as they are, and no axis digit is sent to one of them. *)
Theorem rotate60_inverse (d : Direction) :
  _rotate60cw (_rotate60ccw d) = d /\
  _rotate60ccw (_rotate60cw d) = d /\
  (1 <= _rotate60ccw d <= 6 <-> 1 <= d <= 6) /\
  (1 <= _rotate60cw d <= 6 <-> 1 <= d <= 6) /\
  (~ 1 <= d <= 6 -> _rotate60ccw d = d /\ _rotate60cw d = d).
Proof.
  destruct (rotate60_cancel d) as [H1 H2].
  split; [exact H1 | split; [exact H2|]].
  destruct (decide (1 <= d <= 6)) as [Hd|Hd].
  - split; [|split]; [| |intros Hn; contradiction];
      each_axis Hd; simpl; lia.
  - rewrite (rotate60ccw_fixes d Hd), (rotate60cw_fixes d Hd).
    split; [tauto | split; [tauto | intros _; split; reflexivity]].
Qed.

(** ** Whole-index rotations, one against the other *)

Lemma h3Rotate60ccw_spec (h : Z) :
  U64 h ->
  U64 (_h3Rotate60ccw h) /\ Z.shiftr (_h3Rotate60ccw h) 45 = Z.shiftr h 45 /\
  forall r, 1 <= r <= 15 ->
    H3_GET_INDEX_DIGIT (_h3Rotate60ccw h) r =
      if r <=? H3_GET_RESOLUTION h then _rotate60ccw (H3_GET_INDEX_DIGIT h r)
      else H3_GET_INDEX_DIGIT h r.
Proof. intros Hh. exact (rotate_whole_spec _ h rotate60ccw_digitMap Hh). Qed.

Lemma h3Rotate60cw_spec (h : Z) :
  U64 h ->
  U64 (_h3Rotate60cw h) /\ Z.shiftr (_h3Rotate60cw h) 45 = Z.shiftr h 45 /\
  forall r, 1 <= r <= 15 ->
    H3_GET_INDEX_DIGIT (_h3Rotate60cw h) r =
      if r <=? H3_GET_RESOLUTION h then _rotate60cw (H3_GET_INDEX_DIGIT h r)
      else H3_GET_INDEX_DIGIT h r.
Proof. intros Hh. exact (rotate_whole_spec _ h rotate60cw_digitMap Hh). Qed.

Lemma resolution_of_header45 (a b : Z) :
  Z.shiftr a 45 = Z.shiftr b 45 -> H3_GET_RESOLUTION a = H3_GET_RESOLUTION b.
Proof. intros Hab. apply resolution_of_header, header52_of_header45, Hab. Qed.

Lemma mode_of_header45 (a b : Z) :
  Z.shiftr a 45 = Z.shiftr b 45 -> H3_GET_MODE a = H3_GET_MODE b.
Proof. intros Hab. apply mode_of_header, header52_of_header45, Hab. Qed.

Lemma h3Rotate60cw_ccw (h : Z) : U64 h -> _h3Rotate60cw (_h3Rotate60ccw h) = h.
Proof.
  intros Hh.
  destruct (h3Rotate60ccw_spec h Hh) as (HU & Hhd & Hdig).
  destruct (h3Rotate60cw_spec _ HU) as (HU' & Hhd' & Hdig').
  apply index_ext; [exact HU' | exact Hh | congruence |].
  intros r Hr. rewrite (Hdig' r Hr), (Hdig r Hr).
  rewrite (resolution_of_header45 _ h Hhd).
  destruct (r <=? H3_GET_RESOLUTION h); [|reflexivity].
  apply rotate60_cancel.
Qed.

Lemma h3Rotate60ccw_cw (h : Z) : U64 h -> _h3Rotate60ccw (_h3Rotate60cw h) = h.
Proof.
  intros Hh.
  destruct (h3Rotate60cw_spec h Hh) as (HU & Hhd & Hdig).
  destruct (h3Rotate60ccw_spec _ HU) as (HU' & Hhd' & Hdig').
  apply index_ext; [exact HU' | exact Hh | congruence |].
  intros r Hr. rewrite (Hdig' r Hr), (Hdig r Hr).
  rewrite (resolution_of_header45 _ h Hhd).
  destruct (r <=? H3_GET_RESOLUTION h); [|reflexivity].
  apply rotate60_cancel.
Qed.

(** X5. On every 64-bit index the clockwise whole-index rotation undoes
    the counter-clockwise one, and the other way round. *)
Theorem h3Rotate60_round_trip (h : H3Index) :
  U64 h ->
  _h3Rotate60cw (_h3Rotate60ccw h) = h /\ _h3Rotate60ccw (_h3Rotate60cw h) = h.
Proof.
  intros Hh. split; [apply h3Rotate60cw_ccw | apply h3Rotate60ccw_cw]; exact Hh.
Qed.

(** X5, at the resolution-9 cell of benchmarkDirectedEdge.c. *)
Lemma h3Rotate60_round_trip_witness :
  _h3Rotate60cw (_h3Rotate60ccw 0x89283080ddbffff) = 0x89283080ddbffff /\
  _h3Rotate60ccw (_h3Rotate60cw 0x89283080ddbffff) = 0x89283080ddbffff.
Proof. apply (h3Rotate60_round_trip 0x89283080ddbffff). unfold U64. lia. Defined.

(** X6. What a whole-index rotation does to a 64-bit index: the digit of
    every level up to the resolution goes through the digit rotation; the
    digits of the finer, unused levels, the base cell, the resolution and the
    mode are left as they are. *)
Theorem h3Rotate60_digits (h : H3Index) :
  U64 h ->
  (forall r, 1 <= r <= 15 ->
     H3_GET_INDEX_DIGIT (_h3Rotate60ccw h) r =
       (if r <=? H3_GET_RESOLUTION h then _rotate60ccw (H3_GET_INDEX_DIGIT h r)
        else H3_GET_INDEX_DIGIT h r) /\
     H3_GET_INDEX_DIGIT (_h3Rotate60cw h) r =
       (if r <=? H3_GET_RESOLUTION h then _rotate60cw (H3_GET_INDEX_DIGIT h r)
        else H3_GET_INDEX_DIGIT h r)) /\
  (H3_GET_MODE (_h3Rotate60ccw h) = H3_GET_MODE h /\
   H3_GET_RESOLUTION (_h3Rotate60ccw h) = H3_GET_RESOLUTION h /\
   H3_GET_BASE_CELL (_h3Rotate60ccw h) = H3_GET_BASE_CELL h) /\
  (H3_GET_MODE (_h3Rotate60cw h) = H3_GET_MODE h /\
   H3_GET_RESOLUTION (_h3Rotate60cw h) = H3_GET_RESOLUTION h /\
   H3_GET_BASE_CELL (_h3Rotate60cw h) = H3_GET_BASE_CELL h).
Proof.
  intros Hh.
  destruct (h3Rotate60ccw_spec h Hh) as (_ & Hhd & Hdig).
  destruct (h3Rotate60cw_spec h Hh) as (_ & Hhd' & Hdig').
  split; [|split].
  - intros r Hr. split; [apply Hdig | apply Hdig']; exact Hr.
  - split; [apply mode_of_header45, Hhd | split;
      [apply resolution_of_header45, Hhd | apply base_cell_of_header, Hhd]].
  - split; [apply mode_of_header45, Hhd' | split;
      [apply resolution_of_header45, Hhd' | apply base_cell_of_header, Hhd']].
Qed.

(** X6, at the resolution-9 cell of benchmarkDirectedEdge.c: its level-9
    digit is [IJ_AXES_DIGIT], its level-10 digit is unused. *)
Lemma h3Rotate60_digits_witness :
  H3_GET_INDEX_DIGIT (_h3Rotate60ccw 0x89283080ddbffff) 9 = J_AXES_DIGIT /\
  H3_GET_INDEX_DIGIT (_h3Rotate60ccw 0x89283080ddbffff) 10 = INVALID_DIGIT /\
  H3_GET_BASE_CELL (_h3Rotate60cw 0x89283080ddbffff) = 20.
Proof.
  assert (HU : U64 0x89283080ddbffff) by (unfold U64; lia).
  destruct (h3Rotate60_digits 0x89283080ddbffff HU) as (Hdig & _ & _ & _ & Hbc).
  split; [|split].
  - rewrite (proj1 (Hdig 9 ltac:(lia))). reflexivity.
  - rewrite (proj1 (Hdig 10 ltac:(lia))). reflexivity.
  - rewrite Hbc. reflexivity.
Defined.

(** ** The leading non-zero digit *)

Lemma levels_zero : levels (Z.of_nat 0) = [].
Proof. reflexivity. Qed.

(** What the scan of the levels [1 .. n] returns: [CENTER_DIGIT] when all
    their digits are zero, otherwise the digit of the first level whose digit
    is not zero. *)
Lemma leadingNonZeroFrom_levels (h : Z) (n : nat) :
  (leadingNonZeroFrom h (levels (Z.of_nat n)) = 0 /\
   forall r, 1 <= r <= Z.of_nat n -> H3_GET_INDEX_DIGIT h r = 0) \/
  (exists r, 1 <= r <= Z.of_nat n /\ H3_GET_INDEX_DIGIT h r <> 0 /\
     leadingNonZeroFrom h (levels (Z.of_nat n)) = H3_GET_INDEX_DIGIT h r /\
     forall r', 1 <= r' < r -> H3_GET_INDEX_DIGIT h r' = 0).
Proof.
  induction n as [|n IH].
  - left. rewrite levels_zero. split; [reflexivity | intros r Hr; lia].
  - rewrite levels_succ, leadingNonZeroFrom_app. cbn [leadingNonZeroFrom].
    destruct IH as [[H0 Hall]|(r & Hr & Hne & Hlead & Hbefore)].
    + rewrite H0. change (0 =? 0) with true. cbv iota.
      destruct (Z.eqb_spec (H3_GET_INDEX_DIGIT h (Z.of_nat n + 1)) 0) as [E0|E0].
      * left. split; [reflexivity|]. intros r Hr.
        destruct (Z.eq_dec r (Z.of_nat n + 1)) as [->|Hne]; [exact E0 | apply Hall; lia].
      * right. exists (Z.of_nat n + 1). split; [lia|]. split; [exact E0|].
        split; [reflexivity|]. intros r' Hr'. apply Hall. lia.
    + rewrite Hlead.
      destruct (Z.eqb_spec (H3_GET_INDEX_DIGIT h r) 0) as [E0|_]; [contradiction|].
      right. exists r. split; [lia|]. split; [exact Hne|].
      split; [reflexivity | exact Hbefore].
Qed.

Lemma leadingNonZero_first (h : Z) :
  (_h3LeadingNonZeroDigit h = CENTER_DIGIT /\
   forall r, 1 <= r <= H3_GET_RESOLUTION h -> H3_GET_INDEX_DIGIT h r = CENTER_DIGIT) \/
  (exists r, 1 <= r <= H3_GET_RESOLUTION h /\ H3_GET_INDEX_DIGIT h r <> CENTER_DIGIT /\
     _h3LeadingNonZeroDigit h = H3_GET_INDEX_DIGIT h r /\
     forall r', 1 <= r' < r -> H3_GET_INDEX_DIGIT h r' = CENTER_DIGIT).
Proof.
  pose proof (get_resolution_range h) as Hres.
  pose proof (leadingNonZeroFrom_levels h (Z.to_nat (H3_GET_RESOLUTION h))) as H.
  rewrite Z2Nat.id in H by lia. exact H.
Qed.

Lemma leadingNonZero_range (h : Z) : 0 <= _h3LeadingNonZeroDigit h < 8.
Proof.
  destruct (leadingNonZero_first h) as [[-> _]|(r & _ & _ & -> & _)];
    [lia | apply get_digit_range].
Qed.

(** The leading digit is the digit of a level [m] once the coarser levels
    hold zero and level [m] does not. *)
Lemma leadingNonZero_at (h m : Z) :
  1 <= m <= H3_GET_RESOLUTION h -> H3_GET_INDEX_DIGIT h m <> 0 ->
  (forall r, 1 <= r < m -> H3_GET_INDEX_DIGIT h r = 0) ->
  _h3LeadingNonZeroDigit h = H3_GET_INDEX_DIGIT h m.
Proof.
  intros Hm Hne Hbefore.
  destruct (leadingNonZero_first h) as [[_ Hall]|(r & Hr & Hrne & -> & Hrbefore)].
  - exfalso. apply Hne, Hall, Hm.
  - destruct (Z.lt_trichotomy r m) as [Hlt|[->|Hgt]]; [|reflexivity|].
    + exfalso. apply Hrne, Hbefore. lia.
    + exfalso. apply Hne, Hrbefore. lia.
Qed.

(** X7. [_h3LeadingNonZeroDigit] returns the digit of the coarsest level,
    among the levels 1 up to the resolution, whose digit is not zero, and
    [CENTER_DIGIT] exactly when there is none; the unused finer levels are
    never looked at, so the result is a 3-bit value that may be
    [INVALID_DIGIT] only if a used level holds it. *)
Theorem leadingNonZeroDigit_first_nonzero (h : H3Index) :
  ((_h3LeadingNonZeroDigit h = CENTER_DIGIT /\
    forall r, 1 <= r <= H3_GET_RESOLUTION h -> H3_GET_INDEX_DIGIT h r = CENTER_DIGIT) \/
   (exists r, 1 <= r <= H3_GET_RESOLUTION h /\
      H3_GET_INDEX_DIGIT h r <> CENTER_DIGIT /\
      _h3LeadingNonZeroDigit h = H3_GET_INDEX_DIGIT h r /\
      forall r', 1 <= r' < r -> H3_GET_INDEX_DIGIT h r' = CENTER_DIGIT)) /\
  (_h3LeadingNonZeroDigit h = CENTER_DIGIT <->
   forall r, 1 <= r <= H3_GET_RESOLUTION h -> H3_GET_INDEX_DIGIT h r = CENTER_DIGIT) /\
  0 <= _h3LeadingNonZeroDigit h < 8.
Proof.
  split; [apply leadingNonZero_first|].
  split; [apply leadingNonZero_zero | apply leadingNonZero_range].
Qed.

(** When the digits of the used levels of [a] are those of [h] mapped through
    [f], and [f] sends zero, and only zero, to zero, the leading digit of [a]
    is that of [h] mapped through [f]. *)
Lemma leadingNonZeroFrom_map (f : Z -> Z) (a h : Z) (rs : list Z) :
  f 0 = 0 -> (forall d, 0 <= d < 8 -> f d = 0 -> d = 0) ->
  (forall r, r ∈ rs -> H3_GET_INDEX_DIGIT a r = f (H3_GET_INDEX_DIGIT h r)) ->
  leadingNonZeroFrom a rs = f (leadingNonZeroFrom h rs).
Proof.
  intros Hf0 Hfz. induction rs as [|r0 rs IH]; intros Hdig; cbn [leadingNonZeroFrom].
  - symmetry. exact Hf0.
  - rewrite (Hdig r0) by left.
    pose proof (get_digit_range h r0) as Hd.
    destruct (Z.eqb_spec (H3_GET_INDEX_DIGIT h r0) 0) as [E0|E0].
    + rewrite E0, Hf0. change (0 =? 0) with true. cbv iota.
      apply IH. intros r Hr. apply Hdig. right. exact Hr.
    + destruct (Z.eqb_spec (f (H3_GET_INDEX_DIGIT h r0)) 0) as [Ef|_]; [|reflexivity].
      exfalso. apply E0, Hfz; assumption.
Qed.

Lemma leadingNonZero_map (f : Z -> Z) (a h : Z) :
  f 0 = 0 -> (forall d, 0 <= d < 8 -> f d = 0 -> d = 0) ->
  H3_GET_RESOLUTION a = H3_GET_RESOLUTION h ->
  (forall r, 1 <= r <= H3_GET_RESOLUTION h ->
     H3_GET_INDEX_DIGIT a r = f (H3_GET_INDEX_DIGIT h r)) ->
  _h3LeadingNonZeroDigit a = f (_h3LeadingNonZeroDigit h).
Proof.
  intros Hf0 Hfz Hres Hdig. unfold _h3LeadingNonZeroDigit. rewrite Hres.
  apply leadingNonZeroFrom_map; [exact Hf0 | exact Hfz |].
  intros r Hr. apply Hdig, elem_of_levels, Hr.
Qed.

Lemma digit8_cases (d : Z) :
  0 <= d < 8 ->
  d = 0 \/ d = 1 \/ d = 2 \/ d = 3 \/ d = 4 \/ d = 5 \/ d = 6 \/ d = 7.
Proof. lia. Qed.

Ltac each_digit8 H :=
  apply digit8_cases in H;
  destruct H as [->|[->|[->|[->|[->|[->|[->| ->]]]]]]].

Lemma rotate60ccw_zero (d : Z) : _rotate60ccw d = 0 <-> d = 0.
Proof.
  destruct (decide (1 <= d <= 6)) as [Hd|Hd].
  - each_axis Hd; simpl; lia.
  - rewrite (rotate60ccw_fixes d Hd). tauto.
Qed.

Lemma rotate60cw_zero (d : Z) : _rotate60cw d = 0 <-> d = 0.
Proof.
  destruct (decide (1 <= d <= 6)) as [Hd|Hd].
  - each_axis Hd; simpl; lia.
  - rewrite (rotate60cw_fixes d Hd). tauto.
Qed.

Lemma h3Rotate60ccw_leading (h : Z) :
  U64 h -> _h3LeadingNonZeroDigit (_h3Rotate60ccw h) = _rotate60ccw (_h3LeadingNonZeroDigit h).
Proof.
  intros Hh. destruct (h3Rotate60ccw_spec h Hh) as (_ & Hhd & Hdig).
  apply leadingNonZero_map.
  - reflexivity.
  - intros d _ Hd. apply rotate60ccw_zero, Hd.
  - apply resolution_of_header45, Hhd.
  - intros r Hr. pose proof (get_resolution_range h). rewrite Hdig by lia.
    destruct (Z.leb_spec r (H3_GET_RESOLUTION h)); [reflexivity | lia].
Qed.

Lemma h3Rotate60cw_leading (h : Z) :
  U64 h -> _h3LeadingNonZeroDigit (_h3Rotate60cw h) = _rotate60cw (_h3LeadingNonZeroDigit h).
Proof.
  intros Hh. destruct (h3Rotate60cw_spec h Hh) as (_ & Hhd & Hdig).
  apply leadingNonZero_map.
  - reflexivity.
  - intros d _ Hd. apply rotate60cw_zero, Hd.
  - apply resolution_of_header45, Hhd.
  - intros r Hr. pose proof (get_resolution_range h). rewrite Hdig by lia.
    destruct (Z.leb_spec r (H3_GET_RESOLUTION h)); [reflexivity | lia].
Qed.

(** X8. The leading non-zero digit goes along with a whole-index rotation:
    that of the rotated index is the rotation of that of the index. *)
Theorem leadingNonZeroDigit_rotates (h : H3Index) :
  U64 h ->
  _h3LeadingNonZeroDigit (_h3Rotate60ccw h) = _rotate60ccw (_h3LeadingNonZeroDigit h) /\
  _h3LeadingNonZeroDigit (_h3Rotate60cw h) = _rotate60cw (_h3LeadingNonZeroDigit h).
Proof.
  intros Hh. split; [apply h3Rotate60ccw_leading | apply h3Rotate60cw_leading]; exact Hh.
Qed.

(** X8, at the resolution-9 cell of benchmarkDirectedEdge.c, whose leading
    digit is [IJ_AXES_DIGIT]. *)
Lemma leadingNonZeroDigit_rotates_witness :
  _h3LeadingNonZeroDigit (_h3Rotate60ccw 0x89283080ddbffff) = J_AXES_DIGIT /\
  _h3LeadingNonZeroDigit (_h3Rotate60cw 0x89283080ddbffff) = I_AXES_DIGIT.
Proof.
  assert (HU : U64 0x89283080ddbffff) by (unfold U64; lia).
  destruct (leadingNonZeroDigit_rotates 0x89283080ddbffff HU) as [-> ->].
  split; reflexivity.
Defined.

(** ** Rotations about a pentagon *)

Section PentagonRotation.
Variable rot : Direction -> Direction.
Variable whole : H3Index -> H3Index.
Variable pre : Direction.
Hypothesis rot_digit : digitMap rot.
Hypothesis rot_zero : forall d, rot d = 0 <-> d = 0.
Hypothesis rot_pre : forall d, 0 <= d < 8 -> (rot d = K_AXES_DIGIT <-> d = pre).
Hypothesis whole_spec : forall x, U64 x ->
  U64 (whole x) /\ Z.shiftr (whole x) 45 = Z.shiftr x 45 /\
  forall r, 1 <= r <= 15 ->
    H3_GET_INDEX_DIGIT (whole x) r =
      if r <=? H3_GET_RESOLUTION x then rot (H3_GET_INDEX_DIGIT x r)
      else H3_GET_INDEX_DIGIT x r.

Lemma rot_center : rot 0 = 0.
Proof. apply rot_zero. reflexivity. Qed.

Lemma iter_rot_zero (k : nat) : Nat.iter k rot 0 = 0.
Proof. induction k as [|k IH]; [reflexivity|]. simpl. rewrite IH. exact rot_center. Qed.

(** The loop of a pentagon rotation after the levels [1 .. n]: while the
    flag is down every digit met was zero and the index is untouched; once it
    is up, the levels met have had all their rotations and the levels to come
    lack the one of the loop. *)
Lemma rotatePent_prefix (h : Z) (n : nat) :
  U64 h -> Z.of_nat n <= H3_GET_RESOLUTION h ->
  forall hn bn,
    fold_left (rotatePentStep rot whole) (levels (Z.of_nat n)) (h, false) = (hn, bn) ->
    U64 hn /\ Z.shiftr hn 45 = Z.shiftr h 45 /\
    (bn = false ->
       (forall r, 1 <= r <= Z.of_nat n -> H3_GET_INDEX_DIGIT h r = 0) /\
       (forall r, 1 <= r <= 15 -> H3_GET_INDEX_DIGIT hn r = H3_GET_INDEX_DIGIT h r)) /\
    (bn = true ->
       forall r, 1 <= r <= 15 ->
         H3_GET_INDEX_DIGIT hn r =
           if r <=? Z.of_nat n
           then Nat.iter (pentRotations pre (_h3LeadingNonZeroDigit h)) rot
                         (H3_GET_INDEX_DIGIT h r)
           else if r <=? H3_GET_RESOLUTION h
           then Nat.iter (pentRotations pre (_h3LeadingNonZeroDigit h) - 1) rot
                         (H3_GET_INDEX_DIGIT h r)
           else H3_GET_INDEX_DIGIT h r).
Proof.
  intros Hh. pose proof (get_resolution_range h) as Hres.
  induction n as [|n IH]; intros Hn hn bn Hst.
  - rewrite levels_zero in Hst. cbn [fold_left] in Hst. injection Hst as <- <-.
    split; [exact Hh|]. split; [reflexivity|]. split.
    + intros _. split; [intros r Hr; lia | intros r _; reflexivity].
    + discriminate.
  - rewrite levels_succ, fold_left_app in Hst. cbn [fold_left] in Hst.
    destruct (fold_left (rotatePentStep rot whole) (levels (Z.of_nat n)) (h, false))
      as [h0 b0] eqn:E0.
    assert (Hn0 : Z.of_nat n <= H3_GET_RESOLUTION h) by lia.
    destruct (IH Hn0 h0 b0 eq_refl) as (HU0 & Hhd0 & Hfalse & Htrue).
    assert (Hm : 1 <= Z.of_nat n + 1 <= 15) by lia.
    assert (HmS : Z.of_nat (S n) = Z.of_nat n + 1) by lia.
    rewrite HmS in *. clear HmS.
    set (m := Z.of_nat n + 1) in *.
    pose proof (rot_digit _ (get_digit_range h0 m)) as Hrd.
    pose proof (set_digit_U64 h0 m _ Hm Hrd HU0) as HU1.
    pose proof (set_digit_header h0 m _ Hm Hrd HU0) as Hhd1.
    pose proof (get_set_digit_same h0 m _ Hm Hrd HU0) as Hsame.
    assert (Hother : forall r, 1 <= r <= 15 -> r <> m ->
              H3_GET_INDEX_DIGIT (H3_SET_INDEX_DIGIT h0 m (rot (H3_GET_INDEX_DIGIT h0 m))) r
              = H3_GET_INDEX_DIGIT h0 r).
    { intros r Hr Hne. apply get_set_digit_other; try assumption. congruence. }
    unfold rotatePentStep in Hst.
    set (h1 := H3_SET_INDEX_DIGIT h0 m (rot (H3_GET_INDEX_DIGIT h0 m))) in *.
    assert (Hhd1' : Z.shiftr h1 45 = Z.shiftr h 45) by (rewrite Hhd1; exact Hhd0).
    destruct b0.
    + cbn [negb andb] in Hst. injection Hst as <- <-.
      split; [exact HU1|]. split; [exact Hhd1'|]. split; [discriminate|].
      intros _ r Hr. specialize (Htrue eq_refl).
      destruct (Z.eq_dec r m) as [->|Hne].
      * rewrite Hsame, (Htrue m Hm).
        destruct (Z.leb_spec m (Z.of_nat n)) as [Hle|_]; [lia|].
        destruct (Z.leb_spec m (H3_GET_RESOLUTION h)) as [_|Hgt]; [|lia].
        destruct (Z.leb_spec m m) as [_|Hgt]; [|lia].
        unfold pentRotations. destruct (_ =? pre); reflexivity.
      * rewrite (Hother r Hr Hne), (Htrue r Hr).
        destruct (Z.leb_spec r (Z.of_nat n)), (Z.leb_spec r m); try lia; reflexivity.
    + destruct (Hfalse eq_refl) as [Hzero Hsameh]. clear Hfalse Htrue.
      cbn [negb andb] in Hst. rewrite Hsame, (Hsameh m Hm) in Hst.
      pose proof (get_digit_range h m) as Hd.
      assert (Hbefore : forall r, 1 <= r < m -> H3_GET_INDEX_DIGIT h r = 0)
        by (intros r Hr; apply Hzero; lia).
      assert (Hd1 : forall r, 1 <= r <= 15 -> r <> m ->
                H3_GET_INDEX_DIGIT h1 r = H3_GET_INDEX_DIGIT h r).
      { intros r Hr Hne. rewrite (Hother r Hr Hne). apply Hsameh, Hr. }
      assert (Hdm : H3_GET_INDEX_DIGIT h1 m = rot (H3_GET_INDEX_DIGIT h m))
        by (rewrite Hsame, (Hsameh m Hm); reflexivity).
      destruct (Z.eqb_spec (rot (H3_GET_INDEX_DIGIT h m)) 0) as [Ez|Enz];
        cbn [negb] in Hst.
      * injection Hst as <- <-. apply (proj1 (rot_zero _)) in Ez.
        split; [exact HU1|]. split; [exact Hhd1'|]. split; [|discriminate].
        intros _. split.
        -- intros r Hr. destruct (Z.eq_dec r m) as [->|Hne]; [exact Ez | apply Hzero; lia].
        -- intros r Hr. destruct (Z.eq_dec r m) as [->|Hne]; [|apply Hd1; assumption].
           rewrite Hdm, Ez. exact rot_center.
      * assert (Hdnz : H3_GET_INDEX_DIGIT h m <> 0)
          by (intros E; apply Enz; rewrite E; exact rot_center).
        assert (Hlead : _h3LeadingNonZeroDigit h = H3_GET_INDEX_DIGIT h m)
          by (apply leadingNonZero_at; [lia | exact Hdnz | exact Hbefore]).
        assert (Hres1 : H3_GET_RESOLUTION h1 = H3_GET_RESOLUTION h)
          by (apply resolution_of_header45, Hhd1').
        assert (Hlead1 : _h3LeadingNonZeroDigit h1 = rot (H3_GET_INDEX_DIGIT h m)).
        { rewrite <- Hdm. apply leadingNonZero_at.
          - rewrite Hres1. lia.
          - rewrite Hdm. exact Enz.
          - intros r Hr. rewrite Hd1 by lia. apply Hbefore, Hr. }
        rewrite Hlead1 in Hst.
        destruct (Z.eqb_spec (rot (H3_GET_INDEX_DIGIT h m)) 1) as [E1|E1].
        -- injection Hst as <- <-.
           assert (Hk : pentRotations pre (_h3LeadingNonZeroDigit h) = 2%nat).
           { unfold pentRotations. rewrite Hlead.
             apply (rot_pre _ Hd) in E1. rewrite E1, Z.eqb_refl. reflexivity. }
           destruct (whole_spec h1 HU1) as (HUw & Hhdw & Hdigw).
           split; [exact HUw|]. split; [rewrite Hhdw; exact Hhd1'|].
           split; [discriminate|]. intros _ r Hr.
           rewrite (Hdigw r Hr), Hres1, Hk.
           change (Nat.iter (2 - 1) rot (H3_GET_INDEX_DIGIT h r))
             with (rot (H3_GET_INDEX_DIGIT h r)).
           change (Nat.iter 2 rot (H3_GET_INDEX_DIGIT h r))
             with (rot (rot (H3_GET_INDEX_DIGIT h r))).
           destruct (Z.eq_dec r m) as [->|Hne].
           ++ rewrite Hdm.
              destruct (Z.leb_spec m (H3_GET_RESOLUTION h)); [|lia].
              destruct (Z.leb_spec m m); [reflexivity | lia].
           ++ rewrite (Hd1 r Hr Hne).
              destruct (Z.leb_spec r (H3_GET_RESOLUTION h)), (Z.leb_spec r m);
                try lia; try reflexivity.
              rewrite Hbefore by lia.
              rewrite !rot_center. reflexivity.
        -- injection Hst as <- <-.
           assert (Hk : pentRotations pre (_h3LeadingNonZeroDigit h) = 1%nat).
           { unfold pentRotations. rewrite Hlead.
             destruct (Z.eqb_spec (H3_GET_INDEX_DIGIT h m) pre) as [Ep|_]; [|reflexivity].
             exfalso. apply E1, (rot_pre _ Hd), Ep. }
           split; [exact HU1|]. split; [exact Hhd1'|].
           split; [discriminate|]. intros _ r Hr. rewrite Hk.
           change (Nat.iter (1 - 1) rot (H3_GET_INDEX_DIGIT h r))
             with (H3_GET_INDEX_DIGIT h r).
           change (Nat.iter 1 rot (H3_GET_INDEX_DIGIT h r))
             with (rot (H3_GET_INDEX_DIGIT h r)).
           destruct (Z.eq_dec r m) as [->|Hne].
           ++ rewrite Hdm. destruct (Z.leb_spec m m); [reflexivity | lia].
           ++ rewrite (Hd1 r Hr Hne).
              destruct (Z.leb_spec r m).
              ** rewrite Hbefore by lia. symmetry. exact rot_center.
              ** destruct (r <=? H3_GET_RESOLUTION h); reflexivity.
Qed.

(** A pentagon rotation of a 64-bit index: the digit of every level up to
    the resolution goes once through the digit rotation, twice when the
    leading digit is [pre]; nothing else changes. *)
Lemma rotatePent_spec (h : Z) :
  U64 h ->
  let p := fst (fold_left (rotatePentStep rot whole)
                          (levels (H3_GET_RESOLUTION h)) (h, false)) in
  U64 p /\ Z.shiftr p 45 = Z.shiftr h 45 /\
  forall r, 1 <= r <= 15 ->
    H3_GET_INDEX_DIGIT p r =
      if r <=? H3_GET_RESOLUTION h
      then Nat.iter (pentRotations pre (_h3LeadingNonZeroDigit h)) rot
                    (H3_GET_INDEX_DIGIT h r)
      else H3_GET_INDEX_DIGIT h r.
Proof.
  intros Hh p. pose proof (get_resolution_range h) as Hres.
  pose proof (rotatePent_prefix h (Z.to_nat (H3_GET_RESOLUTION h)) Hh) as Hpre.
  rewrite Z2Nat.id in Hpre by lia. subst p.
  destruct (fold_left _ _ _) as [hn bn].
  destruct (Hpre ltac:(lia) hn bn eq_refl) as (HU & Hhd & Hfalse & Htrue).
  cbn [fst]. split; [exact HU|]. split; [exact Hhd|]. intros r Hr.
  destruct bn.
  - rewrite (Htrue eq_refl r Hr).
    destruct (r <=? H3_GET_RESOLUTION h); reflexivity.
  - destruct (Hfalse eq_refl) as [Hzero Hsame]. rewrite (Hsame r Hr).
    destruct (Z.leb_spec r (H3_GET_RESOLUTION h)); [|reflexivity].
    rewrite Hzero by lia. symmetry. apply iter_rot_zero.
Qed.
End PentagonRotation.

Lemma rotate60ccw_K (d : Z) : 0 <= d < 8 -> (_rotate60ccw d = K_AXES_DIGIT <-> d = JK_AXES_DIGIT).
Proof. intros Hd. each_digit8 Hd; simpl; lia. Qed.

Lemma rotate60cw_K (d : Z) : 0 <= d < 8 -> (_rotate60cw d = K_AXES_DIGIT <-> d = IK_AXES_DIGIT).
Proof. intros Hd. each_digit8 Hd; simpl; lia. Qed.

Lemma h3RotatePent60ccw_spec (h : Z) :
  U64 h ->
  U64 (_h3RotatePent60ccw h) /\ Z.shiftr (_h3RotatePent60ccw h) 45 = Z.shiftr h 45 /\
  forall r, 1 <= r <= 15 ->
    H3_GET_INDEX_DIGIT (_h3RotatePent60ccw h) r =
      if r <=? H3_GET_RESOLUTION h
      then Nat.iter (pentRotations JK_AXES_DIGIT (_h3LeadingNonZeroDigit h)) _rotate60ccw
                    (H3_GET_INDEX_DIGIT h r)
      else H3_GET_INDEX_DIGIT h r.
Proof.
  intros Hh.
  exact (rotatePent_spec _rotate60ccw _h3Rotate60ccw JK_AXES_DIGIT rotate60ccw_digitMap
           rotate60ccw_zero rotate60ccw_K h3Rotate60ccw_spec h Hh).
Qed.

Lemma h3RotatePent60cw_spec (h : Z) :
  U64 h ->
  U64 (_h3RotatePent60cw h) /\ Z.shiftr (_h3RotatePent60cw h) 45 = Z.shiftr h 45 /\
  forall r, 1 <= r <= 15 ->
    H3_GET_INDEX_DIGIT (_h3RotatePent60cw h) r =
      if r <=? H3_GET_RESOLUTION h
      then Nat.iter (pentRotations IK_AXES_DIGIT (_h3LeadingNonZeroDigit h)) _rotate60cw
                    (H3_GET_INDEX_DIGIT h r)
      else H3_GET_INDEX_DIGIT h r.
Proof.
  intros Hh.
  exact (rotatePent_spec _rotate60cw _h3Rotate60cw IK_AXES_DIGIT rotate60cw_digitMap
           rotate60cw_zero rotate60cw_K h3Rotate60cw_spec h Hh).
Qed.

(** A pentagon rotation is one whole-index rotation, or two. *)
Lemma h3RotatePent60ccw_iter (h : Z) :
  U64 h ->
  _h3RotatePent60ccw h =
    Nat.iter (pentRotations JK_AXES_DIGIT (_h3LeadingNonZeroDigit h)) _h3Rotate60ccw h.
Proof.
  intros Hh.
  destruct (h3RotatePent60ccw_spec h Hh) as (HU & Hhd & Hdig).
  destruct (rotate_iter_spec _rotate60ccw
              (pentRotations JK_AXES_DIGIT (_h3LeadingNonZeroDigit h)) h
              rotate60ccw_digitMap Hh) as (HU' & Hhd' & Hdig').
  apply index_ext; [exact HU | exact HU' | |].
  - rewrite Hhd. symmetry. exact Hhd'.
  - intros r Hr. rewrite (Hdig r Hr). symmetry. exact (Hdig' r Hr).
Qed.

Lemma h3RotatePent60cw_iter (h : Z) :
  U64 h ->
  _h3RotatePent60cw h =
    Nat.iter (pentRotations IK_AXES_DIGIT (_h3LeadingNonZeroDigit h)) _h3Rotate60cw h.
Proof.
  intros Hh.
  destruct (h3RotatePent60cw_spec h Hh) as (HU & Hhd & Hdig).
  destruct (rotate_iter_spec _rotate60cw
              (pentRotations IK_AXES_DIGIT (_h3LeadingNonZeroDigit h)) h
              rotate60cw_digitMap Hh) as (HU' & Hhd' & Hdig').
  apply index_ext; [exact HU | exact HU' | |].
  - rewrite Hhd. symmetry. exact Hhd'.
  - intros r Hr. rewrite (Hdig r Hr). symmetry. exact (Hdig' r Hr).
Qed.

(** X9. A pentagon rotation of a 64-bit index is the whole-index rotation,
    applied twice when the leading non-zero digit is the one the rotation
    sends to [K_AXES_DIGIT] (JK counter-clockwise, IK clockwise) and once
    otherwise. *)
Theorem h3RotatePent60_rotations (h : H3Index) :
  U64 h ->
  _h3RotatePent60ccw h =
    (if _h3LeadingNonZeroDigit h =? JK_AXES_DIGIT
     then _h3Rotate60ccw (_h3Rotate60ccw h) else _h3Rotate60ccw h) /\
  _h3RotatePent60cw h =
    (if _h3LeadingNonZeroDigit h =? IK_AXES_DIGIT
     then _h3Rotate60cw (_h3Rotate60cw h) else _h3Rotate60cw h).
Proof.
  intros Hh. rewrite (h3RotatePent60ccw_iter h Hh), (h3RotatePent60cw_iter h Hh).
  unfold pentRotations. split; destruct (_ =? _); reflexivity.
Qed.

(** X9, at the resolution-9 cell of benchmarkDirectedEdge.c (leading digit
    IJ: one rotation) and at the resolution-2 cell of base cell 4 with the
    digits JK, JK (two rotations). *)
Lemma h3RotatePent60_rotations_witness :
  _h3RotatePent60ccw 0x89283080ddbffff = _h3Rotate60ccw 0x89283080ddbffff /\
  _h3RotatePent60ccw (setH3Index 2 4 JK_AXES_DIGIT) = setH3Index 2 4 IK_AXES_DIGIT.
Proof.
  split.
  - rewrite (proj1 (h3RotatePent60_rotations 0x89283080ddbffff ltac:(unfold U64; lia))).
    reflexivity.
  - rewrite (proj1 (h3RotatePent60_rotations (setH3Index 2 4 JK_AXES_DIGIT)
                      ltac:(unfold U64; vm_compute; split; discriminate || reflexivity))).
    vm_compute. reflexivity.
Defined.

Lemma h3RotatePent60ccw_leading (h : Z) :
  U64 h ->
  _h3LeadingNonZeroDigit (_h3RotatePent60ccw h) =
    Nat.iter (pentRotations JK_AXES_DIGIT (_h3LeadingNonZeroDigit h)) _rotate60ccw
             (_h3LeadingNonZeroDigit h).
Proof.
  intros Hh. rewrite (h3RotatePent60ccw_iter h Hh).
  destruct (h3Rotate60ccw_spec h Hh) as (HU & _ & _).
  unfold pentRotations. destruct (_ =? 3); cbn [Nat.iter nat_rect].
  - rewrite (h3Rotate60ccw_leading _ HU), (h3Rotate60ccw_leading h Hh). reflexivity.
  - apply h3Rotate60ccw_leading, Hh.
Qed.

Lemma h3RotatePent60cw_leading (h : Z) :
  U64 h ->
  _h3LeadingNonZeroDigit (_h3RotatePent60cw h) =
    Nat.iter (pentRotations IK_AXES_DIGIT (_h3LeadingNonZeroDigit h)) _rotate60cw
             (_h3LeadingNonZeroDigit h).
Proof.
  intros Hh. rewrite (h3RotatePent60cw_iter h Hh).
  destruct (h3Rotate60cw_spec h Hh) as (HU & _ & _).
  unfold pentRotations. destruct (_ =? 5); cbn [Nat.iter nat_rect].
  - rewrite (h3Rotate60cw_leading _ HU), (h3Rotate60cw_leading h Hh). reflexivity.
  - apply h3Rotate60cw_leading, Hh.
Qed.

Lemma h3RotatePent60ccw_not_K (h : Z) :
  U64 h -> _h3LeadingNonZeroDigit (_h3RotatePent60ccw h) <> K_AXES_DIGIT.
Proof.
  intros Hh. rewrite (h3RotatePent60ccw_leading h Hh).
  generalize (leadingNonZero_range h). generalize (_h3LeadingNonZeroDigit h).
  intros L HL. each_digit8 HL; vm_compute; discriminate.
Qed.

Lemma h3RotatePent60cw_not_K (h : Z) :
  U64 h -> _h3LeadingNonZeroDigit (_h3RotatePent60cw h) <> K_AXES_DIGIT.
Proof.
  intros Hh. rewrite (h3RotatePent60cw_leading h Hh).
  generalize (leadingNonZero_range h). generalize (_h3LeadingNonZeroDigit h).
  intros L HL. each_digit8 HL; vm_compute; discriminate.
Qed.

(** X10. A pentagon rotation never lands in the deleted K subsequence:
    whatever the 64-bit index, the leading non-zero digit of the result is
    not [K_AXES_DIGIT]; the base cell, the resolution and the mode are kept. *)
Theorem h3RotatePent60_avoids_K (h : H3Index) :
  U64 h ->
  (_h3LeadingNonZeroDigit (_h3RotatePent60ccw h) <> K_AXES_DIGIT /\
   _h3LeadingNonZeroDigit (_h3RotatePent60cw h) <> K_AXES_DIGIT) /\
  (H3_GET_BASE_CELL (_h3RotatePent60ccw h) = H3_GET_BASE_CELL h /\
   H3_GET_RESOLUTION (_h3RotatePent60ccw h) = H3_GET_RESOLUTION h /\
   H3_GET_MODE (_h3RotatePent60ccw h) = H3_GET_MODE h) /\
  (H3_GET_BASE_CELL (_h3RotatePent60cw h) = H3_GET_BASE_CELL h /\
   H3_GET_RESOLUTION (_h3RotatePent60cw h) = H3_GET_RESOLUTION h /\
   H3_GET_MODE (_h3RotatePent60cw h) = H3_GET_MODE h).
Proof.
  intros Hh.
  destruct (h3RotatePent60ccw_spec h Hh) as (_ & Hhd & _).
  destruct (h3RotatePent60cw_spec h Hh) as (_ & Hhd' & _).
  split; [split; [apply h3RotatePent60ccw_not_K | apply h3RotatePent60cw_not_K]; exact Hh|].
  split.
  - split; [apply base_cell_of_header, Hhd | split;
      [apply resolution_of_header45, Hhd | apply mode_of_header45, Hhd]].
  - split; [apply base_cell_of_header, Hhd' | split;
      [apply resolution_of_header45, Hhd' | apply mode_of_header45, Hhd']].
Qed.

(** X10, at the resolution-2 cell of base cell 4 with the digits JK, JK,
    which one digit rotation would send to K, K. *)
Lemma h3RotatePent60_avoids_K_witness :
  _h3LeadingNonZeroDigit (_h3Rotate60ccw (setH3Index 2 4 JK_AXES_DIGIT)) = K_AXES_DIGIT /\
  _h3LeadingNonZeroDigit (_h3RotatePent60ccw (setH3Index 2 4 JK_AXES_DIGIT)) <> K_AXES_DIGIT.
Proof.
  split; [vm_compute; reflexivity|].
  apply (h3RotatePent60_avoids_K (setH3Index 2 4 JK_AXES_DIGIT)).
  unfold U64. vm_compute. split; discriminate || reflexivity.
Defined.

Lemma h3Rotate60ccw_iter6 (h : Z) : U64 h -> Nat.iter 6 _h3Rotate60ccw h = h.
Proof.
  intros Hh.
  destruct (rotate_iter_spec _rotate60ccw 6 h rotate60ccw_digitMap Hh)
    as (HU & Hhd & Hdig).
  apply index_ext; [exact HU | exact Hh | exact Hhd |].
  intros r Hr. etransitivity; [exact (Hdig r Hr)|].
  destruct (r <=? H3_GET_RESOLUTION h); [|reflexivity].
  apply rotate60ccw_six, get_digit_range.
Qed.

(** One pentagon rotation, from an index whose leading digit is known. *)
Lemma h3RotatePent60ccw_step (h L : Z) :
  U64 h -> _h3LeadingNonZeroDigit h = L ->
  U64 (_h3RotatePent60ccw h) /\
  _h3LeadingNonZeroDigit (_h3RotatePent60ccw h) =
    Nat.iter (pentRotations JK_AXES_DIGIT L) _rotate60ccw L /\
  _h3RotatePent60ccw h = Nat.iter (pentRotations JK_AXES_DIGIT L) _h3Rotate60ccw h.
Proof.
  intros Hh <-. split; [apply h3RotatePent60ccw_spec, Hh|].
  split; [apply h3RotatePent60ccw_leading, Hh | apply h3RotatePent60ccw_iter, Hh].
Qed.

(** X11. Five pentagon rotations bring a 64-bit index back to itself, as
    long as it lies outside the deleted K subsequence and its leading digit is
    not the invalid one: around a pentagon there are five sectors, and the
    five steps make six digit rotations in all. *)
Theorem h3RotatePent60ccw_five_times (h : H3Index) :
  U64 h ->
  _h3LeadingNonZeroDigit h <> K_AXES_DIGIT ->
  _h3LeadingNonZeroDigit h <> INVALID_DIGIT ->
  _h3RotatePent60ccw (_h3RotatePent60ccw (_h3RotatePent60ccw
    (_h3RotatePent60ccw (_h3RotatePent60ccw h)))) = h.
Proof.
  intros Hh HK H7.
  pose proof (leadingNonZero_range h) as HL.
  destruct (Z.eq_dec (_h3LeadingNonZeroDigit h) 0) as [E0|E0].
  - (* all the digits are zero: every rotation leaves the index alone *)
    assert (Hfix : forall x, U64 x -> _h3LeadingNonZeroDigit x = 0 ->
              _h3RotatePent60ccw x = x).
    { intros x Hx Hx0.
      destruct (h3RotatePent60ccw_spec x Hx) as (HU & Hhd & Hdig).
      apply index_ext; [exact HU | exact Hx | exact Hhd |].
      intros r Hr. rewrite (Hdig r Hr), Hx0.
      destruct (Z.leb_spec r (H3_GET_RESOLUTION x)); [|reflexivity].
      rewrite (proj1 (leadingNonZero_zero x) Hx0) by lia. reflexivity. }
    rewrite !(Hfix h Hh E0). reflexivity.
  - assert (Hc : _h3LeadingNonZeroDigit h = 2 \/ _h3LeadingNonZeroDigit h = 3 \/
                 _h3LeadingNonZeroDigit h = 4 \/ _h3LeadingNonZeroDigit h = 5 \/
                 _h3LeadingNonZeroDigit h = 6) by lia.
    assert (Hsix : Nat.iter 6 _h3Rotate60ccw h = h) by (apply h3Rotate60ccw_iter6, Hh).
    destruct Hc as [Hl|[Hl|[Hl|[Hl|Hl]]]];
      destruct (h3RotatePent60ccw_step _ _ Hh Hl) as (U1 & L1 & E1);
      destruct (h3RotatePent60ccw_step _ _ U1 L1) as (U2 & L2 & E2);
      destruct (h3RotatePent60ccw_step _ _ U2 L2) as (U3 & L3 & E3);
      destruct (h3RotatePent60ccw_step _ _ U3 L3) as (U4 & L4 & E4);
      destruct (h3RotatePent60ccw_step _ _ U4 L4) as (_ & _ & E5);
      rewrite E5, E4, E3, E2, E1; exact Hsix.
Qed.

(** X11, at the resolution-2 cell of base cell 4 with the digits JK, JK. *)
Lemma h3RotatePent60ccw_five_times_witness :
  _h3RotatePent60ccw (_h3RotatePent60ccw (_h3RotatePent60ccw
    (_h3RotatePent60ccw (_h3RotatePent60ccw (setH3Index 2 4 JK_AXES_DIGIT))))) =
  setH3Index 2 4 JK_AXES_DIGIT.
Proof.
  apply (h3RotatePent60ccw_five_times (setH3Index 2 4 JK_AXES_DIGIT)).
  - unfold U64. vm_compute. split; discriminate || reflexivity.
  - vm_compute. discriminate.
  - vm_compute. discriminate.
Defined.

(** X12. Outside the deleted K subsequence the two pentagon rotations undo
    each other. *)
Theorem h3RotatePent60_round_trip (h : H3Index) :
  U64 h -> _h3LeadingNonZeroDigit h <> K_AXES_DIGIT ->
  _h3RotatePent60cw (_h3RotatePent60ccw h) = h /\
  _h3RotatePent60ccw (_h3RotatePent60cw h) = h.
Proof.
  intros Hh HK.
  pose proof (leadingNonZero_range h) as HL.
  destruct (h3Rotate60ccw_spec h Hh) as (HUc & _ & _).
  destruct (h3Rotate60cw_spec h Hh) as (HUw & _ & _).
  destruct (h3RotatePent60ccw_spec h Hh) as (HU1 & _ & _).
  destruct (h3RotatePent60cw_spec h Hh) as (HU2 & _ & _).
  split.
  - rewrite (h3RotatePent60cw_iter _ HU1), (h3RotatePent60ccw_leading h Hh),
      (h3RotatePent60ccw_iter h Hh).
    revert HL HK. generalize (_h3LeadingNonZeroDigit h). intros L HL HK.
    each_digit8 HL; try lia;
      cbv [pentRotations Z.eqb Pos.eqb Nat.iter nat_rect _rotate60ccw];
      rewrite ?(h3Rotate60cw_ccw _ HUc); apply h3Rotate60cw_ccw, Hh.
  - rewrite (h3RotatePent60ccw_iter _ HU2), (h3RotatePent60cw_leading h Hh),
      (h3RotatePent60cw_iter h Hh).
    revert HL HK. generalize (_h3LeadingNonZeroDigit h). intros L HL HK.
    each_digit8 HL; try lia;
      cbv [pentRotations Z.eqb Pos.eqb Nat.iter nat_rect _rotate60cw];
      rewrite ?(h3Rotate60ccw_cw _ HUw); apply h3Rotate60ccw_cw, Hh.
Qed.

(** X12, at the resolution-2 cell of base cell 4 with the digits JK, JK. *)
Lemma h3RotatePent60_round_trip_witness :
  _h3RotatePent60cw (_h3RotatePent60ccw (setH3Index 2 4 JK_AXES_DIGIT)) =
    setH3Index 2 4 JK_AXES_DIGIT /\
  _h3RotatePent60ccw (_h3RotatePent60cw (setH3Index 2 4 JK_AXES_DIGIT)) =
    setH3Index 2 4 JK_AXES_DIGIT.
Proof.
  apply (h3RotatePent60_round_trip (setH3Index 2 4 JK_AXES_DIGIT)).
  - unfold U64. vm_compute. split; discriminate || reflexivity.
  - vm_compute. discriminate.
Defined.

(** ** The output cell and the error codes of the neighbour walk *)

Lemma h3NeighborRotations_out (T : BaseCells) (origin dir rotations out : Z) :
  nr_out (h3NeighborRotations T origin dir rotations) = Some out ->
  nr_err (h3NeighborRotations T origin dir rotations) = E_SUCCESS.
Proof.
  unfold h3NeighborRotations.
  destruct ((dir <? 0) || (dir >=? 7)); [discriminate|].
  destruct ((H3_GET_BASE_CELL origin <? 0) || (H3_GET_BASE_CELL origin >=? 122));
    [discriminate|].
  destruct (neighborWalk _ _ _ _ _ _) as [e|current newRotations rot1];
    [discriminate|].
  destruct (rotateIntoBaseCell _ _ _ _ _ _) as [[e rot2]|[out' rot2]];
    [discriminate | reflexivity].
Qed.

(** X13. [h3NeighborRotations] writes the output cell exactly when it
    returns [E_SUCCESS]: on each of its error returns ([E_FAILED],
    [E_CELL_INVALID], [E_PENTAGON]) [*out] is left untouched. *)
Theorem h3NeighborRotations_output_iff_success
    (T : BaseCells) (origin : H3Index) (dir : Direction) (rotations : Z) :
  (nr_err (h3NeighborRotations T origin dir rotations) = E_SUCCESS <->
   exists out, nr_out (h3NeighborRotations T origin dir rotations) = Some out) /\
  (nr_err (h3NeighborRotations T origin dir rotations) <> E_SUCCESS <->
   nr_out (h3NeighborRotations T origin dir rotations) = None).
Proof.
  assert (Hiff : nr_err (h3NeighborRotations T origin dir rotations) = E_SUCCESS <->
                 exists out, nr_out (h3NeighborRotations T origin dir rotations) = Some out).
  { split.
    - intros Hok.
      destruct (h3NeighborRotations_success T origin dir rotations Hok)
        as (current & newRotations & rot1 & out & rot2 & _ & _ & _ & _ & Heq).
      exists out. rewrite Heq. reflexivity.
    - intros [out Hout]. eapply h3NeighborRotations_out, Hout. }
  split; [exact Hiff|]. split.
  - intros Hne. destruct (nr_out _) as [out|] eqn:Hout; [|reflexivity].
    exfalso. apply Hne, Hiff. exists out. reflexivity.
  - intros Hnone Hok. apply Hiff in Hok as [out Hout]. congruence.
Qed.

(** The walk stops with an error only at an invalid digit of one of the
    levels it is given. *)
Lemma neighborWalk_error_digit (T : BaseCells) (obc : Z) (n : nat)
    (current dir rot : Z) (e : H3Error) :
  (n <= 15)%nat -> U64 current -> 0 <= dir < 7 ->
  neighborWalk T obc n current dir rot = WalkErr e ->
  exists r, 1 <= r <= Z.of_nat n /\ H3_GET_INDEX_DIGIT current r = INVALID_DIGIT.
Proof.
  revert current dir. induction n as [|m IH]; intros current dir Hn Hcur Hdir Hw.
  - rewrite neighborWalk_O in Hw. destruct (_ =? _); discriminate.
  - rewrite neighborWalk_S in Hw. cbv zeta in Hw.
    pose proof (get_digit_range current (Z.of_nat m + 1)) as Hd.
    destruct (Z.eqb_spec (H3_GET_INDEX_DIGIT current (Z.of_nat m + 1)) 7) as [E7|Hne7].
    + exists (Z.of_nat m + 1). split; [lia | exact E7].
    + destruct (tableAt_range (tablePairAt (Z.of_nat m + 1))
                  (H3_GET_INDEX_DIGIT current (Z.of_nat m + 1)) dir) as [Hnd Hadj];
        [lia | lia |].
      assert (Hlvl : 1 <= Z.of_nat m + 1 <= 15) by lia.
      assert (Hnd8 : 0 <= tableAt (NEW_DIGIT (tablePairAt (Z.of_nat m + 1)))
                            (H3_GET_INDEX_DIGIT current (Z.of_nat m + 1)) dir < 8) by lia.
      pose proof (set_digit_U64 current _ _ Hlvl Hnd8 Hcur) as HU1.
      assert (Hm : (m <= 15)%nat) by lia.
      destruct (negb _); [|discriminate].
      destruct (IH _ _ Hm HU1 Hadj Hw) as (r & Hr & H7).
      exists r. split; [lia|].
      rewrite get_set_digit_other in H7 by (assumption || lia). exact H7.
Qed.

(** X14. [E_CELL_INVALID] from [h3NeighborRotations]. With a direction in
    range, an origin whose base-cell field is not a base cell, or whose
    finest digit is [INVALID_DIGIT], is refused with [E_CELL_INVALID]: no
    output cell is written and [*rotations] holds the reduced count. The
    other way round, [E_CELL_INVALID] is returned only for an origin whose
    base-cell field is not a base cell or one of whose used digits is
    [INVALID_DIGIT]. *)
Theorem h3NeighborRotations_cell_invalid
    (T : BaseCells) (origin : H3Index) (dir : Direction) (rotations : Z) :
  U64 origin ->
  (0 <= dir < 7 ->
   NUM_BASE_CELLS <= H3_GET_BASE_CELL origin \/
   (1 <= H3_GET_RESOLUTION origin /\
    H3_GET_INDEX_DIGIT origin (H3_GET_RESOLUTION origin) = INVALID_DIGIT) ->
   h3NeighborRotations T origin dir rotations =
     {| nr_err := E_CELL_INVALID; nr_rotations := Z.rem rotations 6; nr_out := None |}) /\
  (nr_err (h3NeighborRotations T origin dir rotations) = E_CELL_INVALID ->
   NUM_BASE_CELLS <= H3_GET_BASE_CELL origin \/
   exists r, 1 <= r <= H3_GET_RESOLUTION origin /\
     H3_GET_INDEX_DIGIT origin r = INVALID_DIGIT).
Proof.
  intros Horigin.
  pose proof (get_base_cell_range origin) as Hbcr.
  pose proof (get_resolution_range origin) as Hres.
  split.
  - intros Hdir Hbad. unfold h3NeighborRotations.
    destruct (Z.ltb_spec dir 0); [lia|]. destruct (Z.geb_spec dir 7); [lia|]. cbn [orb].
    destruct (Z.ltb_spec (H3_GET_BASE_CELL origin) 0); [lia|].
    destruct (Z.geb_spec (H3_GET_BASE_CELL origin) 122) as [Hge|Hlt]; cbn [orb];
      [reflexivity|].
    destruct Hbad as [Hbc|[Hr H7]]; [lia|].
    destruct (Z.to_nat (H3_GET_RESOLUTION origin)) as [|m] eqn:En; [lia|].
    rewrite neighborWalk_S. cbv zeta.
    replace (Z.of_nat m + 1) with (H3_GET_RESOLUTION origin) by lia.
    rewrite H7. reflexivity.
  - unfold h3NeighborRotations.
    destruct (Z.ltb_spec dir 0); [discriminate|].
    destruct (Z.geb_spec dir 7); [discriminate|]. cbn [orb].
    destruct (Z.ltb_spec (H3_GET_BASE_CELL origin) 0); [lia|].
    destruct (Z.geb_spec (H3_GET_BASE_CELL origin) 122) as [Hge|Hlt]; cbn [orb];
      [intros _; left; lia|].
    destruct (neighborWalk _ _ _ _ _ _) as [e|current newRotations rot1] eqn:Hw.
    + intros _. right.
      assert (Hn : (Z.to_nat (H3_GET_RESOLUTION origin) <= 15)%nat) by lia.
      assert (Hdir : 0 <= dir < 7) by lia.
      destruct (neighborWalk_error_digit T _ _ _ _ _ _ Hn Horigin
                  (repeat_rotate60ccw_dir _ _ Hdir) Hw) as (r & Hr & H7).
      exists r. split; [lia | exact H7].
    + destruct (rotateIntoBaseCell _ _ _ _ _ _) as [[e rot2]|[out rot2]] eqn:Hr;
        [|discriminate].
      apply rotateIntoBaseCell_error in Hr. destruct Hr as [-> | ->]; discriminate.
Qed.

(** X14, on the cell of benchmarkDirectedEdge.c with its resolution field
    set to 10: its level-10 digit is [INVALID_DIGIT]. *)
Lemma h3NeighborRotations_cell_invalid_witness :
  h3NeighborRotations exampleBaseCells (H3_SET_RESOLUTION 0x89283080ddbffff 10)
                      K_AXES_DIGIT 8 =
    {| nr_err := E_CELL_INVALID; nr_rotations := 2; nr_out := None |}.
Proof.
  refine (proj1 (h3NeighborRotations_cell_invalid exampleBaseCells
                   (H3_SET_RESOLUTION 0x89283080ddbffff 10) K_AXES_DIGIT 8 _) _ _).
  - unfold U64. vm_compute. split; discriminate || reflexivity.
  - lia.
  - right. vm_compute. split; [discriminate | reflexivity].
Defined.

Lemma table_column_center (pair : TablePair) (d : Z) :
  0 <= d < 7 ->
  tableAt (NEW_DIGIT pair) d CENTER_DIGIT = d /\
  tableAt (NEW_ADJUSTMENT pair) d CENTER_DIGIT = CENTER_DIGIT.
Proof.
  intros Hd. each_digit Hd; destruct pair; vm_compute; split; reflexivity.
Qed.

Lemma repeat_rotate60ccw_center (k : Z) : repeatZ k _rotate60ccw CENTER_DIGIT = CENTER_DIGIT.
Proof.
  unfold repeatZ. induction (Z.to_nat k) as [|n IH]; [reflexivity|].
  simpl. rewrite IH. reflexivity.
Qed.

(** X15. The direction [CENTER_DIGIT] is a step to the cell itself: at
    resolution 1 or finer, from an origin of a real base cell whose finest
    digit is valid and which, in a pentagon base cell, lies outside the
    deleted K subsequence, the call succeeds, hands the origin back and
    stores the reduced rotation count. *)
Theorem h3NeighborRotations_center_direction
    (T : BaseCells) (origin : H3Index) (rotations : Z) :
  U64 origin -> H3_GET_BASE_CELL origin < NUM_BASE_CELLS ->
  1 <= H3_GET_RESOLUTION origin ->
  H3_GET_INDEX_DIGIT origin (H3_GET_RESOLUTION origin) <> INVALID_DIGIT ->
  (_isBaseCellPentagon T (H3_GET_BASE_CELL origin) = true ->
   _h3LeadingNonZeroDigit origin <> K_AXES_DIGIT) ->
  h3NeighborRotations T origin CENTER_DIGIT rotations =
    {| nr_err := E_SUCCESS; nr_rotations := Z.rem rotations 6; nr_out := Some origin |}.
Proof.
  intros Horigin Hbc Hres1 Hne7 Hpent.
  pose proof (get_base_cell_range origin) as Hbcr.
  pose proof (get_resolution_range origin) as Hres.
  pose proof (get_digit_range origin (H3_GET_RESOLUTION origin)) as Hd.
  unfold h3NeighborRotations.
  change ((0 <? 0) || (0 >=? 7)) with false. cbv iota.
  destruct (Z.ltb_spec (H3_GET_BASE_CELL origin) 0); [lia|].
  destruct (Z.geb_spec (H3_GET_BASE_CELL origin) 122); [lia|]. cbn [orb].
  rewrite repeat_rotate60ccw_center.
  assert (Hw : neighborWalk T (H3_GET_BASE_CELL origin)
                      (Z.to_nat (H3_GET_RESOLUTION origin)) origin 0 (Z.rem rotations 6)
               = WalkDone origin 0 (Z.rem rotations 6)).
  { destruct (Z.to_nat (H3_GET_RESOLUTION origin)) as [|m] eqn:En; [lia|].
    rewrite neighborWalk_S. cbv zeta.
    replace (Z.of_nat m + 1) with (H3_GET_RESOLUTION origin) by lia.
    destruct (Z.eqb_spec (H3_GET_INDEX_DIGIT origin (H3_GET_RESOLUTION origin)) 7);
      [contradiction|].
    destruct (table_column_center (tablePairAt (H3_GET_RESOLUTION origin))
                (H3_GET_INDEX_DIGIT origin (H3_GET_RESOLUTION origin))) as [-> ->]; [lia|].
    change (negb (0 =? 0)) with false. cbv iota.
    rewrite set_digit_get_digit by (assumption || lia). reflexivity. }
  rewrite Hw. unfold rotateIntoBaseCell.
  change (repeatZ 0 _h3Rotate60ccw origin) with origin.
  assert (Hrem : Z.rem (Z.rem rotations 6 + 0) 6 = Z.rem rotations 6)
    by (rewrite Z.add_0_r; apply Z.rem_rem; lia).
  destruct (_isBaseCellPentagon T (H3_GET_BASE_CELL origin)) eqn:Hp.
  - unfold forceOutOfKSubsequence, orientationAdjust.
    destruct (Z.eqb_spec (_h3LeadingNonZeroDigit origin) 1) as [Hk|_];
      [exfalso; apply (Hpent eq_refl), Hk|].
    change (repeatZ 0 _h3RotatePent60ccw origin) with origin.
    rewrite Z.eqb_refl. cbn [negb]. cbv beta iota. rewrite Hrem. reflexivity.
  - cbv beta iota. rewrite Hrem. reflexivity.
Qed.

(** X15, at the resolution-9 cell of benchmarkDirectedEdge.c, with seven
    rotations passed in. *)
Lemma h3NeighborRotations_center_direction_witness :
  h3NeighborRotations exampleBaseCells 0x89283080ddbffff CENTER_DIGIT 7 =
    {| nr_err := E_SUCCESS; nr_rotations := 1; nr_out := Some 0x89283080ddbffff |}.
Proof.
  apply (h3NeighborRotations_center_direction exampleBaseCells 0x89283080ddbffff 7).
  - unfold U64. lia.
  - vm_compute. reflexivity.
  - vm_compute. discriminate.
  - vm_compute. discriminate.
  - vm_compute. discriminate.
Defined.

(** ** The rotation count as a turn of the direction *)

Lemma neighborWalk_rotations_shift (T : BaseCells) (obc : Z) (n : nat)
    (current dir rot : Z) :
  neighborWalk T obc n current dir rot =
    match neighborWalk T obc n current dir 0 with
    | WalkErr e => WalkErr e
    | WalkDone c nr r0 => WalkDone c nr (rot + r0)
    end.
Proof.
  revert current dir. induction n as [|m IH]; intros current dir.
  - rewrite !neighborWalk_O. destruct (_ =? _); f_equal; lia.
  - rewrite !neighborWalk_S. cbv zeta.
    destruct (_ =? 7); [reflexivity|].
    destruct (negb _); [apply IH | f_equal; lia].
Qed.

Lemma rotateIntoBaseCell_rotations_shift (T : BaseCells)
    (obc old current nr rot r0 : Z) :
  rotateIntoBaseCell T obc old current nr (rot + r0) =
    match rotateIntoBaseCell T obc old current nr r0 with
    | inl (e, r) => inl (e, rot + r)
    | inr (c, r) => inr (c, rot + r)
    end.
Proof.
  unfold rotateIntoBaseCell, forceOutOfKSubsequence, orientationAdjust.
  repeat match goal with
         | |- context [if ?b then _ else _] => destruct b; cbv beta iota
         end;
    rewrite ?Z.add_assoc; reflexivity.
Qed.

Lemma rem6_add (a x : Z) :
  0 <= a -> 0 <= x -> Z.rem (a + x) 6 = Z.rem (a + Z.rem x 6) 6.
Proof.
  intros Ha Hx. pose proof (rem6_nonneg x Hx) as Hx6.
  rewrite (Z.rem_mod_nonneg (a + Z.rem x 6) 6) by lia.
  rewrite (Z.rem_mod_nonneg (a + x) 6) by lia.
  rewrite (Z.rem_mod_nonneg x 6) by lia.
  rewrite Zplus_mod_idemp_r. reflexivity.
Qed.

(** X16. The rotation count passed in acts as a turn of the direction and
    as an offset of the count handed back. For a count that is not negative
    and a well-formed base-cell table, the call with the count [k] returns
    the code and the output cell of the call with the direction turned
    [k % 6] times counter-clockwise and the count 0; the count it stores is
    that of the turned call plus [k % 6], reduced modulo 6 on success. *)
Theorem h3NeighborRotations_prerotation
    (T : BaseCells) (origin : H3Index) (dir : Direction) (k : Z) :
  BaseCellsWF T -> U64 origin -> 0 <= dir < 7 -> 0 <= k ->
  let turned :=
    h3NeighborRotations T origin (repeatZ (Z.rem k 6) _rotate60ccw dir) 0 in
  nr_err (h3NeighborRotations T origin dir k) = nr_err turned /\
  nr_out (h3NeighborRotations T origin dir k) = nr_out turned /\
  nr_rotations (h3NeighborRotations T origin dir k) =
    match nr_err turned with
    | E_SUCCESS => Z.rem (Z.rem k 6 + nr_rotations turned) 6
    | _ => Z.rem k 6 + nr_rotations turned
    end.
Proof.
  intros WF Horigin Hdir Hk turned. subst turned.
  pose proof (get_base_cell_range origin) as Hbcr.
  pose proof (get_resolution_range origin) as Hres.
  pose proof (repeat_rotate60ccw_dir (Z.rem k 6) dir Hdir) as Hdir'.
  pose proof (rem6_nonneg k Hk) as Hk6.
  unfold h3NeighborRotations.
  destruct (Z.ltb_spec dir 0); [lia|]. destruct (Z.geb_spec dir 7); [lia|].
  destruct (Z.ltb_spec (repeatZ (Z.rem k 6) _rotate60ccw dir) 0); [lia|].
  destruct (Z.geb_spec (repeatZ (Z.rem k 6) _rotate60ccw dir) 7); [lia|]. cbn [orb].
  change (Z.rem 0 6) with 0.
  change (repeatZ 0 _rotate60ccw (repeatZ (Z.rem k 6) _rotate60ccw dir))
    with (repeatZ (Z.rem k 6) _rotate60ccw dir).
  destruct (Z.ltb_spec (H3_GET_BASE_CELL origin) 0); [lia|].
  destruct (Z.geb_spec (H3_GET_BASE_CELL origin) 122) as [Hge|Hlt]; cbn [orb].
  { cbn [nr_err nr_out nr_rotations]. repeat split. lia. }
  rewrite (neighborWalk_rotations_shift T _ _ origin _ (Z.rem k 6)).
  destruct (neighborWalk T (H3_GET_BASE_CELL origin) _ origin _ 0)
    as [e|current newRotations r0] eqn:Hw.
  { apply neighborWalk_error in Hw. subst e.
    cbn [nr_err nr_out nr_rotations]. repeat split. lia. }
  assert (Hn : (Z.to_nat (H3_GET_RESOLUTION origin) <= 15)%nat) by lia.
  assert (Hbc : 0 <= H3_GET_BASE_CELL origin < 122) by lia.
  destruct (neighborWalk_header T _ (wf_neighbor_field T WF) Hbc _ _ _ _ _ _ _ Hn
              Horigin Hdir' Hw) as (HU & _ & Hr0).
  pose proof (neighborWalk_newRotations T _ WF Hbc _ _ _ _ _ _ _ Hn
                Horigin Hdir' Hw) as Hnr.
  rewrite rotateIntoBaseCell_rotations_shift.
  destruct (rotateIntoBaseCell T (H3_GET_BASE_CELL origin) _ current newRotations r0)
    as [[e r]|[out r]] eqn:Hr.
  - apply rotateIntoBaseCell_error in Hr.
    destruct Hr as [-> | ->]; cbn [nr_err nr_out nr_rotations]; repeat split.
  - destruct (rotateIntoBaseCell_frame _ _ _ _ _ _ _ _ HU Hr) as (_ & _ & Hr2).
    cbn [nr_err nr_out nr_rotations]. split; [reflexivity|]. split; [reflexivity|].
    rewrite <- Z.add_assoc. apply rem6_add; lia.
Qed.

(** X16, on stepping from [cellJJ] in direction K with eight rotations
    passed in: it is the step in direction I, with the count 2. *)
Lemma h3NeighborRotations_prerotation_witness :
  nr_out (h3NeighborRotations exampleBaseCells cellJJ K_AXES_DIGIT 8) =
    nr_out (h3NeighborRotations exampleBaseCells cellJJ I_AXES_DIGIT 0) /\
  nr_rotations (h3NeighborRotations exampleBaseCells cellJJ K_AXES_DIGIT 8) = 2.
Proof.
  destruct (h3NeighborRotations_prerotation exampleBaseCells cellJJ K_AXES_DIGIT 8
              exampleBaseCells_WF (proj1 example_cells_U64)) as (_ & Ho & Hr);
    [lia | lia |].
  split; [exact Ho | rewrite Hr; vm_compute; reflexivity].
Defined.

(** ** The deleted K subsequence is never handed out *)

Lemma forceOutOfKSubsequence_not_K (T : BaseCells) (obc nbc old current rot : Z)
    (c1 rot1 : Z) (b : bool) :
  U64 current ->
  forceOutOfKSubsequence T obc nbc old current rot = inr (c1, rot1, b) ->
  _h3LeadingNonZeroDigit c1 <> K_AXES_DIGIT.
Proof.
  intros Hcur. unfold forceOutOfKSubsequence.
  pose proof (h3Rotate60ccw_leading current Hcur) as Hccw.
  pose proof (h3Rotate60cw_leading current Hcur) as Hcw.
  destruct (Z.eqb_spec (_h3LeadingNonZeroDigit current) 1) as [Hk|Hk].
  - rewrite Hk in Hccw, Hcw.
    destruct (negb _).
    + destruct (_baseCellIsCwOffset _ _ _); intros [= <- <- <-];
        [rewrite Hcw | rewrite Hccw]; discriminate.
    + destruct (old =? 0); [discriminate|].
      destruct (old =? 3); [intros [= <- <- <-]; rewrite Hccw; discriminate|].
      destruct (old =? 5); [intros [= <- <- <-]; rewrite Hcw; discriminate|].
      discriminate.
  - intros [= <- <- <-]. exact Hk.
Qed.

Lemma repeat_h3RotatePent60ccw_not_K (n : Z) (h : Z) :
  U64 h -> _h3LeadingNonZeroDigit h <> K_AXES_DIGIT ->
  _h3LeadingNonZeroDigit (repeatZ n _h3RotatePent60ccw h) <> K_AXES_DIGIT.
Proof.
  intros Hh Hk. unfold repeatZ.
  destruct (Z.to_nat n) as [|m]; [exact Hk|].
  cbn [Nat.iter nat_rect]. apply h3RotatePent60ccw_not_K.
  fold (Nat.iter m _h3RotatePent60ccw h).
  apply (repeatZ_frame _h3RotatePent60ccw (Z.of_nat m) h rotatePent60ccw_U64) in Hh.
  unfold repeatZ in Hh. rewrite Nat2Z.id in Hh. apply Hh.
Qed.

(** X17. [h3NeighborRotations] never hands out a cell of the deleted K
    subsequence: whenever the output cell lies in a pentagon base cell, its
    leading non-zero digit is not [K_AXES_DIGIT]. *)
Theorem h3NeighborRotations_avoids_deleted_subsequence
    (T : BaseCells) (origin : H3Index) (dir : Direction) (rotations : Z)
    (out : H3Index) :
  neighborsFitField T -> U64 origin ->
  nr_out (h3NeighborRotations T origin dir rotations) = Some out ->
  _isBaseCellPentagon T (H3_GET_BASE_CELL out) = true ->
  _h3LeadingNonZeroDigit out <> K_AXES_DIGIT.
Proof.
  intros WF Horigin Hout Hpent.
  pose proof (h3NeighborRotations_out T origin dir rotations out Hout) as Hok.
  destruct (h3NeighborRotations_success T origin dir rotations Hok)
    as (current & newRotations & rot1 & out' & rot2 & Hdir & Hbc & Hw & Hr & Heq).
  rewrite Heq in Hout. injection Hout as ->.
  assert (Hn : (Z.to_nat (H3_GET_RESOLUTION origin) <= 15)%nat)
    by (pose proof (get_resolution_range origin); lia).
  destruct (neighborWalk_header T _ WF Hbc _ _ _ _ _ _ _ Hn Horigin
              (repeat_rotate60ccw_dir _ _ Hdir) Hw) as (HU & _ & _).
  destruct (rotateIntoBaseCell_frame _ _ _ _ _ _ _ _ HU Hr) as (_ & Hhd & _).
  rewrite (base_cell_of_header out current Hhd) in Hpent.
  unfold rotateIntoBaseCell in Hr. rewrite Hpent in Hr.
  destruct (forceOutOfKSubsequence _ _ _ _ _ _) as [e|[[c1 r1] b]] eqn:Hf;
    [discriminate|].
  injection Hr as <- _.
  destruct (forceOutOfKSubsequence_frame _ _ _ _ _ _ _ _ _ HU Hf) as (HU1 & _ & _).
  apply repeat_h3RotatePent60ccw_not_K; [exact HU1|].
  eapply forceOutOfKSubsequence_not_K; [exact HU | exact Hf].
Qed.

(** X17, on the step from the resolution-1 cell of base cell 2 with digit J
    in direction J: it carries into the pentagon base cell 4 and lands on
    digit K there, which the call turns into IK. *)
Lemma h3NeighborRotations_avoids_deleted_subsequence_witness :
  nr_out (h3NeighborRotations exampleBaseCells (setH3Index 1 2 J_AXES_DIGIT) J_AXES_DIGIT 0)
    = Some (setH3Index 1 4 IK_AXES_DIGIT) /\
  _h3LeadingNonZeroDigit (setH3Index 1 4 IK_AXES_DIGIT) <> K_AXES_DIGIT.
Proof.
  assert (Hout : nr_out (h3NeighborRotations exampleBaseCells
                           (setH3Index 1 2 J_AXES_DIGIT) J_AXES_DIGIT 0)
                 = Some (setH3Index 1 4 IK_AXES_DIGIT)) by (vm_compute; reflexivity).
  split; [exact Hout|].
  apply (h3NeighborRotations_avoids_deleted_subsequence exampleBaseCells
           (setH3Index 1 2 J_AXES_DIGIT) J_AXES_DIGIT 0 _
           (wf_neighbor_field _ exampleBaseCells_WF)).
  - unfold U64. vm_compute. split; discriminate || reflexivity.
  - exact Hout.
  - vm_compute. reflexivity.
Defined.

(** ** Building an index *)

(** Writing the [w]-bit field at offset [off]: the bits of the field are
    those of the value, the others are kept. *)
Lemma set_field_bits (h v off w n : Z) :
  0 <= off -> 0 < w -> off + w <= 64 -> 0 <= v < 2 ^ w -> U64 h -> 0 <= n ->
  Z.testbit (Z.lor (Z.land h (not64 (Z.shiftl (Z.ones w) off)))
                   (shl64 (wrap64 v) off)) n =
    if (off <=? n) && (n <? off + w) then Z.testbit v (n - off) else Z.testbit h n.
Proof.
  intros Hoff Hw Hfit Hv Hh Hn.
  assert (Hv64 : U64 v).
  { unfold U64. split; [lia|]. apply Z.lt_le_trans with (2 ^ w); [lia|].
    apply Z.pow_le_mono_r; lia. }
  rewrite Z.lor_spec, Z.land_spec, not64_bits, shl64_bits, Z.shiftl_spec by lia.
  rewrite (wrap64_id v Hv64). rewrite Z.testbit_ones by lia.
  destruct (Z.ltb_spec n 64) as [Hlt|Hge].
  - destruct (Z.leb_spec off n), (Z.ltb_spec n (off + w)); simpl.
    + destruct (Z.leb_spec 0 (n - off)), (Z.ltb_spec (n - off) w); try lia.
      simpl. rewrite andb_false_r, andb_true_r. reflexivity.
    + destruct (Z.ltb_spec (n - off) w); try lia.
      rewrite andb_false_r; simpl.
      rewrite (testbit_small v w (n - off)) by lia.
      rewrite !andb_true_r, orb_false_r. reflexivity.
    + rewrite (Z.testbit_neg_r v) by lia.
      destruct (Z.leb_spec 0 (n - off)); try lia. simpl.
      rewrite !andb_true_r, orb_false_r. reflexivity.
    + lia.
  - rewrite (U64_high h n Hh) by lia.
    destruct (Z.leb_spec off n), (Z.ltb_spec n (off + w));
      simpl; try lia; rewrite ?andb_false_r; reflexivity.
Qed.

Lemma set_mode_bits (h v n : Z) :
  0 <= v < 16 -> U64 h -> 0 <= n ->
  Z.testbit (H3_SET_MODE h v) n =
    if (59 <=? n) && (n <? 63) then Z.testbit v (n - 59) else Z.testbit h n.
Proof.
  intros Hv Hh Hn.
  exact (set_field_bits h v 59 4 n ltac:(lia) ltac:(lia) ltac:(lia) Hv Hh Hn).
Qed.

Lemma set_resolution_bits (h v n : Z) :
  0 <= v < 16 -> U64 h -> 0 <= n ->
  Z.testbit (H3_SET_RESOLUTION h v) n =
    if (52 <=? n) && (n <? 56) then Z.testbit v (n - 52) else Z.testbit h n.
Proof.
  intros Hv Hh Hn.
  exact (set_field_bits h v 52 4 n ltac:(lia) ltac:(lia) ltac:(lia) Hv Hh Hn).
Qed.

Lemma set_mode_U64 (h v : Z) : U64 h -> U64 (H3_SET_MODE h v).
Proof.
  intros Hh. unfold H3_SET_MODE.
  apply lor_U64; [apply land_U64_l; exact Hh | apply wrap64_U64].
Qed.

Lemma set_resolution_U64 (h v : Z) : U64 h -> U64 (H3_SET_RESOLUTION h v).
Proof.
  intros Hh. unfold H3_SET_RESOLUTION.
  apply lor_U64; [apply land_U64_l; exact Hh | apply wrap64_U64].
Qed.

Lemma H3_INIT_bits (n : Z) : Z.testbit H3_INIT n = (0 <=? n) && (n <? 45).
Proof. change H3_INIT with (Z.ones 45). apply Z.testbit_ones. lia. Qed.

Lemma H3_INIT_U64 : U64 H3_INIT.
Proof. unfold U64, H3_INIT. lia. Qed.

(** The index [setH3Index] has before its loop over the digits. *)
Lemma setH3Index_header_bits (res bc n : Z) :
  0 <= res <= 15 -> 0 <= bc < 128 -> 0 <= n ->
  Z.testbit (H3_SET_BASE_CELL
               (H3_SET_RESOLUTION (H3_SET_MODE H3_INIT H3_CELL_MODE) res) bc) n =
    if n <? 45 then true
    else if n <? 52 then Z.testbit bc (n - 45)
    else if n <? 56 then Z.testbit res (n - 52)
    else n =? 59.
Proof.
  intros Hres Hbc Hn.
  pose proof (set_mode_U64 H3_INIT H3_CELL_MODE H3_INIT_U64) as HU1.
  pose proof (set_resolution_U64 _ res HU1) as HU2.
  rewrite set_base_cell_bits by side.
  rewrite set_resolution_bits by side.
  rewrite set_mode_bits by (unfold H3_CELL_MODE; first [exact H3_INIT_U64 | lia]).
  rewrite H3_INIT_bits.
  destruct (Z.ltb_spec n 45), (Z.ltb_spec n 52), (Z.ltb_spec n 56),
           (Z.leb_spec 45 n), (Z.leb_spec 52 n), (Z.leb_spec 59 n),
           (Z.ltb_spec n 63), (Z.leb_spec 0 n); cbn [andb]; try lia; try reflexivity.
  assert (Hc : n = 59 \/ n = 60 \/ n = 61 \/ n = 62) by lia.
  destruct Hc as [->|[->|[->| ->]]]; reflexivity.
Qed.

(** X18. The fields of the index [setH3Index] builds, for a resolution in
    0..15, a value that fits the 7-bit base-cell field and a 3-bit digit: the
    mode is [H3_CELL_MODE], the resolution and the base cell are the ones
    given, every digit up to the resolution is [initDigit] and every finer,
    unused digit is [INVALID_DIGIT] (the value [H3_INIT] leaves there). *)
Theorem setH3Index_fields (res baseCell : Z) (initDigit : Direction) :
  0 <= res <= 15 -> 0 <= baseCell < 128 -> 0 <= initDigit < 8 ->
  U64 (setH3Index res baseCell initDigit) /\
  H3_GET_MODE (setH3Index res baseCell initDigit) = H3_CELL_MODE /\
  H3_GET_RESOLUTION (setH3Index res baseCell initDigit) = res /\
  H3_GET_BASE_CELL (setH3Index res baseCell initDigit) = baseCell /\
  forall r, 1 <= r <= 15 ->
    H3_GET_INDEX_DIGIT (setH3Index res baseCell initDigit) r =
      if r <=? res then initDigit else INVALID_DIGIT.
Proof.
  intros Hres Hbc Hd.
  set (h3 := H3_SET_BASE_CELL
               (H3_SET_RESOLUTION (H3_SET_MODE H3_INIT H3_CELL_MODE) res) baseCell).
  assert (HU3 : U64 h3)
    by (apply set_base_cell_U64, set_resolution_U64, set_mode_U64, H3_INIT_U64).
  assert (Hbits : forall n, 0 <= n -> Z.testbit h3 n =
            if n <? 45 then true
            else if n <? 52 then Z.testbit baseCell (n - 45)
            else if n <? 56 then Z.testbit res (n - 52)
            else n =? 59)
    by (intros n Hn; apply setH3Index_header_bits; assumption).
  assert (Hrot : digitMap (fun _ : Z => initDigit)) by (intros d _; exact Hd).
  change (setH3Index res baseCell initDigit)
    with (fold_left (rotateDigitAt (fun _ => initDigit)) (levels res) h3).
  destruct (rotate_fold_spec (fun _ => initDigit) (levels res) Hrot (NoDup_levels res)
              (Forall_levels res (proj2 Hres)) h3 HU3) as (HU & Hhd & Hdig).
  split; [exact HU|]. split; [|split; [|split]].
  - rewrite (mode_of_header45 _ h3 Hhd).
    apply Z.bits_inj'. intros n Hn. rewrite get_mode_bits, Hbits by lia.
    destruct (Z.ltb_spec n 4) as [Hlt|Hge].
    + destruct (Z.ltb_spec (n + 59) 45), (Z.ltb_spec (n + 59) 52),
               (Z.ltb_spec (n + 59) 56); try lia.
      assert (Hc : n = 0 \/ n = 1 \/ n = 2 \/ n = 3) by lia.
      destruct Hc as [->|[->|[->| ->]]]; reflexivity.
    + rewrite andb_false_r. symmetry. apply (testbit_small 1 4); unfold H3_CELL_MODE; lia.
  - rewrite (resolution_of_header45 _ h3 Hhd).
    apply Z.bits_inj'. intros n Hn. rewrite get_resolution_bits, Hbits by lia.
    destruct (Z.ltb_spec n 4) as [Hlt|Hge].
    + destruct (Z.ltb_spec (n + 52) 45), (Z.ltb_spec (n + 52) 52),
               (Z.ltb_spec (n + 52) 56); try lia.
      rewrite andb_true_r. f_equal. lia.
    + rewrite andb_false_r. symmetry. apply (testbit_small res 4); lia.
  - rewrite (base_cell_of_header _ h3 Hhd). unfold h3.
    apply get_set_base_cell; [exact Hbc|].
    apply set_resolution_U64, set_mode_U64, H3_INIT_U64.
  - intros r Hr. rewrite (Hdig r Hr).
    destruct (decide (r ∈ levels res)) as [Hin|Hnin];
      destruct (Z.leb_spec r res) as [Hle|Hgt]; try reflexivity.
    + apply elem_of_levels in Hin. lia.
    + exfalso. apply Hnin, elem_of_levels. lia.
    + destruct (digitOffset_range r Hr) as [Ho Hor].
      apply Z.bits_inj'. intros n Hn. rewrite get_digit_bits, Hbits by lia.
      change 7 with H3_DIGIT_MASK. rewrite mask7_bits.
      destruct (Z.ltb_spec n 3), (Z.ltb_spec (n + digitOffset r) 45),
               (Z.leb_spec 0 n); cbn [andb]; try lia; reflexivity.
Qed.

(** X18, at the index testCellToCenterChild.c builds: resolution 8, base
    cell 4, every digit J. *)
Lemma setH3Index_fields_witness :
  H3_GET_MODE (setH3Index 8 4 J_AXES_DIGIT) = H3_CELL_MODE /\
  H3_GET_RESOLUTION (setH3Index 8 4 J_AXES_DIGIT) = 8 /\
  H3_GET_BASE_CELL (setH3Index 8 4 J_AXES_DIGIT) = 4 /\
  H3_GET_INDEX_DIGIT (setH3Index 8 4 J_AXES_DIGIT) 8 = J_AXES_DIGIT /\
  H3_GET_INDEX_DIGIT (setH3Index 8 4 J_AXES_DIGIT) 9 = INVALID_DIGIT.
Proof.
  destruct (setH3Index_fields 8 4 J_AXES_DIGIT) as (_ & Hm & Hr & Hb & Hdig);
    [lia | lia | lia |].
  split; [exact Hm|]. split; [exact Hr|]. split; [exact Hb|].
  split; [exact (Hdig 8 ltac:(lia)) | exact (Hdig 9 ltac:(lia))].
Defined.

(** ** Zeroing digits, range after range *)

Lemma zeroIndexDigits_U64 (h start end_ : Z) : U64 h -> U64 (_zeroIndexDigits h start end_).
Proof.
  intros Hh. unfold _zeroIndexDigits. destruct (start >? end_); [exact Hh|].
  cbv zeta. apply land_U64_l, Hh.
Qed.

(** X19. Zeroing composes: zeroing the levels [a .. b] and then the
    adjacent levels [b + 1 .. c] is zeroing [a .. c] at once, in either
    order, and zeroing a range twice is zeroing it once. *)
Theorem zeroIndexDigits_compose (h : H3Index) (a b c : Z) :
  U64 h -> 1 <= a <= b -> b < c <= 15 ->
  _zeroIndexDigits (_zeroIndexDigits h a b) (b + 1) c = _zeroIndexDigits h a c /\
  _zeroIndexDigits (_zeroIndexDigits h (b + 1) c) a b = _zeroIndexDigits h a c /\
  _zeroIndexDigits (_zeroIndexDigits h a b) a b = _zeroIndexDigits h a b.
Proof.
  intros Hh Hab Hbc.
  pose proof (zeroIndexDigits_U64 h a b Hh) as HU1.
  pose proof (zeroIndexDigits_U64 h (b + 1) c Hh) as HU2.
  destruct (digitOffset_range a) as [_ Ha]; [lia|].
  destruct (digitOffset_range b) as [_ Hb]; [lia|].
  destruct (digitOffset_range (b + 1)) as [_ Hb1]; [lia|].
  destruct (digitOffset_range c) as [_ Hc]; [lia|].
  split; [|split]; apply Z.bits_inj'; intros n Hn;
    rewrite !zeroIndexDigits_bits by side;
    destruct (Z.testbit h n); cbn [andb]; try reflexivity;
    destruct (Z.leb_spec (digitOffset b) n), (Z.ltb_spec n (digitOffset a + 3)),
             (Z.leb_spec (digitOffset c) n), (Z.ltb_spec n (digitOffset (b + 1) + 3));
    cbn [andb negb]; try reflexivity; lia.
Qed.

(** X19, at the resolution-9 cell of benchmarkDirectedEdge.c. *)
Lemma zeroIndexDigits_compose_witness :
  _zeroIndexDigits (_zeroIndexDigits 0x89283080ddbffff 4 6) 7 9 =
    _zeroIndexDigits 0x89283080ddbffff 4 9.
Proof.
  apply (zeroIndexDigits_compose 0x89283080ddbffff 4 6 9); [unfold U64; lia | lia | lia].
Defined.

(** ** The chain counters, both ways *)

(** A count that comes back is the length of a chain that ends in [NULL]. *)
Lemma countChain_inv {A : Type} (next : A -> Z) (heap : gmap Z A) (fuel : nat) :
  forall (p count n : Z),
    countChain next heap fuel p count = Some n ->
    exists nodes, chainFrom next heap p nodes /\
      n = count + Z.of_nat (length nodes) /\ (length nodes <= fuel)%nat /\
      (nodes <> [] -> n <= INT_MAX).
Proof.
  induction fuel as [|fuel IH]; intros p count n; cbn [countChain];
    destruct (Z.eqb_spec p 0) as [->|Hp].
  - intros [= <-]. exists []. split; [apply chain_null|]. cbn.
    split; [lia | split; [lia | congruence]].
  - discriminate.
  - intros [= <-]. exists []. split; [apply chain_null|]. cbn.
    split; [lia | split; [lia | congruence]].
  - destruct (heap !! p) as [node|] eqn:Hnode; [|discriminate].
    destruct (Z.geb_spec count INT_MAX) as [|Hlt]; [discriminate|].
    intros Hrec. destruct (IH _ _ _ Hrec) as (rest & Hchain & Hn & Hlen & Hmax).
    exists (node :: rest). split; [apply chain_node; assumption|].
    cbn [length]. split; [lia | split; [lia|]]. intros _.
    destruct rest as [|x rest]; [cbn in Hn; lia | apply Hmax; discriminate].
Qed.

(** X20. [countLinkedPolygons] counts the polygons of the chain that
    starts at its argument: when the chain ends in [NULL] after fewer than
    [INT_MAX] nodes the count is their number (0 for [NULL] itself); and a
    count comes back only then, so on a chain that never reaches [NULL] the
    loop does not return. *)
Theorem countLinkedPolygons_counts (heap : gmap Z LinkedGeoPolygon) (polygon : ptr) :
  (forall nodes fuel,
     chainFrom polygon_next heap polygon nodes ->
     Z.of_nat (length nodes) <= INT_MAX -> (length nodes <= fuel)%nat ->
     countLinkedPolygons heap fuel polygon = Some (Z.of_nat (length nodes))) /\
  (forall fuel n,
     countLinkedPolygons heap fuel polygon = Some n ->
     exists nodes, chainFrom polygon_next heap polygon nodes /\
       n = Z.of_nat (length nodes)) /\
  (forall fuel, polygon = NULL -> countLinkedPolygons heap fuel polygon = Some 0).
Proof.
  split; [|split].
  - intros nodes fuel Hchain Hmax Hfuel. unfold countLinkedPolygons.
    rewrite (countChain_spec _ _ _ _ Hchain fuel 0) by lia. f_equal.
  - intros fuel n Hcount. unfold countLinkedPolygons in Hcount.
    destruct (countChain_inv _ _ _ _ _ _ Hcount) as (nodes & Hchain & Hn & _).
    exists nodes. split; [exact Hchain | lia].
  - intros fuel ->. unfold countLinkedPolygons. destruct fuel; reflexivity.
Qed.

Lemma twoPolygonHeap_chain :
  chainFrom polygon_next twoPolygonHeap 8
    [ {| polygon_first := 16; polygon_last := 48; polygon_next := 24 |};
      {| polygon_first := NULL; polygon_last := NULL; polygon_next := NULL |} ].
Proof.
  unfold twoPolygonHeap.
  apply chain_node; [discriminate | reflexivity |].
  apply chain_node; [discriminate | reflexivity |].
  apply chain_null.
Qed.

(** X20, on the chain of two polygons. *)
Lemma countLinkedPolygons_counts_witness :
  countLinkedPolygons twoPolygonHeap 2 8 = Some 2 /\
  countLinkedPolygons twoPolygonHeap 0 NULL = Some 0.
Proof.
  destruct (countLinkedPolygons_counts twoPolygonHeap 8) as (Hfwd & _ & _).
  destruct (countLinkedPolygons_counts twoPolygonHeap 0) as (_ & _ & Hnull).
  split.
  - apply (Hfwd _ 2%nat twoPolygonHeap_chain); [unfold INT_MAX; simpl; lia | simpl; lia].
  - apply Hnull. reflexivity.
Defined.

(** X21. [countLinkedCoords] counts the coordinates of the chain that
    starts at [loop->first], and returns only when that chain ends in
    [NULL]. *)
Theorem countLinkedCoords_counts (heap : gmap Z LinkedLatLng) (loop : LinkedGeoLoop) :
  (forall nodes fuel,
     chainFrom coord_next heap (loop_first loop) nodes ->
     Z.of_nat (length nodes) <= INT_MAX -> (length nodes <= fuel)%nat ->
     countLinkedCoords heap fuel loop = Some (Z.of_nat (length nodes))) /\
  (forall fuel n,
     countLinkedCoords heap fuel loop = Some n ->
     exists nodes, chainFrom coord_next heap (loop_first loop) nodes /\
       n = Z.of_nat (length nodes)) /\
  (forall fuel, loop_first loop = NULL -> countLinkedCoords heap fuel loop = Some 0).
Proof.
  split; [|split].
  - intros nodes fuel Hchain Hmax Hfuel. unfold countLinkedCoords.
    rewrite (countChain_spec _ _ _ _ Hchain fuel 0) by lia. f_equal.
  - intros fuel n Hcount. unfold countLinkedCoords in Hcount.
    destruct (countChain_inv _ _ _ _ _ _ Hcount) as (nodes & Hchain & Hn & _).
    exists nodes. split; [exact Hchain | lia].
  - intros fuel Hnull. unfold countLinkedCoords. rewrite Hnull. destruct fuel; reflexivity.
Qed.

Lemma fourCoordHeap_chain :
  chainFrom coord_next fourCoordHeap (loop_first fourCoordLoop)
    [ {| coord_next := 80 |}; {| coord_next := 96 |}; {| coord_next := 112 |};
      {| coord_next := NULL |} ].
Proof.
  unfold fourCoordHeap.
  apply chain_node; [discriminate | reflexivity |].
  apply chain_node; [discriminate | reflexivity |].
  apply chain_node; [discriminate | reflexivity |].
  apply chain_node; [discriminate | reflexivity |].
  apply chain_null.
Qed.

(** X21, on the loop of four coordinates. *)
Lemma countLinkedCoords_counts_witness :
  countLinkedCoords fourCoordHeap 4 fourCoordLoop = Some 4.
Proof.
  destruct (countLinkedCoords_counts fourCoordHeap fourCoordLoop) as (Hfwd & _ & _).
  apply (Hfwd _ 4%nat fourCoordHeap_chain); [unfold INT_MAX; simpl; lia | simpl; lia].
Defined.

(** X22. [countLinkedLoops] returns only on a chain that ends in [NULL]:
    whatever count comes back is the number of nodes of such a chain, at most
    [INT_MAX]; so a polygon whose loops form a cycle is never counted, the
    loop runs on. Two runs that return agree. *)
Theorem countLinkedLoops_returns_chain_length (heap : gmap Z LinkedGeoLoop)
    (polygon : LinkedGeoPolygon) (fuel : nat) (n : Z) :
  countLinkedLoops heap fuel polygon = Some n ->
  (exists nodes, chainFrom loop_next heap (polygon_first polygon) nodes /\
     n = Z.of_nat (length nodes) /\ n <= INT_MAX) /\
  (forall fuel' n', countLinkedLoops heap fuel' polygon = Some n' -> n' = n).
Proof.
  intros Hcount. unfold countLinkedLoops in Hcount.
  destruct (countChain_inv _ _ _ _ _ _ Hcount) as (nodes & Hchain & Hn & _ & Hmax).
  split.
  - exists nodes. split; [exact Hchain|]. split; [lia|].
    destruct nodes as [|x nodes]; [cbn in Hn; unfold INT_MAX; lia | apply Hmax; discriminate].
  - intros fuel' n' Hcount'. unfold countLinkedLoops in Hcount'.
    destruct (countChain_inv _ _ _ _ _ _ Hcount') as (nodes' & Hchain' & Hn' & _).
    rewrite (chainFrom_unique _ _ _ _ _ Hchain' Hchain) in Hn'. lia.
Qed.

(** X22, on the three-loop polygon. *)
Lemma countLinkedLoops_returns_chain_length_witness :
  countLinkedLoops threeLoopHeap 5 threeLoopPolygon = Some 3 /\
  exists nodes, chainFrom loop_next threeLoopHeap (polygon_first threeLoopPolygon) nodes /\
    3 = Z.of_nat (length nodes) /\ 3 <= INT_MAX.
Proof.
  assert (Hrun : countLinkedLoops threeLoopHeap 5 threeLoopPolygon = Some 3)
    by (vm_compute; reflexivity).
  split; [exact Hrun|].
  exact (proj1 (countLinkedLoops_returns_chain_length threeLoopHeap threeLoopPolygon
                  5 3 Hrun)).
Defined.

(** ** The tracer and the memory it is handed *)

Lemma extends_refl (st : TraceState) : extends st st.
Proof.
  unfold extends. split; [reflexivity|]. split; [reflexivity|]. split; [lia|].
  split; [intros i v Hv _; exact Hv | intros i _; reflexivity].
Qed.

Lemma extends_trans (st0 st1 st2 : TraceState) :
  extends st0 st1 -> extends st1 st2 -> extends st0 st2.
Proof.
  intros (Hs1 & Hf1 & Hc1 & Hk1 & Hb1) (Hs2 & Hf2 & Hc2 & Hk2 & Hb2).
  unfold extends. split; [congruence|]. split; [congruence|]. split; [lia|]. split.
  - intros i v Hv Hv0. apply Hk2; [apply Hk1; assumption | exact Hv0].
  - intros i Hi. rewrite Hb2 by lia. apply Hb1, Hi.
Qed.

Lemma insertFound_extends (n c : Z) (st st' : TraceState) :
  stateOf (insertFound n c st) = Some st' -> extends st st'.
Proof.
  unfold insertFound.
  destruct (wrap64 n =? 0); [discriminate|].
  destruct (probeLoop _ (found st) n c _ 0) as [[loc| |]|] eqn:Hp; try discriminate.
  2:{ intros [= <-]. apply extends_refl. }
  destruct (arrayGet (found st) loc) as [v|] eqn:Hv; [|discriminate].
  destruct (Z.eqb_spec v c) as [->|Hvc].
  { intros [= <-]. apply extends_refl. }
  destruct (arrayGet (search st) (numSearchHexes st)) as [old|] eqn:Hs; [|discriminate].
  intros [= <-].
  assert (Hv0 : arrayGet (found st) loc = Some 0).
  { destruct (probeLoop_at _ _ _ _ _ _ _ Hp) as [H0|Hc]; [exact H0 | congruence]. }
  apply arrayGet_Some in Hs as [Hs0 _].
  apply arrayGet_Some in Hv0 as [Hloc Hl0].
  unfold extends. cbn [numSearchHexes search found].
  split; [apply length_insert|]. split; [apply length_insert|]. split; [lia|]. split.
  - intros i x Hx Hx0. rewrite list_lookup_insert_ne; [exact Hx|].
    intros <-. congruence.
  - intros i Hi. apply list_lookup_insert_ne. lia.
Qed.

(** A found block with every slot taken by another cell makes the probing
    give up. *)
Lemma probeLoop_full (found : list Z) (n c : Z) :
  length found = Z.to_nat n -> 0 < n ->
  (forall v, v ∈ found -> v <> 0 /\ v <> c) ->
  forall (fuel : nat) (loc cnt : Z),
    0 <= loc < n -> cnt <= n + 1 -> n + 2 - cnt <= Z.of_nat fuel ->
    probeLoop fuel found n c loc cnt = Some ProbeFailed.
Proof.
  intros Hlen Hn Hfull. induction fuel as [|fuel IH]; intros loc cnt Hloc Hcnt Hfuel;
    [lia|].
  cbn [probeLoop].
  destruct (lookup_lt_is_Some_2 found (Z.to_nat loc)) as [v Hv]; [lia|].
  assert (Hget : arrayGet found loc = Some v) by (apply arrayGet_Some; split; [lia | exact Hv]).
  rewrite Hget.
  destruct (Hfull v) as [Hv0 Hvc]; [eapply list_elem_of_lookup_2, Hv|].
  destruct (Z.eqb_spec v 0); [contradiction|].
  destruct (Z.gtb_spec cnt n); [reflexivity|].
  destruct (Z.eqb_spec v c); [contradiction|].
  destruct (Z.eqb_spec n 0); [lia|].
  apply IH; [|lia|lia].
  pose proof (Z.rem_bound_pos (loc + 1) n). lia.
Qed.

(** X23. The found block too small. When every one of the [numHexagons]
    slots of the found block is taken by a cell other than [pointHex], the
    probing goes round the block, gives up, and the call returns [E_FAILED];
    the memory is as it was before this point. *)
Theorem insertFound_full_block_fails (numHexagons : Z) (pointHex : H3Index)
    (st : TraceState) :
  0 < numHexagons < 2 ^ 63 -> U64 pointHex ->
  length (found st) = Z.to_nat numHexagons ->
  (forall v, v ∈ found st -> v <> 0 /\ v <> pointHex) ->
  insertFound numHexagons pointHex st = Return E_FAILED st.
Proof.
  intros Hn Hc Hlen Hfull. unfold insertFound.
  assert (Hw : wrap64 numHexagons = numHexagons) by (apply wrap64_id; unfold U64; lia).
  rewrite Hw. destruct (Z.eqb_spec numHexagons 0); [lia|].
  pose proof (Z.rem_bound_pos pointHex numHexagons (proj1 Hc) (proj1 Hn)) as Hrem.
  assert (Hloc : toInt64 (Z.rem pointHex numHexagons) = Z.rem pointHex numHexagons).
  { unfold toInt64. destruct (Z.ltb_spec (Z.rem pointHex numHexagons) (2 ^ 63)); lia. }
  rewrite Hloc.
  rewrite (probeLoop_full (found st) numHexagons pointHex Hlen (proj1 Hn) Hfull);
    [reflexivity | lia | lia | lia].
Qed.

(** X23, on a block of three slots, all taken. *)
Lemma insertFound_full_block_fails_witness :
  insertFound 3 25 fullTrace = Return E_FAILED fullTrace.
Proof.
  apply insertFound_full_block_fails.
  - lia.
  - unfold U64. lia.
  - reflexivity.
  - intros v Hv. cbn [found fullTrace] in Hv.
    repeat (apply elem_of_cons in Hv as [->|Hv]; [split; lia|]).
    inversion Hv.
Defined.

Lemma traced_foundSetOK (n : Z) (st0 st : TraceState) (app : list Z) :
  traced n st0 st app -> foundSetOK n (found st0) -> foundSetOK n (found st).
Proof.
  intros [_ _ _ _ Hreach _ Hfrom Hkeep _] Hok c Hc0 Hc.
  destruct (Hfrom c Hc) as [Hc0'|Happ].
  - apply Hkeep; [exact Hc0 | apply Hok; assumption].
  - apply (Hreach c Happ).
Qed.

Section LineTraceMemory.
Context (double : Type) (dmul ddiv dadd : double -> double -> double)
        (doubleOfInt64 : Z -> double).
Context (lineHexEstimate : LatLng double -> LatLng double -> Z -> H3Error * Z)
        (latLngToCell : LatLng double -> Z -> H3Error * H3Index).

Lemma traceEdge_extends (n res : Z) (origin destination : LatLng double)
    (estimate : Z) (js : list Z) (st st' : TraceState) :
  stateOf (traceEdge double dmul ddiv dadd doubleOfInt64 latLngToCell n res origin
                     destination estimate js st) = Some st' ->
  extends st st'.
Proof.
  revert st. induction js as [|j js IH]; intros st; cbn [traceEdge].
  - intros [= <-]. apply extends_refl.
  - destruct (latLngToCell _ res) as [e pointHex].
    assert (Hstop : stateOf (Return e st) = Some st' -> extends st st')
      by (intros [= <-]; apply extends_refl).
    destruct e; try exact Hstop.
    destruct (insertFound n pointHex st) as [st1|e1 st1|] eqn:Hins.
    + intros Hrest. apply (extends_trans st st1 st').
      * apply (insertFound_extends n pointHex). rewrite Hins. reflexivity.
      * apply IH, Hrest.
    + intros [= <-]. apply (insertFound_extends n pointHex). rewrite Hins. reflexivity.
    + discriminate.
Qed.

Lemma traceLoop_extends (geoloop : GeoLoop double) (n res : Z) (is_ : list Z)
    (st st' : TraceState) :
  stateOf (traceLoop double dmul ddiv dadd doubleOfInt64 lineHexEstimate latLngToCell
                     geoloop n res is_ st) = Some st' ->
  extends st st'.
Proof.
  revert st. induction is_ as [|i is_ IH]; intros st; cbn [traceLoop].
  - intros [= <-]. apply extends_refl.
  - destruct (arrayGet (verts double geoloop) i) as [origin|]; [|discriminate].
    destruct (arrayGet (verts double geoloop) _) as [destination|]; [|discriminate].
    destruct (lineHexEstimate origin destination res) as [e estimate].
    assert (Hstop : stateOf (Return e st) = Some st' -> extends st st')
      by (intros [= <-]; apply extends_refl).
    destruct e; try exact Hstop.
    destruct (traceEdge _ _ _ _ _ _ _ _ _ _ _ _ st) as [st1|e1 st1|] eqn:He.
    + intros Hrest. apply (extends_trans st st1 st').
      * apply (traceEdge_extends n res origin destination estimate (seqZ 0 estimate)).
        rewrite He. reflexivity.
      * apply IH, Hrest.
    + intros [= <-].
      apply (traceEdge_extends n res origin destination estimate (seqZ 0 estimate)).
      rewrite He. reflexivity.
    + discriminate.
Qed.

Lemma getEdgeHexagons_traceLoop (geoloop : GeoLoop double) (n res : Z)
    (st st' : TraceState) :
  stateOf (_getEdgeHexagons double dmul ddiv dadd doubleOfInt64 lineHexEstimate
                            latLngToCell geoloop n res st) = Some st' ->
  stateOf (traceLoop double dmul ddiv dadd doubleOfInt64 lineHexEstimate latLngToCell
                     geoloop n res (seqZ 0 (numVerts double geoloop)) st) = Some st'.
Proof.
  unfold _getEdgeHexagons.
  destruct (traceLoop _ _ _ _ _ _ _ _ _ _ _ st) as [st1|e st1|]; intros H; exact H.
Qed.

(** X24. Whatever way a call of [_getEdgeHexagons] returns, with
    [E_SUCCESS] or with an error code, it only adds to the memory it was
    handed: the two blocks keep their sizes, [*numSearchHexes] does not go
    down, every filled slot of the found block keeps its cell, and the search
    block is unchanged below the old [*numSearchHexes]. *)
Theorem getEdgeHexagons_extends (geoloop : GeoLoop double)
    (numHexagons res : Z) (st st' : TraceState) :
  stateOf (_getEdgeHexagons double dmul ddiv dadd doubleOfInt64 lineHexEstimate
                            latLngToCell geoloop numHexagons res st) = Some st' ->
  extends st st'.
Proof. intros Hcall. eapply traceLoop_extends, getEdgeHexagons_traceLoop, Hcall. Qed.

(** X25. The found block stays a well-formed open-addressed set: an empty
    block is one, and if the block handed to [_getEdgeHexagons] is one (every
    cell in it is met by the probing from its own slot), so is the block the
    call leaves, however it returns. The next call, for the next loop of the
    polygon, again skips every cell already there. *)
Theorem getEdgeHexagons_keeps_found_set (geoloop : GeoLoop double)
    (numHexagons res : Z) (st st' : TraceState) :
  (forall k, foundSetOK numHexagons (replicate k 0)) /\
  (foundSetOK numHexagons (found st) ->
   stateOf (_getEdgeHexagons double dmul ddiv dadd doubleOfInt64 lineHexEstimate
                             latLngToCell geoloop numHexagons res st) = Some st' ->
   foundSetOK numHexagons (found st')).
Proof.
  split.
  - intros k c Hc0 Hc. apply elem_of_replicate in Hc as [-> _]. contradiction.
  - intros Hok Hcall. apply getEdgeHexagons_traceLoop in Hcall.
    destruct (traceLoop_traced double dmul ddiv dadd doubleOfInt64 lineHexEstimate
                latLngToCell geoloop numHexagons res _ st st st' []
                (traced_start numHexagons st) Hcall) as [app Htr].
    exact (traced_foundSetOK numHexagons st st' app Htr Hok).
Qed.
End LineTraceMemory.

(** X24, on the triangle traced into the empty memory. *)
Lemma getEdgeHexagons_extends_witness :
  extends emptyTrace
    {| numSearchHexes := 5; search := [10; 15; 20; 25; 30];
       found := [10; 15; 20; 25; 30] |}.
Proof.
  apply (getEdgeHexagons_extends Z Z.mul Z.div Z.add (fun x => x)
           (fun _ _ _ => (E_SUCCESS, 2)) (fun p _ => (E_SUCCESS, lat Z p))
           triangle 5 9 emptyTrace).
  vm_compute. reflexivity.
Defined.

(** X25, on the triangle traced into the empty memory. *)
Lemma getEdgeHexagons_keeps_found_set_witness :
  foundSetOK 5 [10; 15; 20; 25; 30].
Proof.
  destruct (getEdgeHexagons_keeps_found_set Z Z.mul Z.div Z.add (fun x => x)
              (fun _ _ _ => (E_SUCCESS, 2)) (fun p _ => (E_SUCCESS, lat Z p))
              triangle 5 9 emptyTrace
              {| numSearchHexes := 5; search := [10; 15; 20; 25; 30];
                 found := [10; 15; 20; 25; 30] |}) as [Hempty Hkeep].
  apply Hkeep; [exact (Hempty 5%nat) | vm_compute; reflexivity].
Defined.

(** ** One point of the trace, case by case *)

(** Inside a block of [n] slots the probing never reads outside it. *)
Lemma probeLoop_defined (found : list Z) (n c : Z) :
  length found = Z.to_nat n -> 0 < n ->
  forall (fuel : nat) (loc cnt : Z),
    0 <= loc < n -> probeLoop fuel found n c loc cnt <> Some ProbeUndefined.
Proof.
  intros Hlen Hn. induction fuel as [|fuel IH]; intros loc cnt Hloc; cbn [probeLoop];
    [discriminate|].
  destruct (lookup_lt_is_Some_2 found (Z.to_nat loc)) as [v Hv]; [lia|].
  assert (Hget : arrayGet found loc = Some v) by (apply arrayGet_Some; split; [lia | exact Hv]).
  rewrite Hget.
  destruct (v =? 0); [discriminate|].
  destruct (cnt >? n); [discriminate|].
  destruct (v =? c); [discriminate|].
  destruct (Z.eqb_spec n 0); [lia|].
  apply IH. pose proof (Z.rem_bound_pos (loc + 1) n). lia.
Qed.

(** A probing that gives up has gone round the block: every slot holds a
    cell, none of them the one looked for. *)
Lemma probeLoop_failed_all (found : list Z) (n c : Z) :
  length found = Z.to_nat n -> 0 < n ->
  forall (fuel : nat) (loc cnt : Z),
    0 <= loc < n ->
    probeLoop fuel found n c loc cnt = Some ProbeFailed ->
    forall j, 0 <= j <= n - cnt ->
      exists v, arrayGet found ((loc + j) mod n) = Some v /\ v <> 0 /\ v <> c.
Proof.
  intros Hlen Hn. induction fuel as [|fuel IH]; intros loc cnt Hloc; cbn [probeLoop];
    [discriminate|].
  destruct (arrayGet found loc) as [v|] eqn:Hv; [|discriminate].
  destruct (Z.eqb_spec v 0) as [|Hv0]; [discriminate|].
  destruct (Z.gtb_spec cnt n) as [Hgt|Hle]; [intros _ j Hj; lia|].
  destruct (Z.eqb_spec v c) as [|Hvc]; [discriminate|].
  destruct (Z.eqb_spec n 0); [lia|].
  intros Hrec j Hj.
  destruct (Z.eq_dec j 0) as [->|Hj0].
  - exists v. rewrite Z.add_0_r, Z.mod_small by lia. repeat split; assumption.
  - assert (Hloc' : 0 <= Z.rem (loc + 1) n < n)
      by (pose proof (Z.rem_bound_pos (loc + 1) n); lia).
    destruct (IH _ _ Hloc' Hrec (j - 1)) as (v' & Hv' & Hv'0 & Hv'c); [lia|].
    exists v'. split; [|split; assumption].
    rewrite Z.rem_mod_nonneg, Zplus_mod_idemp_l in Hv' by lia.
    replace (loc + 1 + (j - 1)) with (loc + j) in Hv' by lia. exact Hv'.
Qed.

(** With an empty slot or the cell itself somewhere in the block, the probing
    of [insertFound] ends at a slot. *)
Lemma probeLoop_reaches (found : list Z) (n c loc : Z) (i : nat) (v : Z) :
  length found = Z.to_nat n -> 0 < n -> 0 <= loc < n ->
  found !! i = Some v -> v = 0 \/ v = c ->
  exists loc', probeLoop (Z.to_nat n + 2) found n c loc 0 = Some (ProbeAt loc').
Proof.
  intros Hlen Hn Hloc Hi Hv.
  destruct (probeLoop (Z.to_nat n + 2) found n c loc 0) as [[loc'| |]|] eqn:Hp.
  - exists loc'. reflexivity.
  - exfalso.
    assert (Hilt : Z.of_nat i < n) by (apply lookup_lt_Some in Hi; lia).
    destruct (probeLoop_failed_all found n c Hlen Hn _ _ _ Hloc Hp
                ((Z.of_nat i - loc) mod n)) as (v' & Hv' & Hv'0 & Hv'c).
    { pose proof (Z.mod_pos_bound (Z.of_nat i - loc) n). lia. }
    rewrite Zplus_mod_idemp_r in Hv'.
    replace (loc + (Z.of_nat i - loc)) with (Z.of_nat i) in Hv' by lia.
    rewrite Z.mod_small in Hv' by lia.
    apply arrayGet_Some in Hv' as [_ Hv']. rewrite Nat2Z.id in Hv'.
    rewrite Hi in Hv'. injection Hv' as <-. destruct Hv; contradiction.
  - exfalso. exact (probeLoop_defined found n c Hlen Hn _ _ _ Hloc Hp).
  - exfalso. exact (insertFound_fuel found n c loc Hp).
Qed.

Lemma startLoc_range (n c : Z) :
  0 < n < 2 ^ 63 -> U64 c ->
  wrap64 n = n /\ 0 <= startLoc n c < n /\ startLoc n c = Z.rem c n.
Proof.
  intros Hn Hc.
  assert (Hw : wrap64 n = n) by (apply wrap64_id; unfold U64; lia).
  pose proof (Z.rem_bound_pos c n (proj1 Hc) (proj1 Hn)) as Hrem.
  assert (Hs : startLoc n c = Z.rem c n).
  { unfold startLoc, toInt64. rewrite Hw.
    destruct (Z.ltb_spec (Z.rem c n) (2 ^ 63)); lia. }
  split; [exact Hw|]. rewrite Hs. split; [lia | reflexivity].
Qed.

(** X26. A point whose cell is already in the found set is skipped. When
    the found block of [numHexagons] slots is a well-formed set that holds
    [pointHex], the probing finds it, without error and whatever the filling
    of the block, and the memory is left as it is. *)
Theorem insertFound_skips_known (numHexagons : Z) (pointHex : H3Index)
    (st : TraceState) :
  0 < numHexagons < 2 ^ 63 -> U64 pointHex -> pointHex <> 0 ->
  length (found st) = Z.to_nat numHexagons ->
  foundSetOK numHexagons (found st) -> pointHex ∈ found st ->
  insertFound numHexagons pointHex st = Continue st.
Proof.
  intros Hn Hc Hc0 Hlen Hok Hin.
  destruct (startLoc_range numHexagons pointHex Hn Hc) as (Hw & Hloc & _).
  apply list_elem_of_lookup_1 in Hin as Hi. destruct Hi as [i Hi].
  destruct (probeLoop_reaches (found st) numHexagons pointHex
              (startLoc numHexagons pointHex) i pointHex Hlen (proj1 Hn) Hloc Hi)
    as [loc' Hp]; [right; reflexivity|].
  pose proof (probeLoop_hits _ _ _ _ Hc0 (Hok pointHex Hc0 Hin) _ _ _ Hp) as Hat.
  unfold insertFound.
  destruct (Z.eqb_spec (wrap64 numHexagons) 0) as [E|_]; [rewrite Hw in E; lia|].
  fold (startLoc numHexagons pointHex).
  rewrite Hp, Hat, Z.eqb_refl. reflexivity.
Qed.

Lemma triangleTraced_OK : foundSetOK 5 (found triangleTraced).
Proof.
  assert (Hrun : stateOf (traceLoop Z Z.mul Z.div Z.add (fun x => x)
                            (fun _ _ _ => (E_SUCCESS, 2)) (fun p _ => (E_SUCCESS, lat Z p))
                            triangle 5 9 (seqZ 0 (numVerts Z triangle)) emptyTrace)
                 = Some triangleTraced) by (vm_compute; reflexivity).
  destruct (traceLoop_traced _ _ _ _ _ _ _ _ _ _ _ _ _ _ []
              (traced_start 5 emptyTrace) Hrun) as [app Htr].
  apply (traced_foundSetOK 5 emptyTrace triangleTraced app Htr).
  intros c Hc0 Hc. apply elem_of_replicate in Hc as [-> _]. contradiction.
Qed.

(** X26, on the memory the triangle's trace leaves: the cell 20, whose
    probing starts at slot 0, is found at slot 2. *)
Lemma insertFound_skips_known_witness :
  insertFound 5 20 triangleTraced = Continue triangleTraced.
Proof.
  apply insertFound_skips_known.
  - lia.
  - unfold U64. lia.
  - lia.
  - reflexivity.
  - exact triangleTraced_OK.
  - cbn [found triangleTraced]. do 2 right. left.
Defined.

(** X27. A point whose cell is new is appended. When the found block of
    [numHexagons] slots does not hold [pointHex] and has an empty slot, and
    the search block has room at [*numSearchHexes], the cell is stored in an
    empty slot of the found block and at the end of the search list, and
    [*numSearchHexes] goes up by one. *)
Theorem insertFound_appends_fresh (numHexagons : Z) (pointHex : H3Index)
    (st : TraceState) :
  0 < numHexagons < 2 ^ 63 -> U64 pointHex -> pointHex <> 0 ->
  length (found st) = Z.to_nat numHexagons ->
  pointHex ∉ found st -> 0 ∈ found st ->
  0 <= numSearchHexes st < Z.of_nat (length (search st)) ->
  exists loc,
    0 <= loc < numHexagons /\ found st !! Z.to_nat loc = Some 0 /\
    insertFound numHexagons pointHex st =
      Continue {| numSearchHexes := numSearchHexes st + 1;
                  search := <[Z.to_nat (numSearchHexes st) := pointHex]> (search st);
                  found := <[Z.to_nat loc := pointHex]> (found st) |}.
Proof.
  intros Hn Hc Hc0 Hlen Hnotin Hempty Hroom.
  destruct (startLoc_range numHexagons pointHex Hn Hc) as (Hw & Hloc & _).
  apply list_elem_of_lookup_1 in Hempty as [i Hi].
  destruct (probeLoop_reaches (found st) numHexagons pointHex
              (startLoc numHexagons pointHex) i 0 Hlen (proj1 Hn) Hloc Hi)
    as [loc' Hp]; [left; reflexivity|].
  assert (Hat : arrayGet (found st) loc' = Some 0).
  { destruct (probeLoop_at _ _ _ _ _ _ _ Hp) as [H0|Hc']; [exact H0|].
    exfalso. apply Hnotin. apply arrayGet_Some in Hc' as [_ Hc'].
    eapply list_elem_of_lookup_2, Hc'. }
  pose proof Hat as Hat'. apply arrayGet_Some in Hat' as [Hloc0 Hl0].
  assert (Hloc'n : loc' < numHexagons) by (apply lookup_lt_Some in Hl0; lia).
  destruct (lookup_lt_is_Some_2 (search st) (Z.to_nat (numSearchHexes st)))
    as [old Hold]; [lia|].
  assert (Hs : arrayGet (search st) (numSearchHexes st) = Some old)
    by (apply arrayGet_Some; split; [lia | exact Hold]).
  exists loc'. split; [lia|]. split; [exact Hl0|].
  unfold insertFound.
  destruct (Z.eqb_spec (wrap64 numHexagons) 0) as [E|_]; [rewrite Hw in E; lia|].
  fold (startLoc numHexagons pointHex).
  rewrite Hp, Hat, Hs.
  destruct (Z.eqb_spec 0 pointHex); [congruence | reflexivity].
Qed.

(** X27, on a memory that holds the cell 10: the cell 15, whose probing
    starts at slot 0, goes to slot 1. *)
Lemma insertFound_appends_fresh_witness :
  exists loc,
    0 <= loc < 5 /\ found oneCellTrace !! Z.to_nat loc = Some 0 /\
    insertFound 5 15 oneCellTrace =
      Continue {| numSearchHexes := numSearchHexes oneCellTrace + 1;
                  search := <[Z.to_nat (numSearchHexes oneCellTrace) := 15]>
                              (search oneCellTrace);
                  found := <[Z.to_nat loc := 15]> (found oneCellTrace) |}.
Proof.
  apply insertFound_appends_fresh.
  - lia.
  - unfold U64. lia.
  - lia.
  - reflexivity.
  - cbn [found oneCellTrace]. intros Hin.
    repeat (apply elem_of_cons in Hin as [Hin|Hin]; [lia|]). inversion Hin.
  - cbn [found oneCellTrace]. right. left.
  - cbn [numSearchHexes search oneCellTrace length]. lia.
Defined.

(** ** The neighbour of a resolution-0 cell *)

Lemma set_base_cell_twice (h a b : Z) :
  0 <= a < 128 -> 0 <= b < 128 -> U64 h ->
  H3_SET_BASE_CELL (H3_SET_BASE_CELL h a) b = H3_SET_BASE_CELL h b.
Proof.
  intros Ha Hb Hh. pose proof (set_base_cell_U64 h a Hh) as HU.
  apply Z.bits_inj'. intros n Hn. rewrite !set_base_cell_bits by side.
  destruct ((45 <=? n) && (n <? 52)); reflexivity.
Qed.

Lemma resolution_zero_rotations (h : Z) :
  H3_GET_RESOLUTION h = 0 ->
  _h3Rotate60ccw h = h /\ _h3RotatePent60ccw h = h /\ _h3LeadingNonZeroDigit h = CENTER_DIGIT.
Proof.
  intros Hres. unfold _h3Rotate60ccw, _h3RotatePent60ccw, _h3LeadingNonZeroDigit.
  rewrite Hres. repeat split.
Qed.

Lemma repeatZ_fixed {A : Type} (f : A -> A) (n : Z) (x : A) :
  f x = x -> repeatZ n f x = x.
Proof.
  intros Hf. unfold repeatZ. induction (Z.to_nat n) as [|m IH]; [reflexivity|].
  cbn [Nat.iter nat_rect]. fold (Nat.iter m f x). rewrite IH. exact Hf.
Qed.

(** X28. At resolution 0 the neighbour is read off the base-cell table:
    a call with a direction in range from a 64-bit index of a real base cell
    succeeds, and the output is the origin with its base-cell field set to the
    table's neighbour for the direction (turned by the rotation count passed
    in), or to the IK neighbour when that entry is the invalid sentinel. *)
Theorem h3NeighborRotations_resolution_zero
    (T : BaseCells) (origin : H3Index) (dir : Direction) (rotations : Z) :
  neighborsFitField T -> U64 origin -> H3_GET_RESOLUTION origin = 0 ->
  0 <= dir < 7 -> H3_GET_BASE_CELL origin < NUM_BASE_CELLS ->
  let neighbor :=
    baseCellNeighbors T (H3_GET_BASE_CELL origin)
                      (repeatZ (Z.rem rotations 6) _rotate60ccw dir) in
  let newBaseCell :=
    if neighbor =? INVALID_BASE_CELL
    then baseCellNeighbors T (H3_GET_BASE_CELL origin) IK_AXES_DIGIT else neighbor in
  nr_err (h3NeighborRotations T origin dir rotations) = E_SUCCESS /\
  nr_out (h3NeighborRotations T origin dir rotations) =
    Some (H3_SET_BASE_CELL origin newBaseCell) /\
  H3_GET_BASE_CELL (H3_SET_BASE_CELL origin newBaseCell) = newBaseCell.
Proof.
  intros WF Horigin Hres Hdir Hbc neighbor newBaseCell.
  pose proof (get_base_cell_range origin) as Hbcr.
  assert (Hbc' : 0 <= H3_GET_BASE_CELL origin < 122) by lia.
  pose proof (WF _ _ Hbc' (repeat_rotate60ccw_dir (Z.rem rotations 6) dir Hdir)) as Hnb.
  fold neighbor in Hnb.
  assert (Hnb5 : 0 <= baseCellNeighbors T (H3_GET_BASE_CELL origin) 5 <= 127)
    by (apply WF; lia).
  assert (Hnew : 0 <= newBaseCell < 128)
    by (subst newBaseCell; destruct (Z.eqb_spec neighbor 127); lia).
  pose proof (set_base_cell_U64 origin newBaseCell Horigin) as HUc.
  assert (Hres' : H3_GET_RESOLUTION (H3_SET_BASE_CELL origin newBaseCell) = 0).
  { rewrite <- Hres. apply resolution_of_header, set_base_cell_header; assumption. }
  destruct (resolution_zero_rotations _ Hres') as (Hw & Hp & Hl).
  assert (Hcall : exists nr rot1,
            neighborWalk T (H3_GET_BASE_CELL origin)
                   (Z.to_nat (H3_GET_RESOLUTION origin)) origin
                   (repeatZ (Z.rem rotations 6) _rotate60ccw dir) (Z.rem rotations 6)
            = WalkDone (H3_SET_BASE_CELL origin newBaseCell) nr rot1).
  { rewrite Hres. change (Z.to_nat 0) with O. rewrite neighborWalk_O.
    fold neighbor. rewrite get_set_base_cell by side. subst newBaseCell.
    destruct (Z.eqb_spec neighbor 127) as [E|E].
    - rewrite set_base_cell_twice by side. rewrite Hw. eexists _, _. reflexivity.
    - eexists _, _. reflexivity. }
  destruct Hcall as (nr & rot1 & Hwalk).
  assert (Hrun : exists rot, h3NeighborRotations T origin dir rotations =
            {| nr_err := E_SUCCESS; nr_rotations := rot;
               nr_out := Some (H3_SET_BASE_CELL origin newBaseCell) |}).
  { unfold h3NeighborRotations.
    destruct (Z.ltb_spec dir 0); [lia|]. destruct (Z.geb_spec dir 7); [lia|]. cbn [orb].
    destruct (Z.ltb_spec (H3_GET_BASE_CELL origin) 0); [lia|].
    destruct (Z.geb_spec (H3_GET_BASE_CELL origin) 122); [lia|]. cbn [orb].
    rewrite Hwalk. unfold rotateIntoBaseCell, forceOutOfKSubsequence.
    rewrite Hl. change (0 =? 1) with false. cbv iota.
    rewrite (repeatZ_fixed _h3Rotate60ccw nr _ Hw),
            (repeatZ_fixed _h3RotatePent60ccw nr _ Hp).
    destruct (_isBaseCellPentagon T _); eexists; reflexivity. }
  destruct Hrun as [rot Hrun]. rewrite Hrun. cbn [nr_err nr_out].
  split; [reflexivity|]. split; [reflexivity|].
  apply get_set_base_cell; assumption.
Qed.

(** X28, from the pentagon base cell 4 in direction K: the entry is the
    sentinel, the IK neighbour is base cell 9. *)
Lemma h3NeighborRotations_resolution_zero_witness :
  nr_out (h3NeighborRotations exampleBaseCells pentagon4 K_AXES_DIGIT 0) =
    Some (H3_SET_BASE_CELL pentagon4 9).
Proof.
  refine (proj1 (proj2 (h3NeighborRotations_resolution_zero exampleBaseCells pentagon4
                          K_AXES_DIGIT 0 (wf_neighbor_field _ exampleBaseCells_WF)
                          _ _ _ _))).
  - apply example_cells_U64.
  - vm_compute. reflexivity.
  - lia.
  - vm_compute. reflexivity.
Defined.

(** ** Away from the pentagons *)

(** The base cell the walk ends in: the old one, or one of its neighbours. *)
Lemma neighborWalk_base_cell (T : BaseCells) (obc : Z) :
  neighborsFitField T -> 0 <= obc < NUM_BASE_CELLS ->
  forall (n : nat) (current dir rot c' nr rot' : Z),
    (n <= 15)%nat -> U64 current -> 0 <= dir < 7 ->
    neighborWalk T obc n current dir rot = WalkDone c' nr rot' ->
    H3_GET_BASE_CELL c' = H3_GET_BASE_CELL current \/
    exists d, 0 <= d < 7 /\ H3_GET_BASE_CELL c' = baseCellNeighbors T obc d.
Proof.
  intros WF Hobc. induction n as [|r IH]; intros current dir rot c' nr rot' Hn Hcur Hdir Hw.
  - right. rewrite neighborWalk_O in Hw.
    pose proof (WF obc dir Hobc Hdir) as Hnb.
    assert (Hnb5 : 0 <= baseCellNeighbors T obc 5 <= 127) by (apply WF; lia).
    pose proof (set_base_cell_U64 current (baseCellNeighbors T obc dir) Hcur) as HU1.
    rewrite get_set_base_cell in Hw by side.
    destruct (Z.eqb_spec (baseCellNeighbors T obc dir) 127) as [Heq|Hne];
      injection Hw as <- <- <-.
    + exists 5. split; [lia|].
      pose proof (set_base_cell_U64 _ (baseCellNeighbors T obc 5) HU1) as HU2.
      destruct (rotate60ccw_U64 _ HU2) as [_ Hhd].
      rewrite (base_cell_of_header _ _ Hhd). apply get_set_base_cell; side.
    + exists dir. split; [lia|]. apply get_set_base_cell; side.
  - rewrite neighborWalk_S in Hw. cbv zeta in Hw.
    pose proof (get_digit_range current (Z.of_nat r + 1)) as Hd.
    destruct (Z.eqb_spec (H3_GET_INDEX_DIGIT current (Z.of_nat r + 1)) 7) as [|Hne7];
      [discriminate|].
    destruct (tableAt_range (tablePairAt (Z.of_nat r + 1))
                (H3_GET_INDEX_DIGIT current (Z.of_nat r + 1)) dir) as [Hnd Hadj]; [lia | lia |].
    assert (Hlvl : 1 <= Z.of_nat r + 1 <= 15) by lia.
    assert (Hnd8 : 0 <= tableAt (NEW_DIGIT (tablePairAt (Z.of_nat r + 1)))
                          (H3_GET_INDEX_DIGIT current (Z.of_nat r + 1)) dir < 8) by lia.
    pose proof (set_digit_U64 current _ _ Hlvl Hnd8 Hcur) as HU1.
    pose proof (set_digit_header current _ _ Hlvl Hnd8 Hcur) as Hhd1.
    apply base_cell_of_header in Hhd1.
    assert (Hr15 : (r <= 15)%nat) by lia.
    destruct (negb _).
    + destruct (IH _ _ _ _ _ _ Hr15 HU1 Hadj Hw) as [Hsame|Hnb].
      * left. rewrite Hsame. exact Hhd1.
      * right. exact Hnb.
    + injection Hw as <- <- <-. left. exact Hhd1.
Qed.

(** X29. Away from the pentagons every step succeeds. From a 64-bit index
    of a real base cell with no [INVALID_DIGIT] among its used digits, when
    neither the base cell nor any of its neighbours in the table is a
    pentagon, a call with a direction in range returns [E_SUCCESS]. *)
Theorem h3NeighborRotations_succeeds_among_hexagons
    (T : BaseCells) (origin : H3Index) (dir : Direction) (rotations : Z) :
  neighborsFitField T -> U64 origin -> 0 <= dir < 7 ->
  H3_GET_BASE_CELL origin < NUM_BASE_CELLS ->
  (forall r, 1 <= r <= H3_GET_RESOLUTION origin ->
     H3_GET_INDEX_DIGIT origin r <> INVALID_DIGIT) ->
  _isBaseCellPentagon T (H3_GET_BASE_CELL origin) = false ->
  (forall d, 0 <= d < 7 ->
     _isBaseCellPentagon T (baseCellNeighbors T (H3_GET_BASE_CELL origin) d) = false) ->
  nr_err (h3NeighborRotations T origin dir rotations) = E_SUCCESS.
Proof.
  intros WF Horigin Hdir Hbc Hvalid Hhex Hnbhex.
  pose proof (get_base_cell_range origin) as Hbcr.
  pose proof (get_resolution_range origin) as Hres.
  assert (Hbc' : 0 <= H3_GET_BASE_CELL origin < 122) by lia.
  assert (Hn : (Z.to_nat (H3_GET_RESOLUTION origin) <= 15)%nat) by lia.
  pose proof (repeat_rotate60ccw_dir (Z.rem rotations 6) dir Hdir) as Hdir'.
  unfold h3NeighborRotations.
  destruct (Z.ltb_spec dir 0); [lia|]. destruct (Z.geb_spec dir 7); [lia|]. cbn [orb].
  destruct (Z.ltb_spec (H3_GET_BASE_CELL origin) 0); [lia|].
  destruct (Z.geb_spec (H3_GET_BASE_CELL origin) 122); [lia|]. cbn [orb].
  destruct (neighborWalk _ _ _ _ _ _) as [e|current newRotations rot1] eqn:Hw.
  - exfalso.
    destruct (neighborWalk_error_digit T _ _ _ _ _ _ Hn Horigin Hdir' Hw) as (r & Hr & H7).
    apply (Hvalid r); [lia | exact H7].
  - assert (Hcur : _isBaseCellPentagon T (H3_GET_BASE_CELL current) = false).
    { destruct (neighborWalk_base_cell T _ WF Hbc' _ _ _ _ _ _ _ Hn Horigin Hdir' Hw)
        as [-> | (d & Hd & ->)]; [exact Hhex | apply Hnbhex, Hd]. }
    unfold rotateIntoBaseCell. rewrite Hcur. reflexivity.
Qed.

(** X29, on the resolution-2 cell of base cell 30 with the digits J, J,
    stepping in direction J: the step carries through both levels into base
    cell 32; the neighbours of base cell 30 in the example table are the base
    cells 30 .. 36. *)
Lemma h3NeighborRotations_succeeds_among_hexagons_witness :
  nr_err (h3NeighborRotations exampleBaseCells (setH3Index 2 30 J_AXES_DIGIT)
                              J_AXES_DIGIT 0) = E_SUCCESS.
Proof.
  apply h3NeighborRotations_succeeds_among_hexagons.
  - apply (wf_neighbor_field _ exampleBaseCells_WF).
  - unfold U64. vm_compute. split; discriminate || reflexivity.
  - lia.
  - vm_compute. reflexivity.
  - intros r Hr. change (H3_GET_RESOLUTION (setH3Index 2 30 J_AXES_DIGIT)) with 2 in Hr.
    assert (Hc : r = 1 \/ r = 2) by lia.
    destruct Hc as [-> | ->]; vm_compute; discriminate.
  - vm_compute. reflexivity.
  - intros d Hd. each_digit Hd; vm_compute; reflexivity.
Defined.
